(** * pg_check, src/index.c: the b-tree index page checks

    A shallow embedding of [check_index_page], [check_index_tuples],
    [check_index_tuple] and [check_index_tuple_attributes], and the
    properties of the specification that concern them.

    The C functions read a page through two pointers ([PageHeader header]
    and [char *buffer]), count errors in a [uint32] and emit one [ereport]
    per finding.  The embedding keeps all three: memory is a total map from
    byte offsets (relative to the pointer) to bytes, every read is recorded
    with its offset and width, and every [ereport] is recorded with its
    level and message.  A read outside the page is therefore visible in the
    recorded trace instead of being undefined. *)

From Stdlib Require Import ZArith List Lia Bool String Ascii.
Import ListNotations.
Local Open Scope Z_scope.

(** ** C integer conversions *)

Module C.

Definition uint16 (x : Z) : Z := x mod 2 ^ 16.
Definition uint32 (x : Z) : Z := x mod 2 ^ 32.
Definition uint64 (x : Z) : Z := x mod 2 ^ 64.
Definition size_t (x : Z) : Z := uint64 x.
Definition uintptr_t (x : Z) : Z := uint64 x.
(* conversion to [int] as gcc does it: reduction modulo 2^32 into
   [-2^31, 2^31) *)
Definition int (x : Z) : Z := (x + 2 ^ 31) mod 2 ^ 32 - 2 ^ 31.

End C.

(** ** Memory, events and the trace monad *)

(* bytes behind a pointer, addressed by the offset from the pointer; the
   page occupies the offsets [0, BLCKSZ), the rest is whatever surrounds
   the page in the address space *)
Definition mem := Z -> Z.

Inductive region := Header | Buffer.

Inductive elevel := DEBUG3 | DEBUG2 | DEBUG1 | WARNING.

(* one constructor per [errmsg] format of index.c, with the arguments the
   format prints: a uint32 field of the page or error count handed to %d
   is recorded as the int that is printed, the block number as the caller
   passed it; [MsgCommon] stands for the reports of common.c *)
Inductive message :=
| MsgCommon (text : string)
| MsgMetaPage (block magic version : Z)
| MsgInvalidMagic (block magic expected : Z)
| MsgInvalidVersion (block version expected : Z)
| MsgNotEnoughSpecial (block size space : Z)
| MsgLeafLevelNotZero (block level : Z)
| MsgNonLeafLevelZero (block : Z)
| MsgMaxTuples (block ntuples : Z)
| MsgProbablyCorrupted (block nerrs : Z)
| MsgTuple (block item off len tid_block tid_offset : Z)
| MsgCheckingIntersection (block item : Z)
| MsgSkippedNotNormal (block item : Z)
| MsgIntersects (block item other a b c d : Z)
| MsgCheckingAttributes (block offnum : Z)
| MsgNumberOfAttributes (block offnum natts : Z)
| MsgFirstDataKey (block offnum : Z)
| MsgAttributeIsNull (block offnum : Z) (attname : string)
| MsgNegativeLength (block offnum : Z) (attname : string) (len : Z)
| MsgInvalidRawLength (block offnum : Z) (attname : string) (rawsize : Z)
| MsgOverflowsTupleEnd (block offnum : Z) (attname : string)
                       (off len lp_off lp_len : Z)
| MsgAttributeLength (block offnum : Z) (attname : string) (len : Z)
| MsgLastAttribute (block offnum off tuple_end : Z)
| MsgLastAttributeBeyondEnd (block offnum off tuple_end : Z).

Inductive event :=
| Load (r : region) (addr size : Z)
| Ereport (lvl : elevel) (msg : message).

Definition M (A : Type) : Type := (A * list event)%type.

Definition ret {A} (a : A) : M A := (a, []).

Definition bind {A B} (m : M A) (f : A -> M B) : M B :=
  let '(a, t1) := m in
  let '(b, t2) := f a in
  (b, t1 ++ t2).

Notation "x <- c ;; k" := (bind c (fun x => k))
  (at level 61, c at next level, right associativity).
Notation "' pat <- c ;; k" := (bind c (fun x => match x with pat => k end))
  (at level 61, pat pattern, c at next level, right associativity).
Notation "c ;;; k" := (bind c (fun _ => k))
  (at level 61, right associativity).

Definition value {A} (m : M A) : A := fst m.
Definition trace {A} (m : M A) : list event := snd m.

Definition ereport (lvl : elevel) (msg : message) : M unit :=
  (tt, [Ereport lvl msg]).

Definition is_load (e : event) : bool :=
  match e with Load _ _ _ => true | Ereport _ _ => false end.
Definition only_loads (t : list event) : bool := forallb is_load t.

(* little-endian reads *)
Definition u8_at (m : mem) (a : Z) : Z := Z.land (m a) 255.
Definition u16_at (m : mem) (a : Z) : Z :=
  Z.lor (u8_at m a) (Z.shiftl (u8_at m (a + 1)) 8).
Definition u32_at (m : mem) (a : Z) : Z :=
  Z.lor (u16_at m a) (Z.shiftl (u16_at m (a + 2)) 16).

Definition load8 (r : region) (m : mem) (a : Z) : M Z :=
  (u8_at m a, [Load r a 1]).
Definition load16 (r : region) (m : mem) (a : Z) : M Z :=
  (u16_at m a, [Load r a 2]).
Definition load32 (r : region) (m : mem) (a : Z) : M Z :=
  (u32_at m a, [Load r a 4]).

(* [strnlen(s, maxlen)]: the index of the first zero byte at or after [s],
   or [maxlen] when the first [maxlen] bytes hold none *)
Fixpoint strnlen_scan (m : mem) (s : Z) (fuel : nat) (k : Z) : Z :=
  match fuel with
  | O => k
  | S fuel' =>
      if u8_at m (s + k) =? 0 then k else strnlen_scan m s fuel' (k + 1)
  end.

Definition strnlen (r : region) (m : mem) (s maxlen : Z) : M Z :=
  let n := strnlen_scan m s (Z.to_nat maxlen) 0 in
  (n, [Load r s (Z.min maxlen (n + 1))]).

(** ** What PostgreSQL's headers supply

    index.c includes postgres.h, access/itup.h and access/nbtree.h; the
    layouts and macros below are theirs (PostgreSQL 9.x, little-endian,
    8-byte maximum alignment). *)

Module PG.

(* c.h *)
Definition TYPEALIGN (alignval len : Z) : Z :=
  Z.land (C.uintptr_t (C.uintptr_t len + (alignval - 1)))
         (C.uintptr_t (Z.lnot (C.uintptr_t (alignval - 1)))).
Definition SHORTALIGN := TYPEALIGN 2.
Definition INTALIGN := TYPEALIGN 4.
Definition DOUBLEALIGN := TYPEALIGN 8.
Definition MAXALIGN := TYPEALIGN 8.

(* storage/bufpage.h: PageHeaderData *)
Definition SizeOfPageHeaderData : Z := 24.
Definition pd_lower (r : region) (page : mem) : M Z := load16 r page 12.
Definition pd_upper (r : region) (page : mem) : M Z := load16 r page 14.
Definition pd_special (r : region) (page : mem) : M Z := load16 r page 16.

(* storage/itemid.h: ItemIdData is the bit field
   { unsigned lp_off:15, lp_flags:2, lp_len:15; } *)
Record ItemIdData := { lp_off : Z; lp_flags : Z; lp_len : Z }.
Definition sizeof_ItemIdData : Z := 4.
Definition LP_UNUSED : Z := 0.
Definition LP_NORMAL : Z := 1.
Definition LP_REDIRECT : Z := 2.
Definition LP_DEAD : Z := 3.

Definition ItemId_of_word (w : Z) : ItemIdData :=
  {| lp_off := Z.land w 0x7FFF;
     lp_flags := Z.land (Z.shiftr w 15) 3;
     lp_len := Z.land (Z.shiftr w 17) 0x7FFF |}.

Definition pd_linp (r : region) (page : mem) (i : Z) : M ItemIdData :=
  w <- load32 r page (SizeOfPageHeaderData + sizeof_ItemIdData * i) ;;
  ret (ItemId_of_word w).

Definition PageGetMaxOffsetNumber (r : region) (page : mem) : M Z :=
  lower <- pd_lower r page ;;
  ret (if lower <=? SizeOfPageHeaderData then 0
       else (lower - SizeOfPageHeaderData) / sizeof_ItemIdData).

(* storage/block.h, storage/itemptr.h: ItemPointerData { BlockIdData
   ip_blkid; OffsetNumber ip_posid; } with BlockIdData { uint16 bi_hi;
   uint16 bi_lo; } *)
Definition BlockIdGetBlockNumber (r : region) (m : mem) (blockId : Z) : M Z :=
  bi_hi <- load16 r m blockId ;;
  bi_lo <- load16 r m (blockId + 2) ;;
  ret (C.uint32 (Z.lor (C.int (Z.shiftl bi_hi 16)) (C.uint16 bi_lo))).
Definition ItemPointerGetBlockNumber (r : region) (m : mem) (pointer : Z)
    : M Z :=
  BlockIdGetBlockNumber r m pointer.
Definition ItemPointerGetOffsetNumber (r : region) (m : mem) (pointer : Z)
    : M Z :=
  load16 r m (pointer + 4).

(* access/itup.h: IndexTupleData { ItemPointerData t_tid; unsigned short
   t_info; } *)
Definition sizeof_IndexTupleData : Z := 8.
Definition sizeof_IndexAttributeBitMapData : Z := 4.
Definition INDEX_SIZE_MASK : Z := 0x1FFF.
Definition INDEX_VAR_MASK : Z := 0x4000.
Definition INDEX_NULL_MASK : Z := 0x8000.

Definition t_info (r : region) (m : mem) (itup : Z) : M Z :=
  load16 r m (itup + 6).
Definition IndexTupleSize (r : region) (m : mem) (itup : Z) : M Z :=
  info <- t_info r m itup ;;
  ret (C.size_t (Z.land info INDEX_SIZE_MASK)).
Definition IndexTupleHasNulls (r : region) (m : mem) (itup : Z) : M bool :=
  info <- t_info r m itup ;;
  ret (negb (Z.land info INDEX_NULL_MASK =? 0)).
Definition IndexInfoFindDataOffset (info : Z) : Z :=
  if Z.land info INDEX_NULL_MASK =? 0
  then C.size_t (MAXALIGN sizeof_IndexTupleData)
  else C.size_t (MAXALIGN (sizeof_IndexTupleData
                           + sizeof_IndexAttributeBitMapData)).

(* access/tupmacs.h *)
Definition att_isnull (r : region) (m : mem) (att bits : Z) : M bool :=
  b <- load8 r m (bits + Z.shiftr att 3) ;;
  ret (Z.land b (Z.shiftl 1 (Z.land att 7)) =? 0).

Definition att_align_nominal (cur_offset : Z) (attalign : ascii) : Z :=
  if Ascii.eqb attalign "i" then INTALIGN cur_offset
  else if Ascii.eqb attalign "c" then C.uintptr_t cur_offset
  else if Ascii.eqb attalign "d" then DOUBLEALIGN cur_offset
  else SHORTALIGN cur_offset.

Definition VARATT_NOT_PAD_BYTE (r : region) (m : mem) (p : Z) : M bool :=
  b <- load8 r m p ;;
  ret (negb (b =? 0)).

Definition att_align_pointer (r : region) (m : mem)
    (cur_offset : Z) (attalign : ascii) (attlen : Z) (attptr : Z) : M Z :=
  if attlen =? -1 then
    not_pad <- VARATT_NOT_PAD_BYTE r m attptr ;;
    ret (if not_pad then C.uintptr_t cur_offset
         else att_align_nominal cur_offset attalign)
  else ret (att_align_nominal cur_offset attalign).

(* access/nbtree.h: BTPageOpaqueData { BlockNumber btpo_prev, btpo_next;
   union { uint32 level; TransactionId xact; } btpo; uint16 btpo_flags;
   BTCycleId btpo_cycleid; } *)
Definition sizeof_BTPageOpaqueData : Z := 16.
Definition BTP_LEAF : Z := 1.
Definition BTP_DELETED : Z := 4.
Definition P_NONE : Z := 0.
Definition P_HIKEY : Z := 1.
Definition P_FIRSTKEY : Z := 2.
Definition BTREE_METAPAGE : Z := 0.

Definition btpo_next (r : region) (m : mem) (opaque : Z) : M Z :=
  load32 r m (opaque + 4).
Definition btpo_level (r : region) (m : mem) (opaque : Z) : M Z :=
  load32 r m (opaque + 8).
Definition btpo_flags (r : region) (m : mem) (opaque : Z) : M Z :=
  load16 r m (opaque + 12).

Definition P_ISLEAF (r : region) (m : mem) (opaque : Z) : M bool :=
  flags <- btpo_flags r m opaque ;;
  ret (negb (Z.land flags BTP_LEAF =? 0)).
Definition P_ISDELETED (r : region) (m : mem) (opaque : Z) : M bool :=
  flags <- btpo_flags r m opaque ;;
  ret (negb (Z.land flags BTP_DELETED =? 0)).
Definition P_RIGHTMOST (r : region) (m : mem) (opaque : Z) : M bool :=
  next <- btpo_next r m opaque ;;
  ret (next =? P_NONE).
Definition P_FIRSTDATAKEY (r : region) (m : mem) (opaque : Z) : M Z :=
  rightmost <- P_RIGHTMOST r m opaque ;;
  ret (if rightmost then P_HIKEY else P_FIRSTKEY).

(* BTMetaPageData { uint32 btm_magic; uint32 btm_version; ... } at
   PageGetContents(page) *)
Definition BTPageGetMeta : Z := MAXALIGN SizeOfPageHeaderData.
Definition btm_magic (r : region) (m : mem) (mpdata : Z) : M Z :=
  load32 r m mpdata.
Definition btm_version (r : region) (m : mem) (mpdata : Z) : M Z :=
  load32 r m (mpdata + 4).

(* catalog/pg_attribute.h: the fields of FormData_pg_attribute that
   index.c reads *)
Record FormData_pg_attribute := {
  attname : string;
  attlen : Z;
  attbyval : bool;
  attalign : ascii
}.

End PG.

(* The parts of the headers that differ from one build of PostgreSQL to
   the next: the block size, the b-tree format constants, what
   [sizeof(BTPageOpaque)] evaluates to, and the varlena header macros of
   postgres.h (they depend on the byte order and on the release). *)
Class Build := {
  BLCKSZ : Z;
  sizeof_BTPageOpaque : Z;
  BTREE_MAGIC : Z;
  BTREE_VERSION : Z;
  VARSIZE_ANY : mem -> Z -> M Z;
  VARATT_IS_COMPRESSED : mem -> Z -> M bool;
  VARRAWSIZE_4B_C : mem -> Z -> M Z;
  (* the macros read memory and report nothing *)
  VARSIZE_ANY_reads : forall m p, only_loads (trace (VARSIZE_ANY m p)) = true;
  VARATT_IS_COMPRESSED_reads :
    forall m p, only_loads (trace (VARATT_IS_COMPRESSED m p)) = true;
  VARRAWSIZE_4B_C_reads :
    forall m p, only_loads (trace (VARRAWSIZE_4B_C m p)) = true
}.

(* postgres.h as of PostgreSQL 9.0 to 9.2 on a little-endian machine *)
Module Varlena.

Definition VARATT_IS_1B (m : mem) (p : Z) : M bool :=
  b <- load8 Buffer m p ;;
  ret (Z.land b 0x01 =? 0x01).
Definition VARATT_IS_1B_E (m : mem) (p : Z) : M bool :=
  b <- load8 Buffer m p ;;
  ret (b =? 0x01).
Definition VARATT_IS_4B_C (m : mem) (p : Z) : M bool :=
  b <- load8 Buffer m p ;;
  ret (Z.land b 0x03 =? 0x02).
Definition VARSIZE_4B (m : mem) (p : Z) : M Z :=
  h <- load32 Buffer m p ;;
  ret (Z.land (Z.shiftr h 2) 0x3FFFFFFF).
Definition VARSIZE_1B (m : mem) (p : Z) : M Z :=
  h <- load8 Buffer m p ;;
  ret (Z.land (Z.shiftr h 1) 0x7F).
Definition VARSIZE_1B_E (m : mem) (p : Z) : M Z :=
  load8 Buffer m (p + 1).

Definition VARSIZE_ANY (m : mem) (p : Z) : M Z :=
  external <- VARATT_IS_1B_E m p ;;
  if external then VARSIZE_1B_E m p
  else
    short <- VARATT_IS_1B m p ;;
    if short then VARSIZE_1B m p else VARSIZE_4B m p.

Definition VARATT_IS_COMPRESSED := VARATT_IS_4B_C.

(* va_compressed.va_rawsize, a uint32 behind the 4-byte header *)
Definition VARRAWSIZE_4B_C (m : mem) (p : Z) : M Z :=
  load32 Buffer m (p + 4).

Lemma VARSIZE_ANY_reads m p : only_loads (trace (VARSIZE_ANY m p)) = true.
Proof.
  unfold VARSIZE_ANY, VARATT_IS_1B_E, VARATT_IS_1B, VARSIZE_1B_E, VARSIZE_1B,
    VARSIZE_4B, load8, load32, bind, ret.
  destruct (u8_at m p =? 1); [reflexivity|].
  destruct (Z.land (u8_at m p) 1 =? 1); reflexivity.
Qed.

Lemma VARATT_IS_COMPRESSED_reads m p :
  only_loads (trace (VARATT_IS_COMPRESSED m p)) = true.
Proof. reflexivity. Qed.

Lemma VARRAWSIZE_4B_C_reads m p :
  only_loads (trace (VARRAWSIZE_4B_C m p)) = true.
Proof. reflexivity. Qed.

End Varlena.

(* a 64-bit build with the default block size; BTPageOpaque is the pointer
   type BTPageOpaqueData *, so its size is that of a pointer *)
Definition pg_x86_64 : Build := {|
  BLCKSZ := 8192;
  sizeof_BTPageOpaque := 8;
  BTREE_MAGIC := 0x053162;
  BTREE_VERSION := 2;
  VARSIZE_ANY := Varlena.VARSIZE_ANY;
  VARATT_IS_COMPRESSED := Varlena.VARATT_IS_COMPRESSED;
  VARRAWSIZE_4B_C := Varlena.VARRAWSIZE_4B_C;
  VARSIZE_ANY_reads := Varlena.VARSIZE_ANY_reads;
  VARATT_IS_COMPRESSED_reads := Varlena.VARATT_IS_COMPRESSED_reads;
  VARRAWSIZE_4B_C_reads := Varlena.VARRAWSIZE_4B_C_reads
|}.

(** ** index.c *)

(* rel->rd_att->attrs, an array of rel->rd_att->natts descriptors *)
Definition Relation := list PG.FormData_pg_attribute.
Definition natts (rel : Relation) : Z := Z.of_nat (List.length rel).

(* lines 11-12:
   #define BlockNum(tuple) \
   (((tuple->t_tid.ip_blkid).bi_hi << 16) | ((uint16) (tuple->t_tid.ip_blkid).bi_lo))
   with t_tid.ip_blkid = { uint16 bi_hi; uint16 bi_lo; } at the start of
   the tuple; bi_hi is promoted to int before the shift *)
Definition BlockNum (r : region) (m : mem) (tuple : Z) : M Z :=
  bi_hi <- load16 r m tuple ;;
  bi_lo <- load16 r m (tuple + 2) ;;
  ret (Z.lor (C.int (Z.shiftl bi_hi 16)) (C.uint16 bi_lo)).

(* how one pass through the body of a [for] loop ends: by falling through
   or [continue] ([Next]), or by [break] *)
Inductive flow := Next (off nerrs : Z) | Break (off nerrs : Z).

Section Index.

Context {build : Build}.

(* common.c, not part of this file: the error count returned for the
   generic page header and the reports made on the way *)
Variable check_page_header : mem -> Z -> Z * list (elevel * string).

(* [int len;] is declared in the body of the attribute loop without an
   initialiser and is read at line 319 before anything is stored in it:
   [len_indeterminate offnum j] is the value found there for attribute [j]
   of tuple [offnum] *)
Variable len_indeterminate : Z -> Z -> Z.

Definition call_check_page_header (header : mem) (block : Z) : M Z :=
  let '(n, reports) := check_page_header header block in
  (n, map (fun r => Ereport (fst r) (MsgCommon (snd r))) reports).

(* lines 22-105 *)
Definition check_index_page (header buffer : mem) (block : Z) : M Z :=
  let nerrs := 0 in
  (* check basic page header *)
  n <- call_check_page_header header block ;;
  let nerrs := C.uint32 (nerrs + n) in
  if block =? PG.BTREE_METAPAGE then
    let mpdata := PG.BTPageGetMeta in
    magic <- PG.btm_magic Buffer buffer mpdata ;;
    version <- PG.btm_version Buffer buffer mpdata ;;
    ereport DEBUG2 (MsgMetaPage block (C.int magic) (C.int version)) ;;;
    nerrs <- (if negb (magic =? BTREE_MAGIC) then
                ereport WARNING
                        (MsgInvalidMagic block (C.int magic) BTREE_MAGIC) ;;;
                ret (C.uint32 (nerrs + 1))
              else ret nerrs) ;;
    nerrs <- (if negb (version =? BTREE_VERSION) then
                ereport WARNING
                        (MsgInvalidVersion block (C.int version)
                                           BTREE_VERSION) ;;;
                ret (C.uint32 (nerrs + 1))
              else ret nerrs) ;;
    ret nerrs
  else
    special <- PG.pd_special Header header ;;
    let opaque := special in
    (* check there's enough space for index-relevant data *)
    nerrs <- (if special >? C.size_t (BLCKSZ - sizeof_BTPageOpaque) then
                ereport WARNING
                        (MsgNotEnoughSpecial block (C.int sizeof_BTPageOpaque)
                                             (BLCKSZ - special)) ;;;
                ret (C.uint32 (nerrs + 1))
              else ret nerrs) ;;
    deleted <- PG.P_ISDELETED Buffer buffer opaque ;;
    if negb deleted then
      leaf <- PG.P_ISLEAF Buffer buffer opaque ;;
      level <- PG.btpo_level Buffer buffer opaque ;;
      if leaf then
        if negb (level =? 0) then
          ereport WARNING (MsgLeafLevelNotZero block (C.int level)) ;;;
          ret (C.uint32 (nerrs + 1))
        else ret nerrs
      else
        if level =? 0 then
          ereport WARNING (MsgNonLeafLevelZero block) ;;;
          ret (C.uint32 (nerrs + 1))
        else ret nerrs
    else ret nerrs.

(* lines 276-323, the actual length of the attribute value at [off]:
   [inl (len, nerrs)], or [inr nerrs] when the loop is left by [break] *)
Definition attribute_length (block offnum : Z) (buffer : mem)
    (linp : PG.ItemIdData) (j : Z) (attr : PG.FormData_pg_attribute)
    (off nerrs : Z) : M (Z * Z + Z) :=
  (* copy from src/backend/commands/analyze.c *)
  let is_varlena := negb (PG.attbyval attr) && (PG.attlen attr =? -1) in
  let is_varwidth := negb (PG.attbyval attr) && (PG.attlen attr <? 0) in
  if is_varlena then
    size <- VARSIZE_ANY buffer off ;;
    let len := C.int size in
    if len <? 0 then
      ereport WARNING
              (MsgNegativeLength block offnum (PG.attname attr) len) ;;;
      ret (inr (C.uint32 (nerrs + 1)))
    else
      compressed <- VARATT_IS_COMPRESSED buffer off ;;
      nerrs <-
        (if compressed then
           rawsize <- VARRAWSIZE_4B_C buffer off ;;
           (* the raw length should be less than 1G (and positive) *)
           if (rawsize <? 0) || (rawsize >? 1024 * 1024) then
             ereport WARNING
                     (MsgInvalidRawLength block offnum (PG.attname attr)
                                          (C.int rawsize)) ;;;
             (* no break here *)
             ret (C.uint32 (nerrs + 1))
           else ret nerrs
         else ret nerrs) ;;
      ret (inl (len, nerrs))
  else if is_varwidth then
    (* get the C-string length (at most to the end of tuple), +1 as it
       does not include the zero byte at the end *)
    let len := len_indeterminate offnum j in
    n <- strnlen Buffer buffer off
                 (C.size_t (C.int (PG.lp_off linp + len + PG.lp_len linp
                                   - off))) ;;
    ret (inl (C.int (n + 1), nerrs))
  else
    (* attributes with fixed length *)
    ret (inl (PG.attlen attr, nerrs)).

(* lines 253-348, one pass through the body of the loop over the
   attributes, for attribute [j] with descriptor [attr] *)
Definition attribute_body (block offnum : Z) (buffer : mem) (dlen : Z)
    (linp : PG.ItemIdData) (tuple bitmap : Z)
    (j : Z) (attr : PG.FormData_pg_attribute) (off nerrs : Z) : M flow :=
  (* if the attribute is marked as NULL, skip to the next attribute *)
  hasnulls <- PG.IndexTupleHasNulls Buffer buffer tuple ;;
  isnull <- (if hasnulls then PG.att_isnull Buffer buffer j bitmap
             else ret false) ;;
  if isnull then
    ereport DEBUG3 (MsgAttributeIsNull block offnum (PG.attname attr)) ;;;
    ret (Next off nerrs)
  else
    (* fix the alignment *)
    aligned <- PG.att_align_pointer Buffer buffer off (PG.attalign attr)
                                    (PG.attlen attr) off ;;
    let off := C.int aligned in
    measured <- attribute_length block offnum buffer linp j attr off nerrs ;;
    match measured with
    | inr nerrs => ret (Break off nerrs)
    | inl (len, nerrs) =>
        (* Assert(len >= 0) is empty unless assertions are compiled in *)
        (* check if the length makes sense, stop validating otherwise *)
        if (dlen >? 0)
           && (C.int (off + len) >? PG.lp_off linp + PG.lp_len linp) then
          ereport WARNING
                  (MsgOverflowsTupleEnd block offnum (PG.attname attr) off len
                                        (PG.lp_off linp) (PG.lp_len linp)) ;;;
          ret (Break off (C.uint32 (nerrs + 1)))
        else
          (* skip to the next attribute *)
          let off := C.int (off + (if dlen >? 0 then len else 0)) in
          ereport DEBUG3
                  (MsgAttributeLength block offnum (PG.attname attr) len) ;;;
          ret (Next off nerrs)
    end.

(* for (j = 0; j < rel->rd_att->natts; j++), entered at attribute [j] with
   [attrs] the descriptors from [j] on *)
Fixpoint attributes_loop (block offnum : Z) (buffer : mem) (dlen : Z)
    (linp : PG.ItemIdData) (tuple bitmap : Z)
    (attrs : list PG.FormData_pg_attribute) (j off nerrs : Z)
    : M (Z * Z) :=
  match attrs with
  | [] => ret (off, nerrs)
  | attr :: rest =>
      r <- attribute_body block offnum buffer dlen linp tuple bitmap
                          j attr off nerrs ;;
      match r with
      | Next off nerrs =>
          attributes_loop block offnum buffer dlen linp tuple bitmap
                          rest (j + 1) off nerrs
      | Break off nerrs => ret (off, nerrs)
      end
  end.

(* lines 205-364 *)
Definition check_index_tuple_attributes (rel : Relation) (header : mem)
    (block offnum : Z) (buffer : mem) (dlen : Z) : M Z :=
  let nerrs := 0 in
  ereport DEBUG2 (MsgCheckingAttributes block offnum) ;;;
  (* get the index tuple and info about the page *)
  linp <- PG.pd_linp Header header (offnum - 1) ;;
  let tuple := PG.lp_off linp in
  special <- PG.pd_special Header header ;;
  let opaque := special in
  (* current attribute offset - always starts at (buffer + off) *)
  info <- PG.t_info Buffer buffer tuple ;;
  let off :=
    C.int (C.size_t (PG.lp_off linp + PG.IndexInfoFindDataOffset info)) in
  ereport DEBUG3 (MsgNumberOfAttributes block offnum (natts rel)) ;;;
  let bitmap := PG.lp_off linp + PG.sizeof_IndexTupleData in
  (* !P_ISLEAF(opaque) && offnum == P_FIRSTDATAKEY(opaque) && dlen == 0 *)
  leaf <- PG.P_ISLEAF Buffer buffer opaque ;;
  nodata <- (if negb leaf then
               first <- PG.P_FIRSTDATAKEY Buffer buffer opaque ;;
               ret ((offnum =? first) && (dlen =? 0))
             else ret false) ;;
  if nodata then
    ereport DEBUG3 (MsgFirstDataKey block offnum) ;;;
    ret nerrs
  else
    (* check all the index attributes *)
    '(off, nerrs) <- attributes_loop block offnum buffer dlen linp tuple
                                     bitmap rel 0 off nerrs ;;
    let tuple_end := PG.lp_off linp + PG.lp_len linp in
    ereport DEBUG3 (MsgLastAttribute block offnum off tuple_end) ;;;
    (* after the last attribute, the offset should be less than the end of
       the tuple *)
    if PG.MAXALIGN off >? C.uintptr_t tuple_end then
      ereport WARNING
              (MsgLastAttributeBeyondEnd block offnum off tuple_end) ;;;
      ret (C.uint32 (nerrs + 1))
    else ret nerrs.

(* lines 172-196: for (j = 0; j < i; j++), entered at [j] with [count]
   passes left; [a, b] is the range of the tuple under check *)
Fixpoint intersection_loop (header : mem) (block i a b : Z)
    (count : nat) (j nerrs : Z) : M Z :=
  match count with
  | O => ret nerrs
  | S count' =>
      lp2 <- PG.pd_linp Header header j ;;
      if negb (PG.lp_flags lp2 =? PG.LP_NORMAL) then
        ereport DEBUG3 (MsgSkippedNotNormal block (j + 1)) ;;;
        intersection_loop header block i a b count' (j + 1) nerrs
      else
        let c := PG.lp_off lp2 in
        let d := PG.lp_off lp2 + PG.lp_len lp2 in
        (* [A,C,B] or [A,D,B] or [C,A,D] or [C,B,D] *)
        nerrs <- (if ((a <? c) && (c <? b)) || ((a <? d) && (d <? b))
                     || ((c <? a) && (a <? d)) || ((c <? b) && (b <? d))
                  then
                    ereport WARNING
                            (MsgIntersects block (i + 1) j a b c d) ;;;
                    ret (C.uint32 (nerrs + 1))
                  else ret nerrs) ;;
        intersection_loop header block i a b count' (j + 1) nerrs
  end.

(* line 154:
   int dlen = IndexTupleSize(itup) - IndexInfoFindDataOffset(itup->t_info) *)
Definition tuple_dlen (buffer : mem) (itup : Z) : M Z :=
  size <- PG.IndexTupleSize Buffer buffer itup ;;
  info <- PG.t_info Buffer buffer itup ;;
  ret (C.int (C.size_t (size - PG.IndexInfoFindDataOffset info))).

(* lines 136-203 *)
Definition check_index_tuple (rel : Relation) (header : mem)
    (block i : Z) (buffer : mem) : M Z :=
  let nerrs := 0 in
  lp <- PG.pd_linp Header header i ;;
  let itup := PG.lp_off lp in
  dlen <- tuple_dlen buffer itup ;;
  (* the report of lines 156-160 reads itup->t_tid for its arguments *)
  tid_block <- PG.ItemPointerGetBlockNumber Buffer buffer itup ;;
  tid_offset <- PG.ItemPointerGetOffsetNumber Buffer buffer itup ;;
  ereport DEBUG2 (MsgTuple block (i + 1) (PG.lp_off lp) (PG.lp_len lp)
                           (C.int tid_block) tid_offset) ;;;
  (* check intersection with other tuples; [A,B] vs [C,D] *)
  let a := PG.lp_off lp in
  let b := PG.lp_off lp + PG.lp_len lp in
  ereport DEBUG2 (MsgCheckingIntersection block (i + 1)) ;;;
  nerrs <- intersection_loop header block i a b (Z.to_nat i) 0 nerrs ;;
  (* check attributes only for tuples with (lp_flags==LP_NORMAL) *)
  if PG.lp_flags lp =? PG.LP_NORMAL then
    n <- check_index_tuple_attributes rel header block (C.uint16 (i + 1))
                                      buffer dlen ;;
    ret (C.uint32 (nerrs + n))
  else ret nerrs.

(* lines 125-126: for (i = 0; i < ntuples; i++) *)
Fixpoint tuples_loop (rel : Relation) (header : mem) (block : Z)
    (buffer : mem) (count : nat) (i nerrs : Z) : M Z :=
  match count with
  | O => ret nerrs
  | S count' =>
      n <- check_index_tuple rel header block i buffer ;;
      tuples_loop rel header block buffer count' (i + 1)
                  (C.uint32 (nerrs + n))
  end.

(* lines 107-134 *)
Definition check_index_tuples (rel : Relation) (header buffer : mem)
    (block : Z) : M Z :=
  maxoff <- PG.PageGetMaxOffsetNumber Buffer buffer ;;
  let ntuples := C.int maxoff in
  let nerrs := 0 in
  ereport DEBUG1 (MsgMaxTuples block ntuples) ;;;
  nerrs <- tuples_loop rel header block buffer (Z.to_nat ntuples) 0 nerrs ;;
  (if nerrs >? 0 then
     ereport WARNING (MsgProbablyCorrupted block (C.int nerrs))
   else ret tt) ;;;
  ret nerrs.

End Index.

(** ** Reading traces *)

(* the error reports of a trace: its WARNING reports whose message is in
   the class [p] *)
Definition is_warning (p : message -> bool) (e : event) : bool :=
  match e with
  | Ereport WARNING msg => p msg
  | _ => false
  end.

Definition count_warnings (p : message -> bool) (t : list event) : Z :=
  Z.of_nat (List.length (filter (is_warning p) t)).

Definition any_message (m : message) : bool := true.

(* the number of errors reported in a trace *)
Abbreviation W t := (count_warnings any_message t).

Definition is_index_message (m : message) : bool :=
  match m with MsgCommon _ => false | _ => true end.
Definition is_invalid_magic (m : message) : bool :=
  match m with MsgInvalidMagic _ _ _ => true | _ => false end.
Definition is_invalid_version (m : message) : bool :=
  match m with MsgInvalidVersion _ _ _ => true | _ => false end.
Definition is_meta_error (m : message) : bool :=
  is_invalid_magic m || is_invalid_version m.
Definition is_special_space_error (m : message) : bool :=
  match m with MsgNotEnoughSpecial _ _ _ => true | _ => false end.
Definition is_level_error (m : message) : bool :=
  match m with
  | MsgLeafLevelNotZero _ _ | MsgNonLeafLevelZero _ => true
  | _ => false
  end.
Definition is_intersection_error (m : message) : bool :=
  match m with MsgIntersects _ _ _ _ _ _ _ => true | _ => false end.
Definition is_attribute_message (m : message) : bool :=
  match m with
  | MsgCheckingAttributes _ _ | MsgNumberOfAttributes _ _ _
  | MsgFirstDataKey _ _ | MsgAttributeIsNull _ _ _
  | MsgNegativeLength _ _ _ _ | MsgInvalidRawLength _ _ _ _
  | MsgOverflowsTupleEnd _ _ _ _ _ _ _ | MsgAttributeLength _ _ _ _
  | MsgLastAttribute _ _ _ _ | MsgLastAttributeBeyondEnd _ _ _ _ => true
  | _ => false
  end.
Definition is_other_attribute_message (m : message) : bool :=
  match m with
  | MsgOverflowsTupleEnd _ _ _ _ _ _ _ => false
  | _ => is_attribute_message m
  end.
Definition is_negative_length_error (m : message) : bool :=
  match m with MsgNegativeLength _ _ _ _ => true | _ => false end.
Definition not_negative_length (m : message) : bool :=
  negb (is_negative_length_error m).

Definition is_raw_length_error (m : message) : bool :=
  match m with MsgInvalidRawLength _ _ _ _ => true | _ => false end.
Definition is_summary (m : message) : bool :=
  match m with MsgProbablyCorrupted _ _ => true | _ => false end.
Definition is_overflow_error (m : message) : bool :=
  match m with MsgOverflowsTupleEnd _ _ _ _ _ _ _ => true | _ => false end.

(* every WARNING report of the trace has its message in the class [q] *)
Definition warning_in (q : message -> bool) (e : event) : bool :=
  match e with
  | Ereport WARNING msg => q msg
  | _ => true
  end.

Definition warnings_in (q : message -> bool) (t : list event) : bool :=
  forallb (warning_in q) t.

Definition region_eqb (r1 r2 : region) : bool :=
  match r1, r2 with
  | Header, Header | Buffer, Buffer => true
  | _, _ => false
  end.

(* [Load r addr n] stays inside the [size] bytes behind the pointer *)
Definition load_within (r : region) (size : Z) (e : event) : bool :=
  match e with
  | Load r' addr n =>
      negb (region_eqb r r') || (n =? 0)
      || ((0 <=? addr) && (addr + n <=? size))
  | Ereport _ _ => true
  end.

Definition loads_within (r : region) (size : Z) (t : list event) : bool :=
  forallb (load_within r size) t.

(* the test of lines 188-189 on the ranges [a, b] and [c, d] *)
Definition intersects (a b c d : Z) : bool :=
  ((a <? c) && (c <? b)) || ((a <? d) && (d <? b))
  || ((c <? a) && (a <? d)) || ((c <? b) && (b <? d)).

(* the byte ranges [a, b) and [c, d) have a byte in common *)
Definition share_a_byte (a b c d : Z) : Prop :=
  exists x, (a <= x < b) /\ (c <= x < d).

(* line pointer [j] of the page behind [header] *)
Definition ItemId (header : mem) (j : Z) : PG.ItemIdData :=
  value (PG.pd_linp Header header j).

(* slot [j] is LP_NORMAL and its range passes the test against [a, b] *)
Definition normal_and_intersects (header : mem) (a b : Z) (j : Z) : bool :=
  (PG.lp_flags (ItemId header j) =? PG.LP_NORMAL)
  && intersects a b (PG.lp_off (ItemId header j))
                (PG.lp_off (ItemId header j) + PG.lp_len (ItemId header j)).

(* the check of slot [i] reports that it intersects with slot [j]
   (line 193 prints j, not j + 1, for the other slot) *)
Definition reports_pair {build : Build} (len_indeterminate : Z -> Z -> Z)
    (rel : Relation) (header : mem) (block i j : Z) (buffer : mem) : Prop :=
  exists a b c d,
    In (Ereport WARNING (MsgIntersects block (i + 1) j a b c d))
       (trace (check_index_tuple len_indeterminate rel header block i buffer)).

(* the slots [first], ..., [first + count - 1] *)
Fixpoint slots (first : Z) (count : nat) : list Z :=
  match count with
  | O => []
  | S count' => first :: slots (first + 1) count'
  end.

(* how many of the [count] slots from [j] on are LP_NORMAL and pass the
   test against [a, b] *)
Definition hits (header : mem) (a b : Z) (j : Z) (count : nat) : Z :=
  Z.of_nat (List.length (filter (normal_and_intersects header a b)
                                (slots j count))).

(* how many of the slots before [i] are LP_NORMAL and pass the test against
   the range of slot [i] *)
Definition intersections_before (header : mem) (i : Z) : Z :=
  let lp := ItemId header i in
  hits header (PG.lp_off lp) (PG.lp_off lp + PG.lp_len lp) 0 (Z.to_nat i).

Definition sum (l : list Z) : Z := fold_right Z.add 0 l.

(* the error count a pass through the attribute loop ends with *)
Definition measured_nerrs (r : Z * Z + Z) : Z :=
  match r with inl (_, n) => n | inr n => n end.
Definition flow_nerrs (r : flow) : Z :=
  match r with Next _ n => n | Break _ n => n end.

(* attribute [j] is marked as NULL in the tuple header (line 265) *)
Definition attribute_is_null (buffer : mem) (tuple bitmap j : Z) : bool :=
  value (PG.IndexTupleHasNulls Buffer buffer tuple)
  && value (PG.att_isnull Buffer buffer j bitmap).

(* the offset of the attribute once the alignment is fixed (line 274) *)
Definition aligned_offset (buffer : mem) (attr : PG.FormData_pg_attribute)
    (off : Z) : Z :=
  C.int (value (PG.att_align_pointer Buffer buffer off (PG.attalign attr)
                                     (PG.attlen attr) off)).

(* what alignment does to an offset: it moves it up by less than 8 and
   keeps its MAXALIGN *)
Definition aligns (x y : Z) : Prop :=
  x <= y <= x + 7 /\ 8 * ((y + 7) / 8) = 8 * ((x + 7) / 8).

(* the build uses the varlena macros of PostgreSQL *)
Definition pg_varlena (build : Build) : Prop :=
  (forall m p, VARSIZE_ANY m p = Varlena.VARSIZE_ANY m p)
  /\ (forall m p, VARATT_IS_COMPRESSED m p = Varlena.VARATT_IS_COMPRESSED m p)
  /\ (forall m p, VARRAWSIZE_4B_C m p = Varlena.VARRAWSIZE_4B_C m p).

(* a varlena attribute, or one of fixed length (an int16 that is not
   negative): anything but a C string *)
Definition varlena_or_fixed (attr : PG.FormData_pg_attribute) : Prop :=
  (PG.attbyval attr = false /\ PG.attlen attr = -1)
  \/ 0 <= PG.attlen attr < 2 ^ 15.

(* where the attribute loop may find its offset, for a tuple at
   [lo, tuple_end): not beyond the end of the tuple when dlen > 0, not
   beyond the MAXALIGNed start of the data otherwise *)
Definition offset_in_tuple (dlen lo tuple_end off : Z) : Prop :=
  lo <= off
  /\ (if dlen >? 0 then off <= Z.max tuple_end (lo + 16)
      else 8 * ((off + 7) / 8) <= lo + 23).

(* the alignment of the alignment classes of pg_attribute.attalign, as
   att_align_nominal applies them *)
Definition alignment_of (c : ascii) : Z :=
  if Ascii.eqb c "i" then 4
  else if Ascii.eqb c "c" then 1
  else if Ascii.eqb c "d" then 8
  else 2.

(* [x] rounded up to a multiple of [a] *)
Definition align_up (a x : Z) : Z := a * ((x + (a - 1)) / a).

(* attributes of fixed width laid out one after the other from [off], each
   at its alignment: [inl last] with the offset behind the last one when
   they all end at or before [tuple_end], [inr start] with the aligned
   offset of the first one that ends beyond it *)
Fixpoint fixed_layout (tuple_end off : Z)
    (attrs : list PG.FormData_pg_attribute) : Z + Z :=
  match attrs with
  | [] => inl off
  | attr :: rest =>
      let start := align_up (alignment_of (PG.attalign attr)) off in
      if start + PG.attlen attr >? tuple_end then inr start
      else fixed_layout tuple_end (start + PG.attlen attr) rest
  end.

(** ** Pages to run the checks on *)

Module Page.

Definition zeroes : mem := fun _ => 0.

Definition poke8 (a v : Z) (m : mem) : mem :=
  fun x => if x =? a then Z.land v 255 else m x.
Definition poke16 (a v : Z) (m : mem) : mem :=
  poke8 a v (poke8 (a + 1) (Z.shiftr v 8) m).
Definition poke32 (a v : Z) (m : mem) : mem :=
  poke16 a v (poke16 (a + 2) (Z.shiftr v 16) m).
Fixpoint fill (a : Z) (count : nat) (v : Z) (m : mem) : mem :=
  match count with
  | O => m
  | S count' => poke8 a v (fill (a + 1) count' v m)
  end.

Definition set_pd_lower (v : Z) : mem -> mem := poke16 12 v.
Definition set_pd_special (v : Z) : mem -> mem := poke16 16 v.
Definition set_linp (i off flags len : Z) : mem -> mem :=
  poke32 (PG.SizeOfPageHeaderData + PG.sizeof_ItemIdData * i)
         (Z.lor off (Z.lor (Z.shiftl flags 15) (Z.shiftl len 17))).
Definition set_t_info (itup info : Z) : mem -> mem := poke16 (itup + 6) info.
Definition set_btpo_next (special v : Z) : mem -> mem := poke32 (special + 4) v.
Definition set_btpo_level (special v : Z) : mem -> mem :=
  poke32 (special + 8) v.
Definition set_btpo_flags (special v : Z) : mem -> mem :=
  poke16 (special + 12) v.
Definition set_btm_magic (v : Z) : mem -> mem := poke32 PG.BTPageGetMeta v.
Definition set_btm_version (v : Z) : mem -> mem :=
  poke32 (PG.BTPageGetMeta + 4) v.

(* a generic page header that common.c has nothing to say about *)
Definition header_ok : mem -> Z -> Z * list (elevel * string) :=
  fun _ _ => (0, []).

(* the uninitialised [len] holds [v] *)
Definition len_holds (v : Z) : Z -> Z -> Z := fun _ _ => v.

Definition int4 : PG.FormData_pg_attribute :=
  {| PG.attname := "id"; PG.attlen := 4; PG.attbyval := true;
     PG.attalign := "i" |}.
Definition int8 : PG.FormData_pg_attribute :=
  {| PG.attname := "total"; PG.attlen := 8; PG.attbyval := true;
     PG.attalign := "d" |}.
Definition text : PG.FormData_pg_attribute :=
  {| PG.attname := "body"; PG.attlen := -1; PG.attbyval := false;
     PG.attalign := "i" |}.
Definition cstring : PG.FormData_pg_attribute :=
  {| PG.attname := "label"; PG.attlen := -2; PG.attbyval := false;
     PG.attalign := "c" |}.

(* a build whose varlena length is the whole 4-byte header word, read as
   an int *)
Definition whole_word_length : Build := {|
  BLCKSZ := 8192;
  sizeof_BTPageOpaque := 8;
  BTREE_MAGIC := 0x053162;
  BTREE_VERSION := 2;
  VARSIZE_ANY := load32 Buffer;
  VARATT_IS_COMPRESSED := Varlena.VARATT_IS_COMPRESSED;
  VARRAWSIZE_4B_C := Varlena.VARRAWSIZE_4B_C;
  VARSIZE_ANY_reads := fun _ _ => eq_refl;
  VARATT_IS_COMPRESSED_reads := Varlena.VARATT_IS_COMPRESSED_reads;
  VARRAWSIZE_4B_C_reads := Varlena.VARRAWSIZE_4B_C_reads
|}.

(* a leaf page with no item *)
Definition leaf (special level : Z) : mem :=
  set_pd_lower 24 (set_pd_special special
    (set_btpo_flags special PG.BTP_LEAF (set_btpo_level special level zeroes))).

(* an inner page with no item *)
Definition inner (special level : Z) : mem :=
  set_pd_lower 24 (set_pd_special special
    (set_btpo_level special level zeroes)).

(* a deleted page; the level field holds a transaction id *)
Definition deleted (special xact : Z) : mem :=
  set_pd_lower 24 (set_pd_special special
    (set_btpo_flags special (Z.lor PG.BTP_LEAF PG.BTP_DELETED)
       (set_btpo_level special xact zeroes))).

(* a meta page *)
Definition meta (special magic version : Z) : mem :=
  set_pd_lower 48 (set_pd_special special
    (set_btm_magic magic (set_btm_version version zeroes))).

(* a leaf page with one item: slot 0 with the given line pointer, the
   tuple header at [off] holding [info] in t_info *)
Definition one_item (off flags len info : Z) : mem :=
  set_pd_lower 28 (set_linp 0 off flags len (set_t_info off info
    (leaf 8176 0))).

(* two LP_NORMAL line pointers to the same 24 bytes at 8000 *)
Definition twins : mem :=
  set_pd_lower 32 (set_linp 1 8000 PG.LP_NORMAL 24
    (one_item 8000 PG.LP_NORMAL 24 24)).

(* two LP_NORMAL items of 24 bytes, slot 0 at [first] and slot 1 at
   [second] *)
Definition two_items (first second : Z) : mem :=
  set_pd_lower 32 (set_linp 1 second PG.LP_NORMAL 24
    (one_item first PG.LP_NORMAL 24 24)).

(* a LP_DEAD line pointer to [8010, 8034) and, behind it in the slot array,
   a LP_NORMAL item at [8000, 8024) *)
Definition normal_over_dead : mem :=
  set_pd_lower 32 (set_linp 1 8000 PG.LP_NORMAL 24
    (one_item 8010 PG.LP_DEAD 24 24)).

(* a LP_NORMAL item at [8000, 8024) and, behind it in the slot array, a
   LP_DEAD line pointer to [8010, 8034) *)
Definition dead_over_normal : mem :=
  set_pd_lower 32 (set_linp 1 8010 PG.LP_DEAD 24
    (one_item 8000 PG.LP_NORMAL 24 24)).

(* one tuple of 24 bytes holding a compressed varlena of 16 bytes whose raw
   size is [rawsize] *)
Definition compressed (rawsize : Z) : mem :=
  poke32 8008 (Z.lor (Z.shiftl 16 2) 2) (poke32 8012 rawsize
    (one_item 8000 PG.LP_NORMAL 24 (Z.lor PG.INDEX_VAR_MASK 24))).

(* one tuple of 16 bytes whose 8 data bytes hold no zero byte; the first
   zero byte behind them is at 8020 *)
Definition unterminated : mem :=
  fill 8008 8 65 (fill 8016 4 66
    (one_item 8000 PG.LP_NORMAL 16 (Z.lor PG.INDEX_VAR_MASK 16))).

(* one tuple of 24 bytes whose varlena header word is 0xFFFFFFFF *)
Definition all_ones : mem :=
  poke32 8008 0xFFFFFFFF
    (one_item 8000 PG.LP_NORMAL 24 (Z.lor PG.INDEX_VAR_MASK 24)).

(* one tuple of 16 bytes with a null bitmap all of whose bits are clear:
   every attribute is NULL *)
Definition all_null : mem :=
  one_item 8000 PG.LP_NORMAL 16 (Z.lor PG.INDEX_NULL_MASK 16).

(* one tuple of 16 bytes whose data holds a string of 3 bytes and its
   zero byte at 8011 *)
Definition terminated : mem :=
  fill 8008 3 65 (one_item 8000 PG.LP_NORMAL 16 (Z.lor PG.INDEX_VAR_MASK 16)).

(* one tuple of 24 bytes: the header and 16 bytes of data *)
Definition two_columns : mem := one_item 8000 PG.LP_NORMAL 24 24.

(* one LP_NORMAL item of 4 bytes, less than the tuple header, with 8 bytes
   that are not zero from 8008 on and a zero byte at 8016 *)
Definition short_item : mem :=
  fill 8008 8 65 (one_item 8000 PG.LP_NORMAL 4 (Z.lor PG.INDEX_VAR_MASK 16)).

(* one LP_NORMAL item of 16 bytes whose t_info gives the tuple a size of 4
   bytes, less than the tuple header alone *)
Definition short_size : mem := one_item 8000 PG.LP_NORMAL 16 4.

(* one LP_NORMAL item whose line pointer leads 11808 bytes past the end of
   the page *)
Definition stray : mem := one_item 20000 PG.LP_NORMAL 16 0.

End Page.

(** ** The trace monad *)

Section Monad_facts.

Context {A B : Type}.

Lemma value_bind (m : M A) (f : A -> M B) :
  value (bind m f) = value (f (value m)).
Proof.
  unfold value, bind. destruct m as [a t1]. simpl.
  destruct (f a) as [b t2]. reflexivity.
Qed.

Lemma trace_bind (m : M A) (f : A -> M B) :
  trace (bind m f) = trace m ++ trace (f (value m)).
Proof.
  unfold value, trace, bind. destruct m as [a t1]. simpl.
  destruct (f a) as [b t2]. reflexivity.
Qed.

Lemma value_ret (a : A) : value (ret a) = a.
Proof. reflexivity. Qed.

Lemma trace_ret (a : A) : trace (ret a) = [].
Proof. reflexivity. Qed.

End Monad_facts.

Lemma M_eq {A} (m1 m2 : M A) :
  value m1 = value m2 -> trace m1 = trace m2 -> m1 = m2.
Proof.
  destruct m1, m2. unfold value, trace. simpl. intros -> ->. reflexivity.
Qed.

Ltac run :=
  repeat (rewrite ?value_bind, ?trace_bind, ?value_ret, ?trace_ret; cbv beta).

(** ** Counting *)

Lemma count_warnings_app p t1 t2 :
  count_warnings p (t1 ++ t2) = count_warnings p t1 + count_warnings p t2.
Proof.
  unfold count_warnings. rewrite filter_app, length_app. lia.
Qed.

Lemma count_warnings_nonneg p t : 0 <= count_warnings p t.
Proof. unfold count_warnings. lia. Qed.

Lemma count_warnings_only_loads p t :
  only_loads t = true -> count_warnings p t = 0.
Proof.
  unfold only_loads, count_warnings. induction t as [|e t IH]; simpl.
  - reflexivity.
  - destruct e; simpl; try discriminate. exact IH.
Qed.

Lemma uint32_add_uint32_l x k : C.uint32 (C.uint32 x + k) = C.uint32 (x + k).
Proof. unfold C.uint32. apply Zplus_mod_idemp_l. Qed.

Lemma uint32_small x : 0 <= x < 2 ^ 32 -> C.uint32 x = x.
Proof. unfold C.uint32. apply Z.mod_small. Qed.

Lemma uint32_range x : 0 <= C.uint32 x < 2 ^ 32.
Proof. unfold C.uint32. apply Z.mod_pos_bound. lia. Qed.

Lemma uint32_le x : 0 <= x -> C.uint32 x <= x.
Proof. unfold C.uint32. intros. apply Z.mod_le; lia. Qed.

Ltac norm32 :=
  repeat (rewrite uint32_add_uint32_l || rewrite <- Z.add_assoc);
  try (f_equal; lia).

(** ** check_index_page *)

Section Page_checks.

Context {build : Build}.
Variable check_page_header : mem -> Z -> Z * list (elevel * string).

Lemma call_check_page_header_value header block :
  value (call_check_page_header check_page_header header block)
  = fst (check_page_header header block).
Proof.
  unfold call_check_page_header.
  destruct (check_page_header header block); reflexivity.
Qed.

(* the reports of common.c are none of the reports of index.c *)
Lemma call_check_page_header_count p header block :
  (forall s, p (MsgCommon s) = false) ->
  count_warnings p
    (trace (call_check_page_header check_page_header header block)) = 0.
Proof.
  intros Hp. unfold call_check_page_header.
  destruct (check_page_header header block) as [n reports].
  unfold trace; simpl. induction reports as [|[lvl s] rest IH].
  - reflexivity.
  - unfold count_warnings in *. simpl.
    destruct lvl; simpl; auto. rewrite Hp. exact IH.
Qed.

Lemma call_check_page_header_loads header block r size :
  loads_within r size
    (trace (call_check_page_header check_page_header header block)) = true.
Proof.
  unfold call_check_page_header.
  destruct (check_page_header header block) as [n reports].
  unfold trace; simpl. induction reports as [|[lvl s] rest IH]; auto.
Qed.

(* the meta-page branch, lines 32-58 *)
Lemma check_index_page_meta (header buffer : mem) :
  let page := check_index_page check_page_header header buffer
                               PG.BTREE_METAPAGE in
  let magic := value (PG.btm_magic Buffer buffer PG.BTPageGetMeta) in
  let version := value (PG.btm_version Buffer buffer PG.BTPageGetMeta) in
  let bad_magic := if magic =? BTREE_MAGIC then 0 else 1 in
  let bad_version := if version =? BTREE_VERSION then 0 else 1 in
  forall p,
    (forall s, p (MsgCommon s) = false) ->
    count_warnings p (trace page)
    = (if p (MsgInvalidMagic PG.BTREE_METAPAGE (C.int magic) BTREE_MAGIC)
       then bad_magic else 0)
      + (if p (MsgInvalidVersion PG.BTREE_METAPAGE (C.int version)
                                 BTREE_VERSION)
         then bad_version else 0).
Proof.
  cbv zeta. intros p Hp. unfold check_index_page.
  replace (PG.BTREE_METAPAGE =? PG.BTREE_METAPAGE) with true by reflexivity.
  run. rewrite !count_warnings_app.
  rewrite call_check_page_header_count by assumption.
  set (magic := value (PG.btm_magic Buffer buffer PG.BTPageGetMeta)).
  set (version := value (PG.btm_version Buffer buffer PG.BTPageGetMeta)).
  destruct (magic =? BTREE_MAGIC); destruct (version =? BTREE_VERSION);
    simpl negb; cbv iota; run;
    cbn [trace snd PG.btm_magic PG.btm_version load32 ereport app];
    unfold count_warnings; cbn [filter is_warning];
    repeat match goal with |- context [if ?b then _ else _] => destruct b end;
    reflexivity.
Qed.

(** C8.  On the meta page (block 0) the magic number and the version are
    checked one after the other, neither check depending on the other: an
    invalid magic number is reported once if and only if the magic number
    differs from BTREE_MAGIC, an invalid version once if and only if the
    version differs from BTREE_VERSION, so there are 0 meta errors when
    both match, 1 when exactly one differs and 2 when both do; the count
    returned is the count of check_page_header plus these. *)
Theorem check_index_page_meta_errors (header buffer : mem) :
  let page := check_index_page check_page_header header buffer
                               PG.BTREE_METAPAGE in
  let magic := value (PG.btm_magic Buffer buffer PG.BTPageGetMeta) in
  let version := value (PG.btm_version Buffer buffer PG.BTPageGetMeta) in
  let bad_magic := if magic =? BTREE_MAGIC then 0 else 1 in
  let bad_version := if version =? BTREE_VERSION then 0 else 1 in
  count_warnings is_invalid_magic (trace page) = bad_magic
  /\ count_warnings is_invalid_version (trace page) = bad_version
  /\ count_warnings is_meta_error (trace page) = bad_magic + bad_version
  /\ count_warnings is_index_message (trace page) = bad_magic + bad_version
  /\ value page
     = C.uint32 (fst (check_page_header header PG.BTREE_METAPAGE)
                 + (bad_magic + bad_version)).
Proof.
  cbv zeta.
  repeat split;
    try (rewrite check_index_page_meta by reflexivity; cbv beta iota; 
         cbn [is_invalid_magic is_invalid_version is_meta_error 
              is_index_message orb]; lia).
  unfold check_index_page.
  replace (PG.BTREE_METAPAGE =? PG.BTREE_METAPAGE) with true by reflexivity.
  run. rewrite call_check_page_header_value.
  destruct (value (PG.btm_magic Buffer buffer PG.BTPageGetMeta)
            =? BTREE_MAGIC);
    destruct (value (PG.btm_version Buffer buffer PG.BTPageGetMeta)
              =? BTREE_VERSION);
    simpl negb; cbv iota; run; norm32.
Qed.

(* the branch of regular pages, lines 59-102: the reports in terms of the
   fields read *)
Lemma check_index_page_regular (header buffer : mem) (block : Z) :
  block <> PG.BTREE_METAPAGE ->
  let page := check_index_page check_page_header header buffer block in
  let special := value (PG.pd_special Header header) in
  let deleted := value (PG.P_ISDELETED Buffer buffer special) in
  let leaf := value (PG.P_ISLEAF Buffer buffer special) in
  let level := value (PG.btpo_level Buffer buffer special) in
  let no_space :=
    if special >? C.size_t (BLCKSZ - sizeof_BTPageOpaque) then 1 else 0 in
  let bad_level :=
    if deleted then 0
    else if leaf then (if level =? 0 then 0 else 1)
         else (if level =? 0 then 1 else 0) in
  count_warnings is_special_space_error (trace page) = no_space
  /\ count_warnings is_level_error (trace page) = bad_level
  /\ value page
     = C.uint32 (fst (check_page_header header block)
                 + (no_space + bad_level)).
Proof.
  intros Hblock. cbv zeta. unfold check_index_page.
  apply Z.eqb_neq in Hblock. rewrite Hblock.
  run. rewrite !count_warnings_app.
  rewrite !call_check_page_header_count by reflexivity.
  rewrite call_check_page_header_value.
  set (special := value (PG.pd_special Header header)).
  destruct (special >? C.size_t (BLCKSZ - sizeof_BTPageOpaque));
    run;
    destruct (value (PG.P_ISDELETED Buffer buffer special));
    simpl negb; cbv iota; run;
    try (destruct (value (PG.P_ISLEAF Buffer buffer special));
         destruct (value (PG.btpo_level Buffer buffer special) =? 0);
         simpl negb; cbv iota; run);
    (split; [reflexivity | split; [reflexivity | norm32]]).
Qed.

(** C7.  On a regular page (block other than 0) that is not marked deleted,
    check_index_page reports exactly one level error when the page is a
    leaf and its level is not zero, and exactly one when the page is not a
    leaf and its level is zero, and in both cases the error is counted: the
    function returns one more than the count of check_page_header and of
    the special-space check before it.  On a page marked deleted it reports
    no level error, whatever the level field holds, and a regular page
    marked deleted returns the count as it stood before the level check. *)
Theorem check_index_page_level_errors (header buffer : mem) (block : Z) :
  let page := check_index_page check_page_header header buffer block in
  let special := value (PG.pd_special Header header) in
  let deleted := value (PG.P_ISDELETED Buffer buffer special) in
  let leaf := value (PG.P_ISLEAF Buffer buffer special) in
  let level := value (PG.btpo_level Buffer buffer special) in
  let no_space :=
    if special >? C.size_t (BLCKSZ - sizeof_BTPageOpaque) then 1 else 0 in
  let before := fst (check_page_header header block) + no_space in
  (block <> PG.BTREE_METAPAGE -> deleted = false ->
   leaf = true -> level <> 0 ->
   count_warnings is_level_error (trace page) = 1
   /\ value page = C.uint32 (before + 1))
  /\ (block <> PG.BTREE_METAPAGE -> deleted = false ->
      leaf = false -> level = 0 ->
      count_warnings is_level_error (trace page) = 1
      /\ value page = C.uint32 (before + 1))
  /\ (deleted = true -> count_warnings is_level_error (trace page) = 0)
  /\ (block <> PG.BTREE_METAPAGE -> deleted = true ->
      value page = C.uint32 before).
Proof.
  cbv zeta. split; [|split; [|split]].
  - intros Hblock Hdel Hleaf Hlevel.
    destruct (check_index_page_regular header buffer block Hblock)
      as (_ & Hcount & Hvalue).
    rewrite Hcount, Hvalue, Hdel, Hleaf.
    apply Z.eqb_neq in Hlevel. rewrite Hlevel. cbv iota.
    split; [reflexivity | f_equal; lia].
  - intros Hblock Hdel Hleaf Hlevel.
    destruct (check_index_page_regular header buffer block Hblock)
      as (_ & Hcount & Hvalue).
    rewrite Hcount, Hvalue, Hdel, Hleaf, Hlevel.
    change (0 =? 0) with true. cbv iota.
    split; [reflexivity | f_equal; lia].
  - intros Hdel. destruct (Z.eq_dec block PG.BTREE_METAPAGE) as [->|Hblock].
    + rewrite check_index_page_meta by reflexivity. reflexivity.
    + rewrite (proj1 (proj2 (check_index_page_regular header buffer block
                               Hblock))).
      rewrite Hdel. reflexivity.
  - intros Hblock Hdel.
    rewrite (proj2 (proj2 (check_index_page_regular header buffer block
                             Hblock))).
    rewrite Hdel. cbv iota. f_equal; lia.
Qed.

(* the threshold of line 64 is BLCKSZ - sizeof(BTPageOpaque), whatever the
   size of the trailer is *)
Lemma check_index_page_special_space (header buffer : mem) (block : Z) :
  block <> PG.BTREE_METAPAGE ->
  0 <= sizeof_BTPageOpaque <= BLCKSZ ->
  BLCKSZ < 2 ^ 64 ->
  let page := check_index_page check_page_header header buffer block in
  let special := value (PG.pd_special Header header) in
  count_warnings is_special_space_error (trace page)
  = if special >? BLCKSZ - sizeof_BTPageOpaque then 1 else 0.
Proof.
  intros Hblock Hsize Hblcksz. cbv zeta.
  rewrite (proj1 (check_index_page_regular header buffer block Hblock)).
  unfold C.size_t, C.uint64. rewrite Z.mod_small by lia. reflexivity.
Qed.

End Page_checks.

Lemma check_index_page_level_errors_witness :
  (count_warnings is_level_error
     (trace (check_index_page (build := pg_x86_64) Page.header_ok
               (Page.leaf 8176 3) (Page.leaf 8176 3) 1)) = 1
   /\ value (check_index_page (build := pg_x86_64) Page.header_ok
               (Page.leaf 8176 3) (Page.leaf 8176 3) 1) = 1)
  /\ (count_warnings is_level_error
        (trace (check_index_page (build := pg_x86_64) Page.header_ok
                  (Page.inner 8190 0) (Page.inner 8190 0) 1)) = 1
      /\ value (check_index_page (build := pg_x86_64) Page.header_ok
                  (Page.inner 8190 0) (Page.inner 8190 0) 1) = 2)
  /\ count_warnings is_level_error
       (trace (check_index_page (build := pg_x86_64) Page.header_ok
                 (Page.deleted 8176 731) (Page.deleted 8176 731) 1)) = 0
  /\ value (check_index_page (build := pg_x86_64) Page.header_ok
              (Page.deleted 8176 731) (Page.deleted 8176 731) 1) = 0.
Proof.
  split; [|split; [|split]].
  - apply (proj1 (check_index_page_level_errors (build := pg_x86_64)
                    Page.header_ok (Page.leaf 8176 3) (Page.leaf 8176 3) 1));
      vm_compute; first [reflexivity | discriminate].
  - apply (proj1 (proj2 (check_index_page_level_errors (build := pg_x86_64)
             Page.header_ok (Page.inner 8190 0) (Page.inner 8190 0) 1)));
      vm_compute; first [reflexivity | discriminate].
  - apply (proj1 (proj2 (proj2 (check_index_page_level_errors
             (build := pg_x86_64) Page.header_ok (Page.deleted 8176 731)
             (Page.deleted 8176 731) 1)))).
    vm_compute. reflexivity.
  - apply (proj2 (proj2 (proj2 (check_index_page_level_errors
             (build := pg_x86_64) Page.header_ok (Page.deleted 8176 731)
             (Page.deleted 8176 731) 1))));
      vm_compute; first [reflexivity | discriminate].
Defined.

(** C9.  The test of line 64 compares pd_special with BLCKSZ minus the size
    of BTPageOpaque, which is the pointer type (line 26 initialises a
    variable of that type with NULL, lines 83 and 93 dereference it), not
    with the size of the trailer BTPageOpaqueData it points to, which the
    comment of line 63 and the message are about.  On a 64-bit build with
    pages of 8192 bytes, a regular page whose pd_special is 8180 leaves 12
    bytes, less than the 16 bytes of the trailer and the 24 of the
    scenario; check_index_page reports nothing, returns 0 and reads the
    flags of the trailer at offset 8192, behind the page. *)
Theorem special_space_measured_with_pointer_size :
  let page := check_index_page (build := pg_x86_64) Page.header_ok
                (Page.leaf 8180 0) (Page.leaf 8180 0) 1 in
  let special := value (PG.pd_special Header (Page.leaf 8180 0)) in
  special = 8180
  /\ special > BLCKSZ (Build := pg_x86_64) - PG.sizeof_BTPageOpaqueData
  /\ special > BLCKSZ (Build := pg_x86_64) - 24
  /\ sizeof_BTPageOpaque (Build := pg_x86_64) = 8
  /\ count_warnings any_message (trace page) = 0
  /\ value page = 0
  /\ In (Load Buffer 8192 2) (trace page).
Proof.
  cbv zeta. repeat split; try (vm_compute; reflexivity).
  vm_compute. tauto.
Qed.

(** ** Which reports a function can make *)

Lemma warnings_in_app q t1 t2 :
  warnings_in q (t1 ++ t2) = warnings_in q t1 && warnings_in q t2.
Proof. apply forallb_app. Qed.

Lemma warnings_in_bind {A B} q (m : M A) (f : A -> M B) :
  warnings_in q (trace m) = true ->
  (forall a, warnings_in q (trace (f a)) = true) ->
  warnings_in q (trace (bind m f)) = true.
Proof.
  intros Hm Hf. rewrite trace_bind, warnings_in_app, Hm, Hf. reflexivity.
Qed.

Lemma warnings_in_only_loads q t :
  only_loads t = true -> warnings_in q t = true.
Proof.
  unfold only_loads, warnings_in. induction t as [|e t IH]; simpl; auto.
  destruct e; simpl; try discriminate. exact IH.
Qed.

Lemma count_warnings_outside p q t :
  warnings_in q t = true ->
  (forall m, q m = true -> p m = false) ->
  count_warnings p t = 0.
Proof.
  intros Hq Hpq. unfold count_warnings.
  replace (filter (is_warning p) t) with (@nil event); [reflexivity|].
  induction t as [|e t IH]; [reflexivity|].
  simpl in Hq. apply andb_prop in Hq as [He Ht]. simpl.
  rewrite <- (IH Ht).
  destruct e as [r a n|lvl m]; [reflexivity|].
  destruct lvl; try reflexivity. simpl in He |- *.
  rewrite (Hpq m He). reflexivity.
Qed.

(* takes a goal [warnings_in q (trace m) = true] apart along the structure
   of [m] *)
Ltac warnings_in_step :=
  match goal with
  | |- warnings_in _ (trace (bind _ _)) = true =>
      apply warnings_in_bind; [|intros]
  | |- warnings_in _ (trace (ret _)) = true => reflexivity
  | |- warnings_in _ (trace (ereport _ _)) = true => reflexivity
  | |- warnings_in _ (trace (VARSIZE_ANY _ _)) = true =>
      apply warnings_in_only_loads, VARSIZE_ANY_reads
  | |- warnings_in _ (trace (VARATT_IS_COMPRESSED _ _)) = true =>
      apply warnings_in_only_loads, VARATT_IS_COMPRESSED_reads
  | |- warnings_in _ (trace (VARRAWSIZE_4B_C _ _)) = true =>
      apply warnings_in_only_loads, VARRAWSIZE_4B_C_reads
  | |- warnings_in _ (trace (if ?c then _ else _)) = true => destruct c
  | |- warnings_in _ (trace (match ?x with inl _ => _ | inr _ => _ end))
       = true => destruct x
  | |- warnings_in _ (trace (match ?x with Next _ _ => _ | Break _ _ => _ end))
       = true => destruct x
  | |- warnings_in _ (trace (let (_, _) := ?x in _)) = true => destruct x
  | |- warnings_in _ (trace (match ?x with (_, _) => _ end)) = true =>
      destruct x
  end.

Section Tuple_reports.

Context {build : Build}.
Variable len_indeterminate : Z -> Z -> Z.

Lemma attribute_length_reports block offnum buffer linp j attr off nerrs :
  warnings_in is_attribute_message
    (trace (attribute_length len_indeterminate block offnum buffer linp j
                             attr off nerrs)) = true.
Proof.
  unfold attribute_length, strnlen.
  repeat warnings_in_step; reflexivity.
Qed.

Lemma attribute_body_reports block offnum buffer dlen linp tuple bitmap
    j attr off nerrs :
  warnings_in is_attribute_message
    (trace (attribute_body len_indeterminate block offnum buffer dlen linp
                           tuple bitmap j attr off nerrs)) = true.
Proof.
  unfold attribute_body, PG.IndexTupleHasNulls, PG.att_isnull,
    PG.att_align_pointer, PG.VARATT_NOT_PAD_BYTE, PG.t_info.
  repeat (warnings_in_step || apply attribute_length_reports); reflexivity.
Qed.

Lemma attributes_loop_reports block offnum buffer dlen linp tuple bitmap
    attrs : forall j off nerrs,
  warnings_in is_attribute_message
    (trace (attributes_loop len_indeterminate block offnum buffer dlen linp
                            tuple bitmap attrs j off nerrs)) = true.
Proof.
  induction attrs as [|attr rest IH]; intros j off nerrs; simpl.
  - reflexivity.
  - apply warnings_in_bind; [apply attribute_body_reports|].
    intros [off' nerrs'|off' nerrs']; [apply IH | reflexivity].
Qed.

Lemma check_index_tuple_attributes_reports rel header block offnum buffer
    dlen :
  warnings_in is_attribute_message
    (trace (check_index_tuple_attributes len_indeterminate rel header block
                                         offnum buffer dlen)) = true.
Proof.
  unfold check_index_tuple_attributes, PG.pd_linp, PG.pd_special, PG.t_info,
    PG.P_ISLEAF, PG.P_FIRSTDATAKEY, PG.P_RIGHTMOST, PG.btpo_flags,
    PG.btpo_next.
  repeat (warnings_in_step || apply attributes_loop_reports); reflexivity.
Qed.

End Tuple_reports.

(** ** check_index_tuple: the intersection loop *)

Section Intersections.

Context {build : Build}.
Variable len_indeterminate : Z -> Z -> Z.

Lemma hits_O header a b j : hits header a b j O = 0.
Proof. reflexivity. Qed.

Lemma hits_S header a b j count :
  hits header a b j (S count)
  = (if normal_and_intersects header a b j then 1 else 0)
    + hits header a b (j + 1) count.
Proof.
  unfold hits. cbn [slots filter].
  destruct (normal_and_intersects header a b j); cbn [List.length]; lia.
Qed.

Lemma hits_bounds header a b count : forall j,
  0 <= hits header a b j count <= Z.of_nat count.
Proof.
  induction count as [|count IH]; intros j.
  - rewrite hits_O. lia.
  - rewrite hits_S. specialize (IH (j + 1)).
    destruct (normal_and_intersects header a b j); lia.
Qed.

Lemma intersection_loop_value header block i a b count : forall j nerrs,
  0 <= nerrs < 2 ^ 32 ->
  value (intersection_loop header block i a b count j nerrs)
  = C.uint32 (nerrs + hits header a b j count).
Proof.
  induction count as [|count IH]; intros j nerrs Hn.
  - simpl. rewrite hits_O, Z.add_0_r, uint32_small by assumption.
    reflexivity.
  - rewrite hits_S. cbn [intersection_loop]. run.
    unfold normal_and_intersects, intersects, ItemId.
    set (lp2 := value (PG.pd_linp Header header j)).
    destruct (PG.lp_flags lp2 =? PG.LP_NORMAL); cbn [negb andb]; run.
    + match goal with
      | |- context [if ?c then _ else _] => destruct c
      end; run; rewrite IH by (try apply uint32_range; assumption);
        norm32.
    + rewrite IH by assumption. reflexivity.
Qed.

Lemma intersection_loop_count header block i a b p count : forall j nerrs,
  (forall item other a b c d,
     p (MsgIntersects block item other a b c d) = true) ->
  count_warnings p (trace (intersection_loop header block i a b count j nerrs))
  = hits header a b j count.
Proof.
  intros j nerrs Hp. revert j nerrs.
  induction count as [|count IH]; intros j nerrs.
  - reflexivity.
  - rewrite hits_S. cbn [intersection_loop]. run.
    rewrite !count_warnings_app.
    unfold normal_and_intersects, intersects, ItemId.
    set (lp2 := value (PG.pd_linp Header header j)).
    destruct (PG.lp_flags lp2 =? PG.LP_NORMAL); cbn [negb andb]; run;
      rewrite ?count_warnings_app.
    + match goal with
      | |- context [if ?c then _ else _] => destruct c
      end; run; rewrite ?count_warnings_app, IH;
        unfold count_warnings;
        cbn [trace snd PG.pd_linp load32 bind ret ereport app filter
             is_warning List.length];
        rewrite ?Hp; reflexivity.
    + rewrite IH. reflexivity.
Qed.

Lemma intersection_loop_reports header block i a b count : forall j nerrs,
  warnings_in is_intersection_error
    (trace (intersection_loop header block i a b count j nerrs)) = true.
Proof.
  induction count as [|count IH]; intros j nerrs; cbn [intersection_loop].
  - reflexivity.
  - unfold PG.pd_linp, load32.
    repeat (warnings_in_step || apply IH); reflexivity.
Qed.

(** C10.  check_index_tuple compares the range of slot i with every earlier
    LP_NORMAL slot whatever the flag of slot i itself is: the intersection
    errors it reports are as many as there are earlier LP_NORMAL slots
    whose range passes the four-way test, each adds one to the count
    returned, and only the attribute checks depend on slot i being
    LP_NORMAL. *)
Theorem check_index_tuple_intersections (rel : Relation) (header : mem)
    (block i : Z) (buffer : mem) :
  let lp := ItemId header i in
  let dlen := value (tuple_dlen buffer (PG.lp_off lp)) in
  let tuple := check_index_tuple len_indeterminate rel header block i buffer in
  let attributes :=
    check_index_tuple_attributes len_indeterminate rel header block
                                 (C.uint16 (i + 1)) buffer dlen in
  count_warnings is_intersection_error (trace tuple)
  = intersections_before header i
  /\ value tuple
     = C.uint32 (intersections_before header i
                 + (if PG.lp_flags lp =? PG.LP_NORMAL then value attributes
                    else 0))
  /\ count_warnings is_attribute_message (trace tuple)
     = (if PG.lp_flags lp =? PG.LP_NORMAL
        then count_warnings is_attribute_message (trace attributes) else 0)
  /\ (i < 2 ^ 32 -> PG.lp_flags lp <> PG.LP_NORMAL ->
      value tuple = intersections_before header i).
Proof.
  cbv zeta. unfold check_index_tuple, intersections_before.
  set (a := PG.lp_off (ItemId header i)).
  set (b := a + PG.lp_len (ItemId header i)).
  assert (Hhits := hits_bounds header a b (Z.to_nat i) 0).
  run. fold (ItemId header i). fold a. fold b.
  rewrite !count_warnings_app.
  rewrite intersection_loop_value by lia.
  rewrite (intersection_loop_count header block i a b is_intersection_error)
    by reflexivity.
  rewrite (count_warnings_outside is_attribute_message is_intersection_error
             (trace (intersection_loop _ _ _ _ _ _ _ _)))
    by (apply intersection_loop_reports || (intros [] ?; easy)).
  destruct (PG.lp_flags (ItemId header i) =? PG.LP_NORMAL) eqn:Hflag; run;
    rewrite ?count_warnings_app.
  - rewrite (count_warnings_outside is_intersection_error
               is_attribute_message
               (trace (check_index_tuple_attributes _ _ _ _ _ _ _)))
      by (apply check_index_tuple_attributes_reports || (intros [] ?; easy)).
    repeat split; try (cbn; lia).
    + norm32.
    + intros _ Hne. apply Z.eqb_eq in Hflag. contradiction.
  - repeat split; try (cbn; lia).
    + norm32.
    + intros Hi _. rewrite Z.add_0_l. apply uint32_small. lia.
Qed.

End Intersections.

(** ** The four-way test against the byte ranges *)

Lemma intersects_iff a b c d :
  intersects a b c d = true
  <-> (a < c < b) \/ (a < d < b) \/ (c < a < d) \/ (c < b < d).
Proof.
  unfold intersects.
  rewrite !orb_true_iff, !andb_true_iff, !Z.ltb_lt. tauto.
Qed.

(* on ranges that are not empty the test finds every common byte except
   when the two ranges are the same *)
Lemma intersects_share_a_byte a b c d :
  a < b -> c < d ->
  (intersects a b c d = true
   <-> share_a_byte a b c d /\ ~ (a = c /\ b = d)).
Proof.
  intros Hab Hcd. rewrite intersects_iff. unfold share_a_byte. split.
  - intros H. split; [|lia].
    destruct (Z_lt_le_dec a c); [exists c | exists a]; lia.
  - intros [[x Hx] Hne]. lia.
Qed.

Lemma intersects_same_range a b : intersects a b a b = false.
Proof.
  unfold intersects. rewrite !Z.ltb_irrefl, !andb_false_r, !andb_false_l.
  reflexivity.
Qed.

Lemma intersects_disjoint a b c d :
  a < b -> c < d -> ~ share_a_byte a b c d -> intersects a b c d = false.
Proof.
  intros Hab Hcd Hno. destruct (intersects a b c d) eqn:E; [|reflexivity].
  apply (intersects_share_a_byte a b c d Hab Hcd) in E. tauto.
Qed.

(** C2.  Two LP_NORMAL line pointers with the same offset and length
    (bytes 8000 to 8023 both) have all their bytes in common, and the check
    of the second against the first reports no intersection: none of the
    four strict comparisons holds between equal end points, and the whole
    page comes out with zero errors. *)
Theorem check_index_tuple_same_range_unreported :
  let lp0 := ItemId Page.twins 0 in
  let lp1 := ItemId Page.twins 1 in
  (PG.lp_flags lp0 = PG.LP_NORMAL /\ PG.lp_flags lp1 = PG.LP_NORMAL)
  /\ share_a_byte (PG.lp_off lp1) (PG.lp_off lp1 + PG.lp_len lp1)
                  (PG.lp_off lp0) (PG.lp_off lp0 + PG.lp_len lp0)
  /\ count_warnings is_intersection_error
       (trace (check_index_tuple (build := pg_x86_64) (Page.len_holds 0)
                 [Page.int4] Page.twins 1 1 Page.twins)) = 0
  /\ value (check_index_tuples (build := pg_x86_64) (Page.len_holds 0)
              [Page.int4] Page.twins Page.twins 1) = 0.
Proof.
  cbv zeta. split; [|split; [|split]].
  - vm_compute. auto.
  - exists 8000. vm_compute. intuition discriminate.
  - vm_compute. reflexivity.
  - vm_compute. reflexivity.
Qed.

(** C3.  A compressed varlena of 16 bytes that fits its tuple and whose raw
    size is 2 MiB, inside (0, 1 GiB], is reported as having an invalid raw
    length: line 302 compares with 1024*1024.  The same value with a raw
    size of 0, outside (0, 1 GiB], is not reported: line 301 tests for less
    than zero. *)
Theorem raw_size_compared_with_one_megabyte :
  0 < 2097152 <= 2 ^ 30
  /\ trace (attribute_length (build := pg_x86_64) (Page.len_holds 0) 1 1
              (Page.compressed 2097152) (ItemId (Page.compressed 2097152) 0)
              0 Page.text 8008 0)
     = [Load Buffer 8008 1; Load Buffer 8008 1; Load Buffer 8008 4;
        Load Buffer 8008 1; Load Buffer 8012 4;
        Ereport WARNING (MsgInvalidRawLength 1 1 "body" 2097152)]
  /\ value (check_index_tuples (build := pg_x86_64) (Page.len_holds 0)
              [Page.text] (Page.compressed 2097152) (Page.compressed 2097152)
              1) = 1
  /\ count_warnings any_message
       (trace (check_index_tuples (build := pg_x86_64) (Page.len_holds 0)
                 [Page.text] (Page.compressed 0) (Page.compressed 0) 1)) = 0.
Proof.
  split; [lia|]. split; [|split]; vm_compute; reflexivity.
Qed.

(** C4.  A C-string attribute at 8008 in a tuple that ends at 8016, with no
    zero byte before 8020: 8 bytes remain.  With 100 in the uninitialised
    len the scan of line 319 is bounded by 108 bytes, reads the 13 bytes
    up to 8020 and yields the length 13; only with 0 there does it stop at
    the end of the tuple and yield 8 + 1. *)
Theorem strnlen_bound_uses_uninitialised_len :
  let linp := ItemId Page.unterminated 0 in
  PG.lp_off linp + PG.lp_len linp = 8016
  /\ attribute_length (build := pg_x86_64) (Page.len_holds 100) 1 1
       Page.unterminated linp 0 Page.cstring 8008 0
     = (inl (13, 0), [Load Buffer 8008 13])
  /\ attribute_length (build := pg_x86_64) (Page.len_holds 0) 1 1
       Page.unterminated linp 0 Page.cstring 8008 0
     = (inl (9, 0), [Load Buffer 8008 8]).
Proof.
  cbv zeta. split; [|split]; vm_compute; reflexivity.
Qed.

(* with 0 in the uninitialised len and the attribute starting behind the
   end of its tuple (8008 against 8004), the bound is -4 as an int and
   2^64 - 4 as a size_t: the scan runs on to the first zero byte *)
Example strnlen_bound_wraps_as_size_t :
  let linp := ItemId Page.short_item 0 in
  PG.lp_off linp + PG.lp_len linp = 8004
  /\ attribute_length (build := pg_x86_64) (Page.len_holds 0) 1 1
       Page.short_item linp 0 Page.cstring 8008 0
     = (inl (9, 0), [Load Buffer 8008 9]).
Proof.
  cbv zeta. split; lazy; reflexivity.
Qed.

(** ** check_index_tuple_attributes and dlen *)

Lemma bind_ext {A B} (m : M A) (f g : A -> M B) :
  (forall a, f a = g a) -> bind m f = bind m g.
Proof. intros H. unfold bind. destruct m as [a t]. rewrite H. reflexivity. Qed.

Section Dlen.

Context {build : Build}.
Variable len_indeterminate : Z -> Z -> Z.

(* the body of the attribute loop looks at dlen through [dlen > 0] only *)
Lemma attribute_body_dlen block offnum buffer dlen1 dlen2 linp tuple bitmap
    j attr off nerrs :
  (dlen1 >? 0) = (dlen2 >? 0) ->
  attribute_body len_indeterminate block offnum buffer dlen1 linp tuple
                 bitmap j attr off nerrs
  = attribute_body len_indeterminate block offnum buffer dlen2 linp tuple
                   bitmap j attr off nerrs.
Proof.
  intros H. unfold attribute_body.
  apply bind_ext; intros hasnulls. apply bind_ext; intros isnull.
  destruct isnull; [reflexivity|].
  apply bind_ext; intros aligned. apply bind_ext; intros [[len n]|n];
    [rewrite H|]; reflexivity.
Qed.

Lemma attributes_loop_dlen block offnum buffer dlen1 dlen2 linp tuple bitmap
    attrs :
  (dlen1 >? 0) = (dlen2 >? 0) ->
  forall j off nerrs,
    attributes_loop len_indeterminate block offnum buffer dlen1 linp tuple
                    bitmap attrs j off nerrs
    = attributes_loop len_indeterminate block offnum buffer dlen2 linp tuple
                      bitmap attrs j off nerrs.
Proof.
  intros H. induction attrs as [|attr rest IH]; intros j off nerrs.
  - reflexivity.
  - cbn [attributes_loop].
    rewrite (attribute_body_dlen _ _ _ dlen1 dlen2) by assumption.
    apply bind_ext; intros [off' nerrs'|off' nerrs'];
      [apply IH | reflexivity].
Qed.

Lemma attribute_body_no_overflow_report block offnum buffer dlen linp tuple
    bitmap j attr off nerrs :
  dlen <= 0 ->
  warnings_in is_other_attribute_message
    (trace (attribute_body len_indeterminate block offnum buffer dlen linp
                           tuple bitmap j attr off nerrs)) = true.
Proof.
  intros Hdlen.
  assert (H : (dlen >? 0) = false) by (rewrite Z.gtb_ltb; apply Z.ltb_ge; lia).
  unfold attribute_body, attribute_length, strnlen, PG.IndexTupleHasNulls,
    PG.att_isnull, PG.att_align_pointer, PG.VARATT_NOT_PAD_BYTE, PG.t_info.
  rewrite H. cbn [andb].
  repeat warnings_in_step; reflexivity.
Qed.

Lemma attributes_loop_no_overflow_report block offnum buffer dlen linp tuple
    bitmap attrs :
  dlen <= 0 ->
  forall j off nerrs,
    warnings_in is_other_attribute_message
      (trace (attributes_loop len_indeterminate block offnum buffer dlen
                              linp tuple bitmap attrs j off nerrs)) = true.
Proof.
  intros Hdlen. induction attrs as [|attr rest IH]; intros j off nerrs;
    cbn [attributes_loop].
  - reflexivity.
  - apply warnings_in_bind;
      [apply attribute_body_no_overflow_report; assumption|].
    intros [off' nerrs'|off' nerrs']; [apply IH | reflexivity].
Qed.

End Dlen.

Lemma count_warnings_nil p : count_warnings p [] = 0.
Proof. reflexivity. Qed.

(* rewrites to 0 the error counts of the parts of a trace that report no
   error *)
Ltac quiet :=
  rewrite ?count_warnings_app, ?count_warnings_nil;
  repeat match goal with
  | |- context [count_warnings ?p (trace ?m)] =>
      replace (count_warnings p (trace m)) with 0
        by (symmetry;
            first [ reflexivity
                  | apply count_warnings_only_loads;
                    first [ reflexivity
                          | apply VARSIZE_ANY_reads
                          | apply VARATT_IS_COMPRESSED_reads
                          | apply VARRAWSIZE_4B_C_reads
                          | match goal with
                            | |- context [if ?c then _ else _] =>
                                destruct c; reflexivity
                            end ] ])
  end.

Lemma uint32_add_0 n : 0 <= n < 2 ^ 32 -> n = C.uint32 (n + 0).
Proof. intros. rewrite Z.add_0_r, uint32_small; auto. Qed.

(** ** The attribute loop: errors that end it *)

Section Attribute_errors.

Context {build : Build}.
Variable len_indeterminate : Z -> Z -> Z.

(* a pass that is not cut short by a NULL attribute *)
Lemma attribute_body_not_null block offnum buffer dlen linp tuple bitmap
    j attr off nerrs :
  attribute_is_null buffer tuple bitmap j = false ->
  let off' := aligned_offset buffer attr off in
  let measure :=
    attribute_length len_indeterminate block offnum buffer linp j attr off'
                     nerrs in
  let body :=
    attribute_body len_indeterminate block offnum buffer dlen linp tuple
                   bitmap j attr off nerrs in
  let tuple_end := PG.lp_off linp + PG.lp_len linp in
  value body
  = match value measure with
    | inr n => Break off' n
    | inl (len, n) =>
        if (dlen >? 0) && (C.int (off' + len) >? tuple_end)
        then Break off' (C.uint32 (n + 1))
        else Next (C.int (off' + (if dlen >? 0 then len else 0))) n
    end
  /\ forall p,
      count_warnings p (trace body)
      = count_warnings p (trace measure)
        + match value measure with
          | inr n => 0
          | inl (len, n) =>
              if (dlen >? 0) && (C.int (off' + len) >? tuple_end)
              then (if p (MsgOverflowsTupleEnd block offnum (PG.attname attr)
                            off' len (PG.lp_off linp) (PG.lp_len linp))
                    then 1 else 0)
              else 0
          end.
Proof.
  intros Hnull. cbv zeta. unfold attribute_body. run.
  assert (Hisnull :
    value (if value (PG.IndexTupleHasNulls Buffer buffer tuple)
           then PG.att_isnull Buffer buffer j bitmap else ret false)
    = false).
  { unfold attribute_is_null in Hnull.
    destruct (value (PG.IndexTupleHasNulls Buffer buffer tuple));
      [exact Hnull | reflexivity]. }
  rewrite Hisnull. run. fold (aligned_offset buffer attr off).
  set (off' := aligned_offset buffer attr off).
  set (measure := attribute_length _ _ _ _ _ _ _ _ _).
  split.
  - destruct (value measure) as [[len n]|n]; [|reflexivity].
    destruct ((dlen >? 0) && _); reflexivity.
  - intros p. rewrite !count_warnings_app.
    assert (H0 : forall t, only_loads t = true -> count_warnings p t = 0)
      by (intros; apply count_warnings_only_loads; assumption).
    rewrite (H0 (trace (PG.IndexTupleHasNulls _ _ _))) by reflexivity.
    match goal with
    | |- context [trace (if ?c then ?x else ?y)] =>
        rewrite (H0 (trace (if c then x else y)))
          by (destruct c; reflexivity)
    end.
    rewrite (H0 (trace (PG.att_align_pointer _ _ _ _ _ _)))
      by (unfold PG.att_align_pointer;
          destruct (PG.attlen attr =? -1); reflexivity).
    destruct (value measure) as [[len n]|n]; [|reflexivity].
    destruct ((dlen >? 0) && _); run; unfold count_warnings; simpl;
      [destruct (p _)|]; reflexivity.
Qed.

(* lines 287-296: a varlena whose decoded length is negative *)
Lemma attribute_length_negative block offnum buffer linp j attr off nerrs :
  PG.attbyval attr = false -> PG.attlen attr = -1 ->
  C.int (value (VARSIZE_ANY buffer off)) < 0 ->
  let measure :=
    attribute_length len_indeterminate block offnum buffer linp j attr off
                     nerrs in
  value measure = inr (C.uint32 (nerrs + 1))
  /\ forall p,
      count_warnings p (trace measure)
      = if p (MsgNegativeLength block offnum (PG.attname attr)
                (C.int (value (VARSIZE_ANY buffer off))))
        then 1 else 0.
Proof.
  intros Hbyval Hlen Hneg. cbv zeta. unfold attribute_length.
  rewrite Hbyval, Hlen. cbn [negb andb Z.eqb Pos.eqb]. run.
  apply Z.ltb_lt in Hneg. rewrite Hneg. run. split; [reflexivity|].
  intros p. rewrite !count_warnings_app.
  rewrite (count_warnings_only_loads p (trace (VARSIZE_ANY _ _)))
    by apply VARSIZE_ANY_reads.
  unfold count_warnings; simpl. destruct (p _); reflexivity.
Qed.

(* a [break] ends the loop: the attributes behind it are not looked at *)
Lemma attributes_loop_break block offnum buffer dlen linp tuple bitmap
    attr rest j off nerrs off' nerrs' :
  value (attribute_body len_indeterminate block offnum buffer dlen linp tuple
                        bitmap j attr off nerrs) = Break off' nerrs' ->
  attributes_loop len_indeterminate block offnum buffer dlen linp tuple
                  bitmap (attr :: rest) j off nerrs
  = attributes_loop len_indeterminate block offnum buffer dlen linp tuple
                    bitmap [attr] j off nerrs
  /\ value (attributes_loop len_indeterminate block offnum buffer dlen linp
                            tuple bitmap (attr :: rest) j off nerrs)
     = (off', nerrs')
  /\ trace (attributes_loop len_indeterminate block offnum buffer dlen linp
                            tuple bitmap (attr :: rest) j off nerrs)
     = trace (attribute_body len_indeterminate block offnum buffer dlen linp
                             tuple bitmap j attr off nerrs).
Proof.
  intros Hbreak. cbn [attributes_loop].
  split; [|split].
  - apply M_eq; run; rewrite Hbreak; reflexivity.
  - run. rewrite Hbreak. reflexivity.
  - run. rewrite Hbreak. run. apply app_nil_r.
Qed.

(** ** The count returned is the number of errors reported *)

Lemma attribute_length_count block offnum buffer linp j attr off nerrs :
  0 <= nerrs < 2 ^ 32 ->
  let measure :=
    attribute_length len_indeterminate block offnum buffer linp j attr off
                     nerrs in
  measured_nerrs (value measure) = C.uint32 (nerrs + W (trace measure))
  /\ 0 <= W (trace measure) <= 1.
Proof.
  intros Hn. cbv zeta. unfold attribute_length.
  assert (H0 : forall t, only_loads t = true -> W t = 0)
    by (intros; apply count_warnings_only_loads; assumption).
  destruct (negb (PG.attbyval attr) && (PG.attlen attr =? -1)).
  - run. rewrite !count_warnings_app.
    rewrite (H0 _ (VARSIZE_ANY_reads _ _)).
    destruct (C.int (value (VARSIZE_ANY buffer off)) <? 0); run.
    + split; [reflexivity | cbn; lia].
    + rewrite !count_warnings_app.
      rewrite (H0 _ (VARATT_IS_COMPRESSED_reads _ _)).
      destruct (value (VARATT_IS_COMPRESSED buffer off)); run;
        rewrite ?count_warnings_app, ?(H0 _ (VARRAWSIZE_4B_C_reads _ _)).
      * destruct ((value (VARRAWSIZE_4B_C buffer off) <? 0)
                  || (value (VARRAWSIZE_4B_C buffer off) >? 1024 * 1024));
          run; cbn [measured_nerrs];
          (split; [try reflexivity; apply uint32_add_0; assumption
                  | cbn; lia]).
      * cbn [measured_nerrs].
        split; [apply uint32_add_0; assumption | cbn; lia].
  - destruct (negb (PG.attbyval attr) && (PG.attlen attr <? 0)); run;
      cbn [measured_nerrs];
      (split; [apply uint32_add_0; assumption | cbn; lia]).
Qed.

Lemma attribute_body_count block offnum buffer dlen linp tuple bitmap
    j attr off nerrs :
  0 <= nerrs < 2 ^ 32 ->
  let body :=
    attribute_body len_indeterminate block offnum buffer dlen linp tuple
                   bitmap j attr off nerrs in
  flow_nerrs (value body) = C.uint32 (nerrs + W (trace body))
  /\ 0 <= W (trace body) <= 2.
Proof.
  intros Hn. cbv zeta.
  destruct (attribute_is_null buffer tuple bitmap j) eqn:Hnull.
  - unfold attribute_body. run.
    assert (Hisnull :
      value (if value (PG.IndexTupleHasNulls Buffer buffer tuple)
             then PG.att_isnull Buffer buffer j bitmap else ret false)
      = true).
    { unfold attribute_is_null in Hnull.
      destruct (value (PG.IndexTupleHasNulls Buffer buffer tuple));
        [exact Hnull | discriminate]. }
    rewrite Hisnull. run. rewrite !count_warnings_app.
    match goal with
    | |- context [trace (if ?c then ?x else ?y)] =>
        rewrite (count_warnings_only_loads any_message
                   (trace (if c then x else y)))
          by (destruct c; reflexivity)
    end.
    split; [apply uint32_add_0; assumption | cbn; lia].
  - destruct (attribute_body_not_null block offnum buffer dlen linp tuple
                bitmap j attr off nerrs Hnull) as [Hv Hc].
    rewrite Hv, (Hc any_message).
    destruct (attribute_length_count block offnum buffer linp j attr
                (aligned_offset buffer attr off) nerrs Hn) as [Hm Hb].
    destruct (value (attribute_length _ _ _ _ _ _ _ _ _)) as [[len n]|n];
      cbn [measured_nerrs] in Hm.
    + destruct ((dlen >? 0) && _); cbn [flow_nerrs any_message];
        rewrite Hm; split; try lia; norm32.
    + cbn [flow_nerrs]. rewrite Hm. split; try lia; norm32.
Qed.

Lemma attributes_loop_count block offnum buffer dlen linp tuple bitmap
    attrs : forall j off nerrs,
  0 <= nerrs < 2 ^ 32 ->
  let loop :=
    attributes_loop len_indeterminate block offnum buffer dlen linp tuple
                    bitmap attrs j off nerrs in
  snd (value loop) = C.uint32 (nerrs + W (trace loop))
  /\ 0 <= W (trace loop) <= 2 * Z.of_nat (List.length attrs).
Proof.
  induction attrs as [|attr rest IH]; intros j off nerrs Hn; cbv zeta.
  - cbn. split; [apply uint32_add_0; assumption | lia].
  - cbn [attributes_loop]. run. rewrite count_warnings_app.
    destruct (attribute_body_count block offnum buffer dlen linp tuple
                bitmap j attr off nerrs Hn) as [Hv Hb].
    destruct (value (attribute_body _ _ _ _ _ _ _ _ _ _ _ _))
      as [off' nerrs'|off' nerrs']; cbn [flow_nerrs] in Hv.
    + subst nerrs'.
      destruct (IH (j + 1) off' (C.uint32 (nerrs + W (trace
                 (attribute_body len_indeterminate block offnum buffer dlen
                    linp tuple bitmap j attr off nerrs)))))
        as [Hv' Hb']; [apply uint32_range|].
      rewrite Hv'. cbn [List.length].
      split; [norm32 | lia].
    + run. cbn [snd List.length]. rewrite Hv, count_warnings_nil.
      split; [f_equal; lia | lia].
Qed.

Lemma check_index_tuple_attributes_count rel header block offnum buffer
    dlen :
  let attributes :=
    check_index_tuple_attributes len_indeterminate rel header block offnum
                                 buffer dlen in
  value attributes = C.uint32 (W (trace attributes))
  /\ 0 <= W (trace attributes) <= 2 * natts rel + 1.
Proof.
  cbv zeta. unfold check_index_tuple_attributes. run.
  rewrite !count_warnings_app. quiet.
  match goal with
  | |- context [if value ?nodata then _ else _] => destruct (value nodata)
  end; run.
  - quiet. unfold natts. split; [reflexivity | lia].
  - rewrite !count_warnings_app.
    match goal with
    | |- context [attributes_loop ?x1 ?x2 ?x3 ?x4 ?x5 ?x6 ?x7 ?x8 ?x9 ?j ?o
                                  ?n] =>
        destruct (attributes_loop_count x2 x3 x4 x5 x6 x7 x8 x9 j o n)
          as [Hv Hb]; [lia|];
        destruct (value (attributes_loop x1 x2 x3 x4 x5 x6 x7 x8 x9 j o n))
          as [off' nerrs'] eqn:Hloop
    end.
    cbn [snd] in Hv. run. rewrite !count_warnings_app. unfold natts.
    destruct (PG.MAXALIGN off' >? _); run; rewrite Hv; quiet;
      [replace (W (trace (ereport WARNING
                 (MsgLastAttributeBeyondEnd block offnum off'
                    (PG.lp_off (value (PG.pd_linp Header header
                                         (offnum - 1)))
                     + PG.lp_len (value (PG.pd_linp Header header
                                           (offnum - 1)))))))) with 1
         by reflexivity|];
      (split; [norm32 | lia]).
Qed.

Lemma check_index_tuple_count rel header block i buffer :
  let tuple :=
    check_index_tuple len_indeterminate rel header block i buffer in
  value tuple = C.uint32 (W (trace tuple))
  /\ 0 <= W (trace tuple) <= Z.of_nat (Z.to_nat i) + (2 * natts rel + 1).
Proof.
  cbv zeta. unfold check_index_tuple. run.
  set (lp := value (PG.pd_linp Header header i)).
  set (a := PG.lp_off lp). set (b := a + PG.lp_len lp).
  assert (Hhits := hits_bounds header a b (Z.to_nat i) 0).
  rewrite !count_warnings_app.
  rewrite intersection_loop_value by lia.
  rewrite (intersection_loop_count header block i a b any_message)
    by reflexivity.
  quiet.
  destruct (PG.lp_flags lp =? PG.LP_NORMAL); run; quiet.
  - match goal with
    | |- context [check_index_tuple_attributes ?x1 ?x2 ?x3 ?x4 ?x5 ?x6 ?x7] =>
        destruct (check_index_tuple_attributes_count x2 x3 x4 x5 x6 x7)
          as [Hv Hb]
    end.
    rewrite Hv. split; [|lia].
    unfold C.uint32. rewrite Zplus_mod_idemp_l, Zplus_mod_idemp_r.
    f_equal; lia.
  - split; [f_equal; lia | unfold natts; lia].
Qed.

Lemma tuples_loop_value rel header block buffer count : forall i nerrs,
  0 <= nerrs < 2 ^ 32 ->
  value (tuples_loop len_indeterminate rel header block buffer count i nerrs)
  = C.uint32
      (nerrs
       + sum (map (fun k => value (check_index_tuple len_indeterminate rel
                                     header block k buffer))
                  (slots i count))).
Proof.
  induction count as [|count IH]; intros i nerrs Hn.
  - cbn. rewrite Z.add_0_r, uint32_small by assumption. reflexivity.
  - cbn [tuples_loop slots map sum fold_right]. run.
    rewrite IH by apply uint32_range. fold sum. norm32.
Qed.

End Attribute_errors.

(** ** Sizes *)

Lemma u8_at_range m a : 0 <= u8_at m a < 2 ^ 8.
Proof.
  unfold u8_at. change 255 with (Z.ones 8). rewrite Z.land_ones by lia.
  apply Z.mod_pos_bound. lia.
Qed.

Lemma u16_at_range m a : 0 <= u16_at m a < 2 ^ 16.
Proof.
  unfold u16_at.
  assert (H1 := u8_at_range m a). assert (H2 := u8_at_range m (a + 1)).
  split.
  - apply Z.lor_nonneg. split; [lia|]. apply Z.shiftl_nonneg. lia.
  - destruct (Z.eq_dec (Z.lor (u8_at m a) (Z.shiftl (u8_at m (a + 1)) 8)) 0)
      as [->|Hne]; [lia|].
    apply Z.log2_lt_pow2.
    + assert (0 <= Z.lor (u8_at m a) (Z.shiftl (u8_at m (a + 1)) 8)).
      { apply Z.lor_nonneg. split; [lia|]. apply Z.shiftl_nonneg. lia. }
      lia.
    + rewrite Z.log2_lor by (try apply Z.shiftl_nonneg; lia).
      apply Z.max_lub_lt.
      * destruct (Z.eq_dec (u8_at m a) 0) as [->|]; [cbn; lia|].
        assert (Z.log2 (u8_at m a) < 8) by (apply Z.log2_lt_pow2; lia). lia.
      * destruct (Z.eq_dec (u8_at m (a + 1)) 0) as [->|]; [cbn; lia|].
        rewrite Z.log2_shiftl by lia.
        assert (Z.log2 (u8_at m (a + 1)) < 8)
          by (apply Z.log2_lt_pow2; lia).
        lia.
Qed.

Lemma int_small x : - 2 ^ 31 <= x < 2 ^ 31 -> C.int x = x.
Proof. intros H. unfold C.int. rewrite Z.mod_small; lia. Qed.

Lemma PageGetMaxOffsetNumber_range r page :
  0 <= value (PG.PageGetMaxOffsetNumber r page) <= 16377.
Proof.
  unfold PG.PageGetMaxOffsetNumber, PG.pd_lower. run.
  assert (H := u16_at_range page 12).
  change (value (load16 r page 12)) with (u16_at page 12).
  unfold PG.SizeOfPageHeaderData, PG.sizeof_ItemIdData.
  destruct (u16_at page 12 <=? 24) eqn:E; [lia|].
  apply Z.leb_gt in E.
  split; [apply Z.div_pos; lia|].
  assert ((u16_at page 12 - 24) / 4 < 16378)
    by (apply Z.div_lt_upper_bound; lia).
  lia.
Qed.

Lemma slots_length first count : List.length (slots first count) = count.
Proof.
  revert first. induction count; intros; simpl; [|rewrite IHcount]; auto.
Qed.

Lemma slots_range count : forall first k,
  In k (slots first count) -> first <= k < first + Z.of_nat count.
Proof.
  induction count as [|count IH]; intros first k Hin; [destruct Hin|].
  destruct Hin as [<-|Hin]; [lia|]. apply IH in Hin. lia.
Qed.

Lemma sum_map_bound (f : Z -> Z) (bound : Z) (l : list Z) :
  (forall k, In k l -> 0 <= f k <= bound) ->
  0 <= sum (map f l) <= Z.of_nat (List.length l) * bound.
Proof.
  induction l as [|x l IH]; intros H.
  - cbn. lia.
  - cbn [map sum fold_right List.length].
    assert (Hx := H x (or_introl eq_refl)).
    assert (Hl := IH (fun k Hk => H k (or_intror Hk))).
    unfold sum in Hl. rewrite Nat2Z.inj_succ, Z.mul_succ_l. lia.
Qed.

(** ** Errors that end the attribute loop, and the total of a page *)

Section Halting_errors.

Context {build : Build}.
Variable len_indeterminate : Z -> Z -> Z.

(* when the length computation yields a length, its only errors are
   invalid raw lengths *)
Lemma attribute_length_raw block offnum buffer linp j attr off nerrs len n :
  let measure :=
    attribute_length len_indeterminate block offnum buffer linp j attr off
                     nerrs in
  value measure = inl (len, n) ->
  W (trace measure) = count_warnings is_raw_length_error (trace measure).
Proof.
  cbv zeta. unfold attribute_length.
  destruct (negb (PG.attbyval attr) && (PG.attlen attr =? -1)).
  - run. destruct (C.int (value (VARSIZE_ANY buffer off)) <? 0); run;
      [discriminate|].
    intros _.
    destruct (value (VARATT_IS_COMPRESSED buffer off)); run;
      [destruct ((value (VARRAWSIZE_4B_C buffer off) <? 0)
                 || (value (VARRAWSIZE_4B_C buffer off) >? 1024 * 1024));
       run|];
      quiet; reflexivity.
  - intros _.
    destruct (negb (PG.attbyval attr) && (PG.attlen attr <? 0)); run; quiet;
      reflexivity.
Qed.

(** C5.  In the attribute loop, (1) a varlena whose decoded length is
    negative is reported once, adds one to the error count and ends the
    loop, and (2) an attribute whose offset plus length lies beyond the end
    of the tuple while dlen > 0 is reported once as overflowing, adds one
    to the error count and ends the loop; in both cases the attributes
    behind it are neither read nor reported on.  (3) The count returned by
    check_index_tuples is the sum of the counts check_index_tuple returns
    for the slots 0 to ntuples - 1, reduced modulo 2^32 as the uint32
    counter is, and is that sum itself for any relation of at most 32767
    attributes. *)
Theorem attribute_errors_halt_and_add_up
    (rel : Relation) (header buffer : mem) (block : Z)
    (offnum dlen : Z) (linp : PG.ItemIdData) (tuple bitmap : Z)
    (attr : PG.FormData_pg_attribute) (rest : list PG.FormData_pg_attribute)
    (j off nerrs : Z) :
  let off' := aligned_offset buffer attr off in
  let measure :=
    attribute_length len_indeterminate block offnum buffer linp j attr off'
                     nerrs in
  let body :=
    attribute_body len_indeterminate block offnum buffer dlen linp tuple
                   bitmap j attr off nerrs in
  let loop attrs :=
    attributes_loop len_indeterminate block offnum buffer dlen linp tuple
                    bitmap attrs j off nerrs in
  let tuple_end := PG.lp_off linp + PG.lp_len linp in
  let ntuples :=
    Z.to_nat (C.int (value (PG.PageGetMaxOffsetNumber Buffer buffer))) in
  let per_tuple :=
    map (fun i => value (check_index_tuple len_indeterminate rel header block
                                           i buffer))
        (slots 0 ntuples) in
  let page := check_index_tuples len_indeterminate rel header buffer block in
  (attribute_is_null buffer tuple bitmap j = false ->
   PG.attbyval attr = false -> PG.attlen attr = -1 ->
   C.int (value (VARSIZE_ANY buffer off')) < 0 ->
   count_warnings is_negative_length_error (trace body) = 1
   /\ count_warnings any_message (trace body) = 1
   /\ value (loop (attr :: rest)) = (off', C.uint32 (nerrs + 1))
   /\ trace (loop (attr :: rest)) = trace body
   /\ loop (attr :: rest) = loop [attr])
  /\ (forall len n,
      attribute_is_null buffer tuple bitmap j = false ->
      value measure = inl (len, n) ->
      dlen > 0 -> C.int (off' + len) > tuple_end ->
      count_warnings is_overflow_error (trace body) = 1
      /\ count_warnings any_message (trace body)
         = 1 + count_warnings is_raw_length_error (trace measure)
      /\ value (loop (attr :: rest)) = (off', C.uint32 (n + 1))
      /\ trace (loop (attr :: rest)) = trace body
      /\ loop (attr :: rest) = loop [attr])
  /\ value page = C.uint32 (sum per_tuple)
  /\ (natts rel <= 32767 -> value page = sum per_tuple).
Proof.
  cbv zeta. split; [|split; [|split]].
  - intros Hnull Hbyval Hlen Hneg.
    destruct (attribute_body_not_null len_indeterminate block offnum buffer
                dlen linp tuple bitmap j attr off nerrs Hnull) as [Hv Hc].
    destruct (attribute_length_negative len_indeterminate block offnum buffer
                linp j attr (aligned_offset buffer attr off) nerrs
                Hbyval Hlen Hneg) as [Hm Hp].
    rewrite Hm in Hv.
    destruct (attributes_loop_break len_indeterminate block offnum buffer
                dlen linp tuple bitmap attr rest j off nerrs _ _ Hv)
      as [Heq [Hval Htr]].
    repeat split; try assumption.
    + rewrite Hc, Hm, Hp. reflexivity.
    + rewrite Hc, Hm, Hp. reflexivity.
  - intros len n Hnull Hmeasure Hdlen Hover.
    destruct (attribute_body_not_null len_indeterminate block offnum buffer
                dlen linp tuple bitmap j attr off nerrs Hnull) as [Hv Hc].
    rewrite Hmeasure in Hv.
    assert (Htest : (dlen >? 0)
                    && (C.int (aligned_offset buffer attr off + len)
                        >? PG.lp_off linp + PG.lp_len linp) = true).
    { rewrite !Z.gtb_ltb. apply andb_true_intro. split; apply Z.ltb_lt; lia. }
    rewrite Htest in Hv.
    destruct (attributes_loop_break len_indeterminate block offnum buffer
                dlen linp tuple bitmap attr rest j off nerrs _ _ Hv)
      as [Heq [Hval Htr]].
    repeat split; try assumption.
    + rewrite Hc, Hmeasure, Htest. cbn [is_overflow_error].
      rewrite (count_warnings_outside is_overflow_error
                 is_other_attribute_message); [reflexivity| |].
      * unfold attribute_length, strnlen.
        repeat warnings_in_step; reflexivity.
      * intros []; simpl; congruence.
    + rewrite Hc, Hmeasure, Htest. cbn [any_message].
      rewrite (attribute_length_raw block offnum buffer linp j attr _ nerrs
                 len n Hmeasure). lia.
  - unfold check_index_tuples. run.
    rewrite tuples_loop_value by lia. reflexivity.
  - intros Hnatts. unfold check_index_tuples. run.
    rewrite tuples_loop_value by lia. rewrite Z.add_0_l.
    apply uint32_small.
    set (n := Z.to_nat (C.int (value (PG.PageGetMaxOffsetNumber Buffer
                                        buffer)))).
    assert (Hn : Z.of_nat n <= 16377).
    { subst n. assert (H := PageGetMaxOffsetNumber_range Buffer buffer).
      rewrite int_small by lia. lia. }
    match goal with
    | |- 0 <= sum (map ?f ?l) < _ =>
        assert (Hsum := sum_map_bound f (16377 + (2 * 32767 + 1)) l)
    end.
    rewrite slots_length in Hsum.
    assert (0 <= Z.of_nat n * (16377 + (2 * 32767 + 1)) < 2 ^ 32) by nia.
    cut (forall k, In k (slots 0 n) ->
           0 <= value (check_index_tuple len_indeterminate rel header block
                         k buffer) <= 16377 + (2 * 32767 + 1));
      [intros Hall; specialize (Hsum Hall); lia|].
    intros k Hk. apply slots_range in Hk.
    destruct (check_index_tuple_count len_indeterminate rel header block k
                buffer) as [Hv Hb].
    rewrite Hv. assert (Hu := uint32_le (W (trace
      (check_index_tuple len_indeterminate rel header block k buffer)))).
    assert (Hr := uint32_range (W (trace
      (check_index_tuple len_indeterminate rel header block k buffer)))).
    lia.
Qed.

End Halting_errors.

Lemma attribute_errors_halt_and_add_up_witness :
  (let linp := ItemId Page.all_ones 0 in
   value (attributes_loop (build := Page.whole_word_length)
            (Page.len_holds 0) 1 1 Page.all_ones 16 linp 8000 8008
            [Page.text; Page.int4] 0 8008 0) = (8008, 1))
  /\ (let linp := ItemId Page.unterminated 0 in
      value (attributes_loop (build := pg_x86_64)
               (Page.len_holds 0) 1 1 Page.unterminated 8 linp 8000 8008
               [Page.cstring; Page.int4] 0 8008 0) = (8008, 1))
  /\ value (check_index_tuples (build := pg_x86_64) (Page.len_holds 0)
              [Page.cstring; Page.int4] Page.unterminated Page.unterminated 1)
     = 1.
Proof.
  split; [|split].
  - apply (proj1 (attribute_errors_halt_and_add_up
                    (build := Page.whole_word_length) (Page.len_holds 0)
                    [Page.text; Page.int4] Page.all_ones Page.all_ones 1
                    1 16 (ItemId Page.all_ones 0) 8000 8008
                    Page.text [Page.int4] 0 8008 0));
      vm_compute; reflexivity.
  - apply (proj1 (proj2 (attribute_errors_halt_and_add_up
                    (build := pg_x86_64) (Page.len_holds 0)
                    [Page.cstring; Page.int4] Page.unterminated
                    Page.unterminated 1
                    1 8 (ItemId Page.unterminated 0) 8000 8008
                    Page.cstring [Page.int4] 0 8008 0)) 9 0);
      vm_compute; reflexivity.
  - apply (proj2 (proj2 (proj2 (attribute_errors_halt_and_add_up
                    (build := pg_x86_64) (Page.len_holds 0)
                    [Page.cstring; Page.int4] Page.unterminated
                    Page.unterminated 1
                    1 8 (ItemId Page.unterminated 0) 8000 8008
                    Page.cstring [Page.int4] 0 8008 0)))).
    vm_compute. discriminate.
Defined.

(** ** Reads and the bounds of the page *)

Lemma loads_within_app r size t1 t2 :
  loads_within r size (t1 ++ t2)
  = loads_within r size t1 && loads_within r size t2.
Proof. apply forallb_app. Qed.

Lemma loads_within_one r size r' a n :
  0 <= a -> a + n <= size ->
  loads_within r size [Load r' a n] = true.
Proof.
  intros Ha Hn. unfold loads_within, forallb, load_within.
  rewrite (proj2 (Z.leb_le 0 a) Ha), (proj2 (Z.leb_le (a + n) size) Hn).
  rewrite !orb_true_r. reflexivity.
Qed.

Lemma load_within_one r size r' a n :
  0 <= a -> a + n <= size -> load_within r size (Load r' a n) = true.
Proof.
  intros Ha Hn. unfold load_within.
  rewrite (proj2 (Z.leb_le 0 a) Ha), (proj2 (Z.leb_le (a + n) size) Hn).
  rewrite !orb_true_r. reflexivity.
Qed.

Lemma loads_within_only_reports r size t :
  forallb (fun e => negb (is_load e)) t = true ->
  loads_within r size t = true.
Proof.
  unfold loads_within. induction t as [|e t IH]; simpl; [reflexivity|].
  destruct e; simpl; [discriminate|]. exact IH.
Qed.

(* splits a goal [loads_within r size t = true] along the appends, the
   conditionals and the single loads of [t], leaving the arithmetic *)
Ltac loads :=
  repeat first
    [ progress run
    | rewrite loads_within_app
    | apply andb_true_intro; split
    | reflexivity
    | match goal with
      | |- loads_within _ _ (trace (if ?c then _ else _)) = true =>
          destruct c eqn:?
      | |- loads_within _ _ (trace (load8 _ _ _)) = true =>
          apply loads_within_one
      | |- loads_within _ _ (trace (load16 _ _ _)) = true =>
          apply loads_within_one
      | |- loads_within _ _ (trace (load32 _ _ _)) = true =>
          apply loads_within_one
      end ].

Section Reads.

Context {build : Build}.
Variable check_page_header : mem -> Z -> Z * list (elevel * string).
Variable len_indeterminate : Z -> Z -> Z.

Lemma intersection_loop_loads header block i a b size count :
  forall j nerrs,
    loads_within Buffer size
      (trace (intersection_loop header block i a b count j nerrs)) = true.
Proof.
  induction count as [|count IH]; intros j nerrs; cbn [intersection_loop].
  - reflexivity.
  - unfold PG.pd_linp. loads; apply IH.
Qed.

Lemma ItemId_range header i :
  0 <= PG.lp_off (ItemId header i) < 2 ^ 15
  /\ 0 <= PG.lp_len (ItemId header i) < 2 ^ 15.
Proof.
  unfold ItemId, PG.pd_linp. run. cbn [PG.ItemId_of_word PG.lp_off PG.lp_len].
  change 32767 with (Z.ones 15). rewrite !Z.land_ones by lia.
  split; apply Z.mod_pos_bound; lia.
Qed.

End Reads.

Lemma reads_beyond_page_counterexample :
  PG.lp_off (ItemId Page.stray 0) = 20000
  /\ In (Load Buffer 20006 2)
        (trace (check_index_tuple (build := pg_x86_64) (Page.len_holds 0)
                  [Page.int4] Page.stray 1 0 Page.stray))
  /\ loads_within Buffer (BLCKSZ (Build := pg_x86_64))
       (trace (check_index_tuple (build := pg_x86_64) (Page.len_holds 0)
                 [Page.int4] Page.stray 1 0 Page.stray)) = false
  /\ W (trace (check_index_tuples (build := pg_x86_64) (Page.len_holds 0)
                 [Page.int4] Page.stray Page.stray 1)) = 0.
Proof.
  split; [|split; [|split]]; vm_compute; auto.
Qed.

(** ** Alignment *)

Lemma land_high_mask k y :
  0 <= k <= 64 -> 0 <= y < 2 ^ 64 ->
  Z.land y (2 ^ 64 - 2 ^ k) = 2 ^ k * (y / 2 ^ k).
Proof.
  intros Hk Hy.
  replace (2 ^ 64 - 2 ^ k) with (Z.shiftl (Z.ones (64 - k)) k).
  2:{ rewrite Z.shiftl_mul_pow2, Z.ones_equiv by lia.
      rewrite <- Z.sub_1_r, Z.mul_sub_distr_r, <- Z.pow_add_r by lia.
      replace (64 - k + k) with 64 by lia. lia. }
  rewrite Z.mul_comm, <- Z.shiftr_div_pow2, <- Z.shiftl_mul_pow2 by lia.
  apply Z.bits_inj'. intros n Hn.
  rewrite Z.land_spec, !Z.shiftl_spec by lia.
  destruct (Z_lt_le_dec n k) as [Hlt|Hge].
  - rewrite !(Z.testbit_neg_r _ (n - k)) by lia. apply andb_false_r.
  - rewrite Z.shiftr_spec by lia. replace (n - k + k) with n by lia.
    destruct (Z_lt_le_dec n 64) as [Hlt|Hge64].
    + rewrite Z.ones_spec_low by lia. apply andb_true_r.
    + rewrite Z.ones_spec_high by lia. rewrite andb_false_r.
      destruct (Z.eq_dec y 0) as [->|Hy0]; [rewrite Z.bits_0; reflexivity|].
      symmetry. apply Z.bits_above_log2; [lia|].
      assert (Z.log2 y < 64) by (apply Z.log2_lt_pow2; lia). lia.
Qed.

Lemma TYPEALIGN_div k x :
  1 <= k <= 3 -> 0 <= x < 2 ^ 63 ->
  PG.TYPEALIGN (2 ^ k) x = 2 ^ k * ((x + (2 ^ k - 1)) / 2 ^ k).
Proof.
  intros Hk Hx.
  assert (Hp : 2 <= 2 ^ k <= 8).
  { assert (k = 1 \/ k = 2 \/ k = 3) as [->|[->| ->]] by lia; cbn; lia. }
  unfold PG.TYPEALIGN, C.uintptr_t, C.uint64.
  rewrite (Z.mod_small x) by lia.
  rewrite (Z.mod_small (x + _)) by lia.
  rewrite (Z.mod_small (2 ^ k - 1)) by lia.
  replace (Z.lnot (2 ^ k - 1) mod 2 ^ 64) with (2 ^ 64 - 2 ^ k).
  2:{ unfold Z.lnot. replace (Z.pred (- (2 ^ k - 1))) with (- 2 ^ k) by lia.
      apply Z.mod_unique_pos with (q := -1); lia. }
  apply land_high_mask; lia.
Qed.

Lemma aligns_refl x : aligns x x.
Proof. unfold aligns. lia. Qed.

Lemma TYPEALIGN_aligns k x :
  1 <= k <= 3 -> 0 <= x < 2 ^ 63 -> aligns x (PG.TYPEALIGN (2 ^ k) x).
Proof.
  intros Hk Hx. rewrite TYPEALIGN_div by assumption. unfold aligns.
  assert (k = 1 \/ k = 2 \/ k = 3) as [->|[->| ->]] by lia;
    change (2 ^ 1) with 2; change (2 ^ 2) with 4; change (2 ^ 3) with 8;
    Z.div_mod_to_equations; lia.
Qed.

Lemma MAXALIGN_div x :
  0 <= x < 2 ^ 63 -> PG.MAXALIGN x = 8 * ((x + 7) / 8).
Proof. intros. apply (TYPEALIGN_div 3); lia. Qed.

Lemma att_align_nominal_aligns x c :
  0 <= x < 2 ^ 63 -> aligns x (PG.att_align_nominal x c).
Proof.
  intros Hx. unfold PG.att_align_nominal, PG.INTALIGN, PG.DOUBLEALIGN,
    PG.SHORTALIGN.
  destruct (Ascii.eqb c "i"); [apply (TYPEALIGN_aligns 2); lia|].
  destruct (Ascii.eqb c "c").
  - unfold C.uintptr_t, C.uint64. rewrite Z.mod_small by lia.
    apply aligns_refl.
  - destruct (Ascii.eqb c "d");
      [apply (TYPEALIGN_aligns 3) | apply (TYPEALIGN_aligns 1)]; lia.
Qed.

Lemma aligned_offset_aligns buffer attr off :
  0 <= off < 2 ^ 30 -> aligns off (aligned_offset buffer attr off).
Proof.
  intros Hoff. unfold aligned_offset, PG.att_align_pointer.
  assert (Hnom := att_align_nominal_aligns off (PG.attalign attr)).
  assert (Hid : C.uintptr_t off = off)
    by (unfold C.uintptr_t, C.uint64; apply Z.mod_small; lia).
  destruct (PG.attlen attr =? -1); run;
    [destruct (value (PG.VARATT_NOT_PAD_BYTE Buffer buffer off));
     [rewrite Hid, int_small by lia; apply aligns_refl|]|];
    (rewrite int_small; [apply Hnom; lia|]);
    destruct Hnom as [Hn _]; lia.
Qed.

(** ** A negative dlen *)

Lemma int_range x : - 2 ^ 31 <= C.int x < 2 ^ 31.
Proof.
  unfold C.int. assert (H := Z.mod_pos_bound (x + 2 ^ 31) (2 ^ 32)). lia.
Qed.

Lemma aligns_trans x y z : aligns x y -> aligns y z -> aligns x z.
Proof. unfold aligns. intros [Hxy Hx] [Hyz Hy]. Z.div_mod_to_equations; lia. Qed.

Section Negative_dlen.

Context {build : Build}.
Variable len_indeterminate : Z -> Z -> Z.

(* line 343 with dlen <= 0: a pass leaves the offset where it is (NULL
   attribute) or at the aligned offset of the attribute, whatever length
   was measured there *)
Lemma attribute_body_offset block offnum buffer dlen linp tuple bitmap j attr
    off nerrs :
  dlen <= 0 ->
  match value (attribute_body len_indeterminate block offnum buffer dlen linp
                              tuple bitmap j attr off nerrs) with
  | Next off' _ => off' = off \/ off' = aligned_offset buffer attr off
  | Break off' _ => off' = aligned_offset buffer attr off
  end.
Proof.
  intros Hdlen.
  assert (H : (dlen >? 0) = false) by (rewrite Z.gtb_ltb; apply Z.ltb_ge; lia).
  unfold attribute_body. run.
  match goal with
  | |- context [if value ?isnull then _ else _] => destruct (value isnull)
  end; run; [left; reflexivity|].
  fold (aligned_offset buffer attr off).
  destruct (value (attribute_length _ _ _ _ _ _ _ _ _)) as [[len n]|n];
    [|reflexivity].
  rewrite H. cbn [andb]. run. right.
  rewrite Z.add_0_r. apply int_small. unfold aligned_offset. apply int_range.
Qed.

Lemma attributes_loop_offset block offnum buffer dlen linp tuple bitmap
    attrs start :
  dlen <= 0 ->
  0 <= start < 2 ^ 29 ->
  forall j off nerrs,
    aligns start off ->
    aligns start
      (fst (value (attributes_loop len_indeterminate block offnum buffer dlen
                                   linp tuple bitmap attrs j off nerrs))).
Proof.
  intros Hdlen Hstart.
  induction attrs as [|attr rest IH]; intros j off nerrs Hoff;
    cbn [attributes_loop]; run; [exact Hoff|].
  assert (Hbody := attribute_body_offset block offnum buffer dlen linp tuple
                     bitmap j attr off nerrs Hdlen).
  assert (Haligned : aligns start (aligned_offset buffer attr off)).
  { apply (aligns_trans _ off); [exact Hoff|].
    apply aligned_offset_aligns. destruct Hoff as [Hoff _]. lia. }
  destruct (value (attribute_body _ _ _ _ _ _ _ _ _ _ _ _))
    as [off' nerrs'|off' nerrs'].
  - apply IH. destruct Hbody as [-> | ->]; assumption.
  - run. subst off'. exact Haligned.
Qed.

(** C6, as amended.  A negative dlen is no error to
    check_index_tuple_attributes.  The attribute loop does for it exactly
    what it does for dlen = 0 (the same reads, the same reports, the same
    final offset and count).  The offset is not advanced by attribute
    lengths: a pass through the body leaves it where it was (NULL
    attribute) or at the aligned offset of the attribute, whatever length
    was measured, so that the whole loop moves an offset below 2^29 up by
    at most 7 bytes of alignment padding and keeps its MAXALIGN.  The
    overflow check is switched off: no overflow error is reported for the
    tuple. *)
Theorem negative_dlen_runs_as_zero (rel : Relation) (header : mem)
    (block offnum : Z) (buffer : mem) (dlen : Z) :
  dlen < 0 ->
  (forall linp tuple bitmap attrs j off nerrs,
      attributes_loop len_indeterminate block offnum buffer dlen linp tuple
                      bitmap attrs j off nerrs
      = attributes_loop len_indeterminate block offnum buffer 0 linp tuple
                        bitmap attrs j off nerrs)
  /\ (forall linp tuple bitmap j attr off nerrs,
         match value (attribute_body len_indeterminate block offnum buffer
                                     dlen linp tuple bitmap j attr off nerrs)
         with
         | Next off' _ => off' = off \/ off' = aligned_offset buffer attr off
         | Break off' _ => off' = aligned_offset buffer attr off
         end)
  /\ (forall linp tuple bitmap attrs j off nerrs,
         0 <= off < 2 ^ 29 ->
         aligns off
           (fst (value (attributes_loop len_indeterminate block offnum buffer
                                        dlen linp tuple bitmap attrs j off
                                        nerrs))))
  /\ count_warnings is_overflow_error
       (trace (check_index_tuple_attributes len_indeterminate rel header
                                            block offnum buffer dlen)) = 0.
Proof.
  intros Hdlen. split; [|split; [|split]].
  - intros. apply attributes_loop_dlen.
    rewrite !Z.gtb_ltb. rewrite (proj2 (Z.ltb_ge 0 dlen)) by lia.
    reflexivity.
  - intros. apply attribute_body_offset. lia.
  - intros. apply attributes_loop_offset; [lia | assumption |].
    apply aligns_refl.
  - apply (count_warnings_outside _ is_other_attribute_message).
    + unfold check_index_tuple_attributes, PG.pd_linp, PG.pd_special,
        PG.t_info, PG.P_ISLEAF, PG.P_FIRSTDATAKEY, PG.P_RIGHTMOST,
        PG.btpo_flags, PG.btpo_next.
      repeat (warnings_in_step
              || (apply attributes_loop_no_overflow_report; lia));
        reflexivity.
    + intros []; simpl; congruence.
Qed.

End Negative_dlen.

Lemma negative_dlen_runs_as_zero_witness :
  value (attribute_body (build := pg_x86_64) (Page.len_holds 0) 1 1
           Page.short_size (-4) (ItemId Page.short_size 0) 8000 8008 0
           Page.int4 8010 0)
  = Next 8012 0
  /\ aligns 8008
       (fst (value (attributes_loop (build := pg_x86_64) (Page.len_holds 0)
                      1 1 Page.short_size (-4) (ItemId Page.short_size 0)
                      8000 8008 [Page.int4; Page.int8; Page.int4] 0 8008 0)))
  /\ count_warnings is_overflow_error
       (trace (check_index_tuple_attributes (build := pg_x86_64)
                 (Page.len_holds 0) [Page.int4] Page.short_size 1 1
                 Page.short_size (-4))) = 0.
Proof.
  assert (Hdlen : -4 < 0) by lia.
  destruct (negative_dlen_runs_as_zero (build := pg_x86_64) (Page.len_holds 0)
              [Page.int4] Page.short_size 1 1 Page.short_size (-4) Hdlen)
    as (_ & Hbody & Hloop & Hcount).
  split; [|split].
  - reflexivity.
  - apply Hloop. lia.
  - exact Hcount.
Defined.

Lemma negative_dlen_counterexample :
  value (tuple_dlen Page.short_size
           (PG.lp_off (ItemId Page.short_size 0))) = -4
  /\ PG.lp_flags (ItemId Page.short_size 0) = PG.LP_NORMAL
  /\ count_warnings any_message
       (trace (check_index_tuple (build := pg_x86_64) (Page.len_holds 0)
                 [Page.int4] Page.short_size 1 0 Page.short_size)) = 0
  /\ value (check_index_tuple (build := pg_x86_64) (Page.len_holds 0)
              [Page.int4] Page.short_size 1 0 Page.short_size) = 0.
Proof. vm_compute. repeat split. Qed.

(** ** Reads of the attribute checks *)

Lemma loads_within_mono r size1 size2 t :
  size1 <= size2 ->
  loads_within r size1 t = true -> loads_within r size2 t = true.
Proof.
  intros Hle. unfold loads_within. induction t as [|e t IH]; simpl; auto.
  intros H. apply andb_prop in H as [He Ht]. rewrite (IH Ht), andb_true_r.
  destruct e as [r' a n|]; [|reflexivity]. simpl in He |- *.
  apply orb_prop in He as [He|He]; [rewrite He; reflexivity|].
  apply andb_prop in He as [Ha Hn]. apply Z.leb_le in Hn.
  rewrite Ha, (proj2 (Z.leb_le (a + n) size2)) by lia.
  apply orb_true_r.
Qed.

Lemma land_ones_range x k : 0 <= k -> 0 <= Z.land x (Z.ones k) < 2 ^ k.
Proof.
  intros. rewrite Z.land_ones by assumption. apply Z.mod_pos_bound. lia.
Qed.

Lemma varlena_size_range m p :
  0 <= value (Varlena.VARSIZE_ANY m p) < 2 ^ 30.
Proof.
  unfold Varlena.VARSIZE_ANY, Varlena.VARATT_IS_1B_E, Varlena.VARATT_IS_1B,
    Varlena.VARSIZE_1B_E, Varlena.VARSIZE_1B, Varlena.VARSIZE_4B.
  run.
  destruct (value (load8 Buffer m p) =? 1); run.
  - assert (H := u8_at_range m (p + 1)).
    change (value (load8 Buffer m (p + 1))) with (u8_at m (p + 1)). lia.
  - destruct (Z.land (value (load8 Buffer m p)) 1 =? 1); run.
    + change 127 with (Z.ones 7).
      assert (H := land_ones_range
                     (Z.shiftr (value (load8 Buffer m p)) 1) 7). lia.
    + change 1073741823 with (Z.ones 30). apply land_ones_range. lia.
Qed.

Lemma varlena_size_loads m p size :
  0 <= p -> p + 8 <= size ->
  loads_within Buffer size (trace (Varlena.VARSIZE_ANY m p)) = true.
Proof.
  intros Hp Hsize.
  unfold Varlena.VARSIZE_ANY, Varlena.VARATT_IS_1B_E, Varlena.VARATT_IS_1B,
    Varlena.VARSIZE_1B_E, Varlena.VARSIZE_1B, Varlena.VARSIZE_4B.
  loads; lia.
Qed.

Section Attribute_reads.

Context {build : Build}.
Variable len_indeterminate : Z -> Z -> Z.
Hypothesis Hpg : pg_varlena build.

Variables (block offnum : Z) (buffer : mem) (dlen : Z) (linp : PG.ItemIdData).

Let lo := PG.lp_off linp.
Let tuple_end := PG.lp_off linp + PG.lp_len linp.

Hypothesis Hlo : 0 <= PG.lp_off linp < 2 ^ 15.
Hypothesis Hlen : 0 <= PG.lp_len linp < 2 ^ 15.
Hypothesis Hend : tuple_end + 15 <= BLCKSZ.
Hypothesis Hstart : lo + 31 <= BLCKSZ.

Lemma attribute_length_reads j attr off nerrs :
  varlena_or_fixed attr ->
  0 <= off -> off + 8 <= BLCKSZ ->
  let measure :=
    attribute_length len_indeterminate block offnum buffer linp j attr off
                     nerrs in
  loads_within Buffer BLCKSZ (trace measure) = true
  /\ match value measure with
     | inl (len, _) => 0 <= len < 2 ^ 30
     | inr _ => True
     end.
Proof.
  intros Hattr Hoff Hroom. cbv zeta. unfold attribute_length.
  destruct Hpg as [Hsize [Hcompressed Hraw]].
  destruct Hattr as [[Hbyval Hvar]|Hfixed].
  - rewrite Hbyval, Hvar. cbn [negb andb Z.eqb Pos.eqb].
    rewrite Hsize, Hcompressed, Hraw.
    assert (Hrange := varlena_size_range buffer off).
    run. rewrite (int_small (value _)) by lia.
    replace (value (Varlena.VARSIZE_ANY buffer off) <? 0) with false
      by (symmetry; apply Z.ltb_ge; lia).
    run. split.
    + rewrite loads_within_app, varlena_size_loads by lia.
      unfold Varlena.VARATT_IS_COMPRESSED, Varlena.VARATT_IS_4B_C,
        Varlena.VARRAWSIZE_4B_C.
      loads; lia.
    + lia.
  - replace (PG.attlen attr =? -1) with false
      by (symmetry; apply Z.eqb_neq; lia).
    replace (PG.attlen attr <? 0) with false
      by (symmetry; apply Z.ltb_ge; lia).
    rewrite !andb_false_r. run. split; [reflexivity | lia].
Qed.

Lemma attribute_body_reads j attr off nerrs :
  varlena_or_fixed attr ->
  0 <= j < 32 ->
  offset_in_tuple dlen lo tuple_end off ->
  let body :=
    attribute_body len_indeterminate block offnum buffer dlen linp lo
                   (lo + PG.sizeof_IndexTupleData) j attr off nerrs in
  loads_within Buffer BLCKSZ (trace body) = true
  /\ match value body with
     | Next off' _ => offset_in_tuple dlen lo tuple_end off'
     | Break _ _ => True
     end.
Proof.
  intros Hattr Hj [Hoff Hin]. cbv zeta.
  assert (Hsmall : off <= Z.max tuple_end (lo + 23)).
  { destruct (dlen >? 0); [|Z.div_mod_to_equations]; lia. }
  unfold tuple_end, lo in *.
  assert (Hal := aligned_offset_aligns buffer attr off).
  destruct Hal as [Hal Hmax]; [lia|].
  assert (Hroom : aligned_offset buffer attr off + 8 <= BLCKSZ).
  { destruct (dlen >? 0); [|Z.div_mod_to_equations]; lia. }
  destruct (attribute_length_reads j attr (aligned_offset buffer attr off)
              nerrs Hattr) as [Hloads Hmeasure]; [lia | lia |].
  unfold attribute_body. run.
  fold (aligned_offset buffer attr off).
  set (off' := aligned_offset buffer attr off) in *.
  set (measure := attribute_length _ _ _ _ _ _ _ _ _) in *.
  assert (Hbits : 0 <= Z.shiftr j 3 <= 3).
  { rewrite Z.shiftr_div_pow2 by lia. change (2 ^ 3) with 8.
    Z.div_mod_to_equations; lia. }
  assert (Hprefix :
    loads_within Buffer BLCKSZ
      (trace (PG.IndexTupleHasNulls Buffer buffer (PG.lp_off linp))) = true
    /\ loads_within Buffer BLCKSZ
         (trace (if value (PG.IndexTupleHasNulls Buffer buffer
                             (PG.lp_off linp))
                 then PG.att_isnull Buffer buffer j
                        (PG.lp_off linp + PG.sizeof_IndexTupleData)
                 else ret false)) = true).
  { unfold PG.IndexTupleHasNulls, PG.att_isnull, PG.t_info,
      PG.sizeof_IndexTupleData.
    split; loads; lia. }
  destruct Hprefix as [Hp1 Hp2].
  rewrite !loads_within_app, Hp1, Hp2. cbn [andb].
  match goal with
  | |- context [if value ?isnull then _ else _] => destruct (value isnull)
  end; run.
  - split; [reflexivity|]. split; assumption.
  - fold (aligned_offset buffer attr off). fold off'. fold measure.
    rewrite !loads_within_app, Hloads.
    assert (Halign :
      loads_within Buffer BLCKSZ
        (trace (PG.att_align_pointer Buffer buffer off (PG.attalign attr)
                  (PG.attlen attr) off)) = true).
    { unfold PG.att_align_pointer, PG.VARATT_NOT_PAD_BYTE. loads; lia. }
    rewrite Halign. cbn [andb].
    destruct (value measure) as [[len n]|n]; [|split; reflexivity].
    destruct (dlen >? 0) eqn:Hdlen; cbn [andb].
    + destruct (C.int (off' + len) >? PG.lp_off linp + PG.lp_len linp)
        eqn:Hover; run; (split; [reflexivity|]); [exact I|].
      rewrite int_small in Hover |- * by lia.
      rewrite Z.gtb_ltb in Hover. apply Z.ltb_ge in Hover.
      split; [lia|]. rewrite Hdlen. lia.
    + run. split; [reflexivity|]. rewrite Z.add_0_r, int_small by lia.
      split; [lia|]. rewrite Hdlen. lia.
Qed.

Lemma attributes_loop_reads attrs : forall j off nerrs,
  Forall varlena_or_fixed attrs ->
  0 <= j -> j + Z.of_nat (List.length attrs) <= 32 ->
  offset_in_tuple dlen lo tuple_end off ->
  loads_within Buffer BLCKSZ
    (trace (attributes_loop len_indeterminate block offnum buffer dlen linp
                            lo (lo + PG.sizeof_IndexTupleData) attrs j off
                            nerrs)) = true.
Proof.
  induction attrs as [|attr rest IH]; intros j off nerrs Hall Hj Hn Hoff.
  - reflexivity.
  - cbn [attributes_loop List.length] in *. run.
    inversion Hall as [|? ? Hattr Hrest]; subst.
    destruct (attribute_body_reads j attr off nerrs Hattr) as [Hloads Hnext];
      [lia | assumption |].
    rewrite loads_within_app, Hloads. cbn [andb].
    destruct (value (attribute_body _ _ _ _ _ _ _ _ _ _ _ _))
      as [off' nerrs'|off' nerrs']; [|reflexivity].
    apply IH; try assumption; lia.
Qed.

End Attribute_reads.

Section Tuple_reads.

Context {build : Build}.
Variable len_indeterminate : Z -> Z -> Z.

Lemma IndexInfoFindDataOffset_cases info :
  PG.IndexInfoFindDataOffset info = 8 \/ PG.IndexInfoFindDataOffset info = 16.
Proof.
  unfold PG.IndexInfoFindDataOffset.
  destruct (Z.land info PG.INDEX_NULL_MASK =? 0); [left | right];
    reflexivity.
Qed.

Lemma check_index_tuple_attributes_reads rel header block offnum buffer
    dlen :
  let special := value (PG.pd_special Header header) in
  let linp := ItemId header (offnum - 1) in
  pg_varlena build ->
  Forall varlena_or_fixed rel ->
  natts rel <= 32 ->
  special + PG.sizeof_BTPageOpaqueData <= BLCKSZ ->
  PG.lp_off linp + PG.lp_len linp + 15 <= BLCKSZ ->
  PG.lp_off linp + 31 <= BLCKSZ ->
  loads_within Buffer BLCKSZ
    (trace (check_index_tuple_attributes len_indeterminate rel header block
                                         offnum buffer dlen)) = true.
Proof.
  cbv zeta. intros Hpg Hrel Hnatts Hspecial Hend Hstart.
  destruct (ItemId_range header (offnum - 1)) as [Hlo Hlen].
  assert (Hs := u16_at_range header 16).
  unfold PG.sizeof_BTPageOpaqueData in Hspecial.
  change (value (PG.pd_special Header header)) with (u16_at header 16)
    in Hspecial.
  unfold check_index_tuple_attributes. run.
  fold (ItemId header (offnum - 1)).
  set (linp := ItemId header (offnum - 1)) in *.
  change (value (PG.pd_special Header header)) with (u16_at header 16).
  set (info := value (PG.t_info Buffer buffer (PG.lp_off linp))).
  rewrite !loads_within_app.
  assert (Hhead :
    loads_within Buffer BLCKSZ
      (trace (PG.t_info Buffer buffer (PG.lp_off linp))) = true
    /\ loads_within Buffer BLCKSZ
         (trace (PG.P_ISLEAF Buffer buffer (u16_at header 16))) = true
    /\ loads_within Buffer BLCKSZ
         (trace (if negb (value (PG.P_ISLEAF Buffer buffer
                                   (u16_at header 16)))
                 then first <- PG.P_FIRSTDATAKEY Buffer buffer
                                 (u16_at header 16) ;;
                      ret ((offnum =? first) && (dlen =? 0))
                 else ret false)) = true).
  { unfold PG.t_info, PG.P_ISLEAF, PG.P_FIRSTDATAKEY, PG.P_RIGHTMOST,
      PG.btpo_flags, PG.btpo_next.
    repeat split; loads; lia. }
  destruct Hhead as [H1 [H2 H3]]. rewrite H1, H2, H3.
  replace (loads_within Buffer BLCKSZ (trace (PG.pd_linp Header header
             (offnum - 1)))) with true by reflexivity.
  cbn [andb].
  match goal with
  | |- context [if value ?nodata then _ else _] => destruct (value nodata)
  end; run; [reflexivity|].
  rewrite !loads_within_app.
  assert (Hloop := attributes_loop_reads len_indeterminate Hpg block offnum
                     buffer dlen linp Hlo Hlen Hend Hstart rel 0
                     (C.int (C.size_t (PG.lp_off linp
                                       + PG.IndexInfoFindDataOffset info)))
                     0 Hrel).
  rewrite Hloop.
  - match goal with
    | |- context [let (_, _) := ?x in _] => destruct x
    end.
    run. rewrite loads_within_app.
    match goal with
    | |- context [if ?c then _ else _] => destruct c
    end; reflexivity.
  - lia.
  - unfold natts in Hnatts. lia.
  - unfold C.size_t, C.uint64.
    destruct (IndexInfoFindDataOffset_cases info) as [-> | ->];
      rewrite Z.mod_small, int_small by lia;
      (split; [lia|]); destruct (dlen >? 0);
      try (Z.div_mod_to_equations; lia); lia.
Qed.

End Tuple_reads.

Lemma check_index_tuple_intersections_witness :
  value (check_index_tuple (build := pg_x86_64) (Page.len_holds 0)
           [Page.int4] Page.dead_over_normal 1 1 Page.dead_over_normal) = 1.
Proof.
  change 1 with (intersections_before Page.dead_over_normal 1) at 3.
  apply (proj2 (proj2 (proj2 (check_index_tuple_intersections
                                (build := pg_x86_64) (Page.len_holds 0)
                                [Page.int4] Page.dead_over_normal 1 1
                                Page.dead_over_normal)))).
  - lia.
  - vm_compute. discriminate.
Defined.

Example meta_page_both_wrong :
  value (check_index_page (build := pg_x86_64) Page.header_ok
           (Page.meta 8176 0 3) (Page.meta 8176 0 3) PG.BTREE_METAPAGE) = 2
  /\ value (check_index_page (build := pg_x86_64) Page.header_ok
              (Page.meta 8176 0x053162 3) (Page.meta 8176 0x053162 3)
              PG.BTREE_METAPAGE) = 1
  /\ value (check_index_page (build := pg_x86_64) Page.header_ok
              (Page.meta 8176 0 2) (Page.meta 8176 0 2)
              PG.BTREE_METAPAGE) = 1
  /\ value (check_index_page (build := pg_x86_64) Page.header_ok
              (Page.meta 8176 0x053162 2) (Page.meta 8176 0x053162 2)
              PG.BTREE_METAPAGE) = 0.
Proof. vm_compute. repeat split. Qed.

(** * Further properties of index.c *)

(** ** The intersection test *)

(** X1.  For two ranges that are not empty and not the same range, the
    test of lines 188-189 holds exactly when the byte ranges [a, b) and
    [c, d) have a byte in common. *)
Theorem intersection_test_is_overlap a b c d :
  a < b -> c < d -> ~ (a = c /\ b = d) ->
  (intersects a b c d = true <-> share_a_byte a b c d).
Proof.
  intros Hab Hcd Hne.
  rewrite (intersects_share_a_byte a b c d Hab Hcd). tauto.
Qed.

Lemma intersection_test_is_overlap_witness :
  intersects 8000 8024 8010 8034 = true <-> share_a_byte 8000 8024 8010 8034.
Proof.
  apply (intersection_test_is_overlap 8000 8024 8010 8034); lia.
Defined.

(* the test of lines 188-189 is symmetric in the two ranges *)
Lemma intersects_sym a b c d : intersects a b c d = intersects c d a b.
Proof.
  unfold intersects.
  destruct (a <? c), (c <? b), (a <? d), (d <? b), (c <? a), (b <? d);
    reflexivity.
Qed.

Lemma only_loads_no_report t lvl m :
  only_loads t = true -> ~ In (Ereport lvl m) t.
Proof.
  unfold only_loads. rewrite forallb_forall. intros H Hin.
  specialize (H _ Hin). discriminate.
Qed.

Lemma warnings_in_In q t m :
  warnings_in q t = true -> In (Ereport WARNING m) t -> q m = true.
Proof.
  unfold warnings_in. rewrite forallb_forall. intros H Hin.
  exact (H _ Hin).
Qed.

Lemma In_ereport e lvl m : In e (trace (ereport lvl m)) <-> Ereport lvl m = e.
Proof. simpl. tauto. Qed.

Lemma In_ret {A} e (x : A) : In e (trace (ret x)) <-> False.
Proof. reflexivity. Qed.

Section Pairs.

Context {build : Build}.
Variable len_indeterminate : Z -> Z -> Z.

Lemma intersection_loop_In header block i a b count :
  forall j0 nerrs j a' b' c d,
    In (Ereport WARNING (MsgIntersects block (i + 1) j a' b' c d))
       (trace (intersection_loop header block i a b count j0 nerrs))
    <-> (j0 <= j < j0 + Z.of_nat count
         /\ normal_and_intersects header a b j = true
         /\ a' = a /\ b' = b
         /\ c = PG.lp_off (ItemId header j)
         /\ d = PG.lp_off (ItemId header j) + PG.lp_len (ItemId header j)).
Proof.
  induction count as [|count IH]; intros j0 nerrs j a' b' c d.
  - cbn [intersection_loop]. split; [intros [] | intros [H _]; simpl in H; lia].
  - cbn [intersection_loop]. run. fold (ItemId header j0).
    assert (Hload :
      ~ In (Ereport WARNING (MsgIntersects block (i + 1) j a' b' c d))
           (trace (PG.pd_linp Header header j0)))
      by (apply only_loads_no_report; reflexivity).
    assert (Hhere :
      normal_and_intersects header a b j0
      = (PG.lp_flags (ItemId header j0) =? PG.LP_NORMAL)
        && intersects a b (PG.lp_off (ItemId header j0))
             (PG.lp_off (ItemId header j0) + PG.lp_len (ItemId header j0)))
      by reflexivity.
    fold (intersects a b (PG.lp_off (ItemId header j0))
            (PG.lp_off (ItemId header j0) + PG.lp_len (ItemId header j0))).
    assert (Hrange :
      j0 <= j < j0 + Z.of_nat (S count)
      <-> j = j0 \/ j0 + 1 <= j < j0 + 1 + Z.of_nat count) by lia.
    rewrite Hrange. clear Hrange.
    destruct (PG.lp_flags (ItemId header j0) =? PG.LP_NORMAL);
      cbn [negb]; run;
      [destruct (intersects a b _ _); run|];
      rewrite ?in_app_iff, ?In_ereport, ?In_ret, IH;
      cbn [andb] in Hhere.
    + split.
      * intros [H|[[H|[]]|H]]; [contradiction| |].
        -- inversion H; subst. rewrite Hhere. repeat split; auto.
        -- destruct H as (Hr & Hrest). split; [right; exact Hr | exact Hrest].
      * intros ([-> | Hr] & Hn & -> & -> & -> & ->).
        -- right. left. left. reflexivity.
        -- right. right. split; [exact Hr|]. repeat split; auto.
    + split.
      * intros [H|[[]|H]]; [contradiction|].
        destruct H as (Hr & Hrest). split; [right; exact Hr | exact Hrest].
      * intros ([-> | Hr] & Hn & Hrest).
        -- rewrite Hhere in Hn. discriminate.
        -- right. right. split; [exact Hr | split; [exact Hn | exact Hrest]].
    + split.
      * intros [H|[H|H]]; [contradiction | discriminate |].
        destruct H as (Hr & Hrest). split; [right; exact Hr | exact Hrest].
      * intros ([-> | Hr] & Hn & Hrest).
        -- rewrite Hhere in Hn. discriminate.
        -- right. right. split; [exact Hr | split; [exact Hn | exact Hrest]].
Qed.

Lemma check_index_tuple_reports_pair rel header block i j buffer :
  0 <= j < i ->
  let lp := ItemId header i in
  reports_pair len_indeterminate rel header block i j buffer
  <-> normal_and_intersects header (PG.lp_off lp)
        (PG.lp_off lp + PG.lp_len lp) j = true.
Proof.
  intros Hj. cbv zeta. unfold reports_pair, check_index_tuple.
  run. fold (ItemId header i).
  set (a := PG.lp_off (ItemId header i)).
  set (b := a + PG.lp_len (ItemId header i)).
  split.
  - intros (a' & b' & c & d & Hin).
    repeat (rewrite in_app_iff in Hin).
    destruct Hin as [H|[H|[H|[H|[H|[H|[H|H]]]]]]].
    + apply only_loads_no_report in H; [contradiction | reflexivity].
    + apply only_loads_no_report in H; [contradiction | reflexivity].
    + apply only_loads_no_report in H; [contradiction | reflexivity].
    + apply only_loads_no_report in H; [contradiction | reflexivity].
    + destruct H as [H|[]]. discriminate.
    + destruct H as [H|[]]. discriminate.
    + apply intersection_loop_In in H. tauto.
    + destruct (PG.lp_flags (ItemId header i) =? PG.LP_NORMAL);
        [|destruct H].
      rewrite trace_bind, in_app_iff in H. destruct H as [H|[]].
      apply (warnings_in_In is_attribute_message) in H;
        [discriminate | apply check_index_tuple_attributes_reports].
  - intros Hn.
    exists a, b, (PG.lp_off (ItemId header j)),
      (PG.lp_off (ItemId header j) + PG.lp_len (ItemId header j)).
    repeat (rewrite in_app_iff).
    do 6 right. left. apply intersection_loop_In.
    repeat split; auto; lia.
Qed.

(** X2.  For two LP_NORMAL slots j < i, whether check_index_tuple reports
    the pair when it checks slot i does not depend on which of the two line
    pointers is stored in which slot: on a page where the two line pointers
    are exchanged the pair is reported if and only if it is reported on the
    page as it is.  (The flag of the earlier slot alone decides whether the
    pair is compared at all, so this holds for LP_NORMAL slots only.) *)
Theorem intersection_report_symmetric (rel : Relation) (h1 h2 : mem)
    (block i j : Z) (buffer1 buffer2 : mem) :
  0 <= j < i ->
  ItemId h2 i = ItemId h1 j ->
  ItemId h2 j = ItemId h1 i ->
  PG.lp_flags (ItemId h1 i) = PG.LP_NORMAL ->
  PG.lp_flags (ItemId h1 j) = PG.LP_NORMAL ->
  (reports_pair len_indeterminate rel h1 block i j buffer1
   <-> reports_pair len_indeterminate rel h2 block i j buffer2).
Proof.
  intros Hj Hi2 Hj2 Hfi Hfj.
  rewrite !check_index_tuple_reports_pair by assumption.
  unfold normal_and_intersects. rewrite Hi2, Hj2, Hfi, Hfj.
  rewrite intersects_sym. reflexivity.
Qed.

End Pairs.

Lemma intersection_report_symmetric_witness :
  reports_pair (build := pg_x86_64) (Page.len_holds 0) [Page.int4]
    (Page.two_items 8000 8010) 1 1 0 (Page.two_items 8000 8010)
  <-> reports_pair (build := pg_x86_64) (Page.len_holds 0) [Page.int4]
        (Page.two_items 8010 8000) 1 1 0 (Page.two_items 8010 8000).
Proof.
  apply (intersection_report_symmetric (build := pg_x86_64)
           (Page.len_holds 0) [Page.int4] (Page.two_items 8000 8010)
           (Page.two_items 8010 8000) 1 1 0 (Page.two_items 8000 8010)
           (Page.two_items 8010 8000)).
  - lia.
  - vm_compute. reflexivity.
  - vm_compute. reflexivity.
  - vm_compute. reflexivity.
  - vm_compute. reflexivity.
Defined.

(* the same two ranges, one of them LP_DEAD: the pair is reported when the
   LP_NORMAL slot is the earlier one and not when the LP_DEAD slot is *)
Example earlier_dead_slot_is_not_compared :
  reports_pair (build := pg_x86_64) (Page.len_holds 0) [Page.int4]
    Page.dead_over_normal 1 1 0 Page.dead_over_normal
  /\ ~ reports_pair (build := pg_x86_64) (Page.len_holds 0) [Page.int4]
         Page.normal_over_dead 1 1 0 Page.normal_over_dead
  /\ value (check_index_tuple (build := pg_x86_64) (Page.len_holds 0)
              [Page.int4] Page.normal_over_dead 1 1 Page.normal_over_dead)
     = 0.
Proof.
  split; [|split].
  - apply check_index_tuple_reports_pair; [lia|]. vm_compute. reflexivity.
  - intros H. apply check_index_tuple_reports_pair in H; [|lia].
    vm_compute in H. discriminate.
  - vm_compute. reflexivity.
Qed.

(** X3.  A range of length zero passes the test against [c, d] exactly when
    its offset lies strictly between c and d, although it has no byte in
    common with anything; touching ranges (b = c) do not pass. *)
Theorem intersection_test_empty_and_touching a b d :
  intersects a a b d = (b <? a) && (a <? d)
  /\ (a < b -> b < d -> intersects a b b d = false)
  /\ ~ share_a_byte a a b d.
Proof.
  split; [|split].
  - unfold intersects.
    destruct (a <? b) eqn:E1, (b <? a) eqn:E2, (a <? d) eqn:E3,
      (d <? a) eqn:E4; try reflexivity;
      rewrite ?Z.ltb_lt, ?Z.ltb_ge in *; lia.
  - intros Hab Hbd. apply intersects_disjoint; try lia.
    intros [x Hx]. lia.
  - intros [x Hx]. lia.
Qed.

(** ** BlockNum *)

Lemma lor_high_low h l :
  0 <= l < 2 ^ 16 -> Z.lor (h * 2 ^ 16) l = h * 2 ^ 16 + l.
Proof.
  intros Hl. rewrite <- Z.shiftl_mul_pow2 by lia.
  assert (Hland : Z.land (Z.shiftl h 16) l = 0).
  { apply Z.bits_inj'. intros n Hn.
    rewrite Z.land_spec, Z.bits_0, Z.shiftl_spec by lia.
    destruct (Z_lt_le_dec n 16).
    - rewrite Z.testbit_neg_r by lia. reflexivity.
    - destruct (Z.eq_dec l 0) as [->|];
        [rewrite Z.bits_0; apply andb_false_r|].
      rewrite (Z.bits_above_log2 l n); [apply andb_false_r | lia |].
      assert (Z.log2 l < 16) by (apply Z.log2_lt_pow2; lia). lia. }
  rewrite <- (Z.add_lor_land (Z.shiftl h 16) l), Hland. lia.
Qed.

(** X4.  BlockNum puts the two halves of the block id together: read as
    the unsigned 32-bit BlockNumber its value is bi_hi * 65536 + bi_lo for
    every tuple; as the int the macro yields it is that number when bi_hi
    is below 0x8000 and negative otherwise. *)
Theorem BlockNum_value (r : region) (m : mem) (tuple : Z) :
  let bi_hi := u16_at m tuple in
  let bi_lo := u16_at m (tuple + 2) in
  let block := value (BlockNum r m tuple) in
  C.uint32 block = bi_hi * 65536 + bi_lo
  /\ (bi_hi < 32768 -> block = bi_hi * 65536 + bi_lo)
  /\ (32768 <= bi_hi -> block < 0).
Proof.
  cbv zeta. unfold BlockNum. run.
  change (value (load16 r m tuple)) with (u16_at m tuple).
  change (value (load16 r m (tuple + 2))) with (u16_at m (tuple + 2)).
  assert (Hhi := u16_at_range m tuple).
  assert (Hlo := u16_at_range m (tuple + 2)).
  set (hi := u16_at m tuple) in *. set (lo := u16_at m (tuple + 2)) in *.
  unfold C.uint16. rewrite (Z.mod_small lo) by lia.
  rewrite Z.shiftl_mul_pow2 by lia.
  destruct (Z_lt_le_dec hi 32768) as [Hsmall|Hbig].
  - rewrite int_small by lia. rewrite lor_high_low by lia.
    change (2 ^ 16) with 65536.
    split; [apply uint32_small; lia|]. split; [reflexivity | lia].
  - replace (C.int (hi * 2 ^ 16)) with ((hi - 65536) * 2 ^ 16).
    2:{ unfold C.int. symmetry.
        replace (hi * 2 ^ 16 + 2 ^ 31)
          with ((hi * 2 ^ 16 - 2 ^ 32 + 2 ^ 31) + 1 * 2 ^ 32) by lia.
        rewrite Z.mod_add by lia. rewrite Z.mod_small; lia. }
    rewrite lor_high_low by lia. change (2 ^ 16) with 65536.
    split; [|split; lia].
    unfold C.uint32.
    replace ((hi - 65536) * 65536 + lo)
      with ((hi * 65536 + lo) + (-1) * 2 ^ 32) by lia.
    rewrite Z.mod_add by lia. apply Z.mod_small. lia.
Qed.

Lemma BlockNum_value_witness :
  value (BlockNum Buffer (Page.poke16 8000 3 (Page.poke16 8002 7 Page.zeroes))
                  8000) = 3 * 65536 + 7.
Proof.
  apply (proj1 (proj2 (BlockNum_value Buffer
           (Page.poke16 8000 3 (Page.poke16 8002 7 Page.zeroes)) 8000))).
  vm_compute. reflexivity.
Defined.

(** ** Pages and tuples without data *)

Section Edge_cases.

Context {build : Build}.
Variable check_page_header : mem -> Z -> Z * list (elevel * string).
Variable len_indeterminate : Z -> Z -> Z.

(** X5.  On a non-leaf page, for the tuple at P_FIRSTDATAKEY with dlen = 0,
    check_index_tuple_attributes returns 0 whatever the relation is: it
    reads the line pointer, pd_special, t_info and the two trailer fields
    that decide the case, reports nothing but DEBUG messages and looks at
    no attribute. *)
Theorem first_data_key_without_data (rel : Relation) (header : mem)
    (block offnum : Z) (buffer : mem) :
  let special := value (PG.pd_special Header header) in
  let linp := ItemId header (offnum - 1) in
  value (PG.P_ISLEAF Buffer buffer special) = false ->
  offnum = value (PG.P_FIRSTDATAKEY Buffer buffer special) ->
  check_index_tuple_attributes len_indeterminate rel header block offnum
                               buffer 0
  = (0,
     [Ereport DEBUG2 (MsgCheckingAttributes block offnum);
      Load Header (PG.SizeOfPageHeaderData
                   + PG.sizeof_ItemIdData * (offnum - 1)) 4;
      Load Header 16 2;
      Load Buffer (PG.lp_off linp + 6) 2;
      Ereport DEBUG3 (MsgNumberOfAttributes block offnum (natts rel));
      Load Buffer (special + 12) 2;
      Load Buffer (special + 4) 4;
      Ereport DEBUG3 (MsgFirstDataKey block offnum)]).
Proof.
  cbv zeta. intros Hleaf Hfirst.
  assert (Hnodata :
    value (if negb (value (PG.P_ISLEAF Buffer buffer
                             (value (PG.pd_special Header header))))
           then first <- PG.P_FIRSTDATAKEY Buffer buffer
                           (value (PG.pd_special Header header)) ;;
                ret ((offnum =? first) && (0 =? 0))
           else ret false) = true).
  { rewrite Hleaf. cbn [negb]. run. rewrite <- Hfirst, Z.eqb_refl.
    reflexivity. }
  apply M_eq.
  - unfold check_index_tuple_attributes. run. rewrite Hnodata. reflexivity.
  - unfold check_index_tuple_attributes. run. rewrite Hnodata, Hleaf.
    reflexivity.
Qed.

(** X6.  A page whose pd_lower leaves no room for a line pointer (pd_lower
    at most SizeOfPageHeaderData) has no tuples: check_index_tuples reads
    pd_lower, reports the tuple count 0 at DEBUG1, checks no slot and
    returns 0. *)
Theorem check_index_tuples_no_items (rel : Relation) (header buffer : mem)
    (block : Z) :
  value (PG.pd_lower Buffer buffer) <= PG.SizeOfPageHeaderData ->
  check_index_tuples len_indeterminate rel header buffer block
  = (0, [Load Buffer 12 2; Ereport DEBUG1 (MsgMaxTuples block 0)]).
Proof.
  intros Hlower. apply Z.leb_le in Hlower.
  assert (Hmax : value (PG.PageGetMaxOffsetNumber Buffer buffer) = 0).
  { unfold PG.PageGetMaxOffsetNumber. run. rewrite Hlower. reflexivity. }
  apply M_eq; unfold check_index_tuples; run; rewrite Hmax;
    reflexivity.
Qed.

(** X7.  check_index_page adds to the count of check_page_header one for
    each WARNING it reports itself, and it reports at most two: the magic
    number and the version on the meta page, the special space and the
    level on a regular page. *)
Theorem check_index_page_adds_at_most_two (header buffer : mem) (block : Z) :
  let page := check_index_page check_page_header header buffer block in
  let own := count_warnings is_index_message (trace page) in
  0 <= own <= 2
  /\ value page = C.uint32 (fst (check_page_header header block) + own).
Proof.
  cbv zeta. destruct (Z.eq_dec block PG.BTREE_METAPAGE) as [->|Hblock].
  - rewrite check_index_page_meta by reflexivity. cbn [is_index_message].
    unfold check_index_page.
    replace (PG.BTREE_METAPAGE =? PG.BTREE_METAPAGE) with true by reflexivity.
    run. rewrite call_check_page_header_value.
    destruct (value (PG.btm_magic Buffer buffer PG.BTPageGetMeta)
              =? BTREE_MAGIC);
      destruct (value (PG.btm_version Buffer buffer PG.BTPageGetMeta)
                =? BTREE_VERSION);
      cbn [negb]; run; (split; [lia | norm32]).
  - unfold check_index_page. apply Z.eqb_neq in Hblock. rewrite Hblock.
    run. rewrite !count_warnings_app.
    rewrite !call_check_page_header_count by reflexivity.
    rewrite call_check_page_header_value.
    set (special := value (PG.pd_special Header header)).
    destruct (special >? C.size_t (BLCKSZ - sizeof_BTPageOpaque)); run;
      destruct (value (PG.P_ISDELETED Buffer buffer special));
      cbn [negb]; run;
      try (destruct (value (PG.P_ISLEAF Buffer buffer special));
           destruct (value (PG.btpo_level Buffer buffer special) =? 0);
           cbn [negb]; run);
      (split; [cbn; lia | norm32; f_equal; cbn; lia]).
Qed.

End Edge_cases.

Lemma first_data_key_without_data_witness :
  value (check_index_tuple_attributes (build := pg_x86_64)
           (Page.len_holds 0) [Page.text; Page.cstring]
           (Page.set_linp 0 8000 PG.LP_NORMAL 8 (Page.inner 8176 1)) 1 1
           (Page.set_linp 0 8000 PG.LP_NORMAL 8 (Page.inner 8176 1)) 0) = 0.
Proof.
  rewrite (first_data_key_without_data (build := pg_x86_64)
             (Page.len_holds 0) [Page.text; Page.cstring]
             (Page.set_linp 0 8000 PG.LP_NORMAL 8 (Page.inner 8176 1)) 1 1
             (Page.set_linp 0 8000 PG.LP_NORMAL 8 (Page.inner 8176 1)));
    reflexivity.
Defined.

Lemma check_index_tuples_no_items_witness :
  value (check_index_tuples (build := pg_x86_64) (Page.len_holds 0)
           [Page.int4] (Page.leaf 8176 0) (Page.leaf 8176 0) 1) = 0.
Proof.
  rewrite (check_index_tuples_no_items (build := pg_x86_64)
             (Page.len_holds 0) [Page.int4] (Page.leaf 8176 0)
             (Page.leaf 8176 0) 1).
  - reflexivity.
  - vm_compute. discriminate.
Defined.

(** ** Counts and reports *)

Section Counts.

Context {build : Build}.
Variable len_indeterminate : Z -> Z -> Z.

(** X8.  The count check_index_tuple returns is the number of WARNINGs it
    reports, DEBUG reports never counting: at most one per earlier slot
    for intersections, and at most two per attribute and one for the final
    offset from check_index_tuple_attributes. *)
Theorem check_index_tuple_returns_warnings (rel : Relation) (header : mem)
    (block i : Z) (buffer : mem) :
  0 <= i < 2 ^ 31 -> natts rel < 2 ^ 30 ->
  let tuple :=
    check_index_tuple len_indeterminate rel header block i buffer in
  let attributes :=
    check_index_tuple_attributes len_indeterminate rel header block
                                 (C.uint16 (i + 1)) buffer
                                 (value (tuple_dlen buffer
                                           (PG.lp_off (ItemId header i)))) in
  value tuple = W (trace tuple)
  /\ W (trace tuple) <= i + (2 * natts rel + 1)
  /\ value attributes = W (trace attributes)
  /\ W (trace attributes) <= 2 * natts rel + 1.
Proof.
  intros Hi Hnatts. cbv zeta.
  destruct (check_index_tuple_count len_indeterminate rel header block i
              buffer) as [Hv Hb].
  match goal with
  | |- context [check_index_tuple_attributes ?x1 ?x2 ?x3 ?x4 ?x5 ?x6 ?x7] =>
      destruct (check_index_tuple_attributes_count x1 x2 x3 x4 x5 x6 x7)
        as [Hv' Hb']
  end.
  rewrite Hv, Hv'. rewrite !uint32_small by lia. lia.
Qed.

Lemma check_index_tuple_reports rel header block i buffer :
  warnings_in (fun m => is_intersection_error m || is_attribute_message m)
    (trace (check_index_tuple len_indeterminate rel header block i buffer))
  = true.
Proof.
  unfold check_index_tuple, tuple_dlen, PG.pd_linp, PG.IndexTupleSize,
    PG.t_info, load16, load32.
  assert (Hloop : forall a b count j nerrs,
    warnings_in (fun m => is_intersection_error m || is_attribute_message m)
      (trace (intersection_loop header block i a b count j nerrs)) = true).
  { intros a b count. induction count as [|count IH]; intros j nerrs;
      cbn [intersection_loop]; [reflexivity|].
    unfold PG.pd_linp, load32.
    repeat (warnings_in_step || apply IH); reflexivity. }
  assert (Hattrs : forall offnum dlen,
    warnings_in (fun m => is_intersection_error m || is_attribute_message m)
      (trace (check_index_tuple_attributes len_indeterminate rel header block
                                           offnum buffer dlen)) = true).
  { intros offnum dlen.
    assert (H := check_index_tuple_attributes_reports len_indeterminate rel
                   header block offnum buffer dlen).
    unfold warnings_in in *. rewrite forallb_forall in *.
    intros e He. specialize (H e He).
    destruct e as [|[] m]; try reflexivity. simpl in *. rewrite H.
    apply orb_true_r. }
  repeat (warnings_in_step || apply Hloop || apply Hattrs); reflexivity.
Qed.

Lemma tuples_loop_reports rel header block buffer count : forall i nerrs,
  warnings_in (fun m => is_intersection_error m || is_attribute_message m)
    (trace (tuples_loop len_indeterminate rel header block buffer count i
                        nerrs)) = true.
Proof.
  induction count as [|count IH]; intros i nerrs; cbn [tuples_loop].
  - reflexivity.
  - apply warnings_in_bind; [apply check_index_tuple_reports|].
    intros n. apply IH.
Qed.

Lemma tuples_loop_count rel header block buffer count : forall i nerrs,
  0 <= nerrs < 2 ^ 32 -> 0 <= i ->
  let loop :=
    tuples_loop len_indeterminate rel header block buffer count i nerrs in
  value loop = C.uint32 (nerrs + W (trace loop))
  /\ 0 <= W (trace loop)
       <= Z.of_nat count * (i + Z.of_nat count + (2 * natts rel + 1)).
Proof.
  induction count as [|count IH]; intros i nerrs Hn Hi; cbv zeta.
  - cbn. split; [apply uint32_add_0; assumption | lia].
  - cbn [tuples_loop]. run. rewrite count_warnings_app.
    destruct (check_index_tuple_count len_indeterminate rel header block i
                buffer) as [Hv Hb].
    rewrite Z2Nat.id in Hb by assumption.
    set (n := value (check_index_tuple len_indeterminate rel header block i
                                       buffer)) in *.
    destruct (IH (i + 1) (C.uint32 (nerrs + n))) as [Hv' Hb'];
      [apply uint32_range | lia |].
    rewrite Hv'. split.
    + subst n. rewrite Hv. unfold C.uint32.
      rewrite Zplus_mod_idemp_l.
      rewrite <- (Zplus_mod_idemp_l (nerrs + _ mod _)).
      rewrite Zplus_mod_idemp_r, Zplus_mod_idemp_l. f_equal. lia.
    + assert (Hnatts : 0 <= natts rel) by (unfold natts; lia).
      rewrite Nat2Z.inj_succ. nia.
Qed.

(** X9.  For a relation of at most 32767 attributes, the count
    check_index_tuples returns is the number of WARNINGs reported for its
    tuples.  It ends with one more WARNING, that the page is probably
    corrupted, exactly when that count is not zero; the message carries
    the count and is not itself counted. *)
Theorem check_index_tuples_summary (rel : Relation) (header buffer : mem)
    (block : Z) :
  natts rel <= 32767 ->
  let page := check_index_tuples len_indeterminate rel header buffer block in
  let summary := if value page >? 0 then 1 else 0 in
  count_warnings is_summary (trace page) = summary
  /\ W (trace page) = value page + summary
  /\ (value page > 0 ->
      exists before,
        trace page
        = before ++ [Ereport WARNING
                       (MsgProbablyCorrupted block (value page))]).
Proof.
  intros Hnatts. cbv zeta. unfold check_index_tuples. run.
  set (ntuples := C.int (value (PG.PageGetMaxOffsetNumber Buffer buffer))).
  set (loop := tuples_loop len_indeterminate rel header block buffer
                           (Z.to_nat ntuples) 0 0).
  assert (Hloop : count_warnings is_summary (trace loop) = 0).
  { apply (count_warnings_outside _ _ _ (tuples_loop_reports _ _ _ _ _ _ _)).
    intros []; simpl; congruence. }
  assert (Hn : 0 <= Z.of_nat (Z.to_nat ntuples) <= 16377).
  { subst ntuples. assert (H := PageGetMaxOffsetNumber_range Buffer buffer).
    rewrite int_small by lia. lia. }
  destruct (tuples_loop_count rel header block buffer (Z.to_nat ntuples) 0 0)
    as [Hv Hb]; [lia | lia |].
  fold loop in Hv, Hb.
  assert (Hexact : value loop = W (trace loop)).
  { rewrite Hv, Z.add_0_l. apply uint32_small.
    assert (0 <= natts rel) by (unfold natts; lia). nia. }
  rewrite !count_warnings_app, Hloop. quiet.
  split; [|split].
  - destruct (value loop >? 0); reflexivity.
  - rewrite Hexact. destruct (W (trace loop) >? 0); cbn; lia.
  - intros Hpos. rewrite (proj2 (Z.gtb_lt (value loop) 0)) by lia.
    exists (trace (PG.PageGetMaxOffsetNumber Buffer buffer)
            ++ trace (ereport DEBUG1 (MsgMaxTuples block ntuples))
            ++ trace loop).
    assert (Hint : C.int (value loop) = value loop).
    { apply int_small. rewrite Hexact.
      assert (0 <= natts rel) by (unfold natts; lia). nia. }
    rewrite Hint.
    cbn [trace snd ereport ret bind app]. rewrite <- !app_assoc.
    reflexivity.
Qed.

End Counts.

Lemma check_index_tuple_returns_warnings_witness :
  value (check_index_tuple (build := pg_x86_64) (Page.len_holds 0)
           [Page.int4] Page.dead_over_normal 1 1 Page.dead_over_normal)
  = W (trace (check_index_tuple (build := pg_x86_64) (Page.len_holds 0)
                [Page.int4] Page.dead_over_normal 1 1
                Page.dead_over_normal)).
Proof.
  apply (check_index_tuple_returns_warnings (build := pg_x86_64)
           (Page.len_holds 0) [Page.int4] Page.dead_over_normal 1 1
           Page.dead_over_normal).
  - lia.
  - vm_compute. reflexivity.
Defined.

Lemma check_index_tuples_summary_witness :
  W (trace (check_index_tuples (build := pg_x86_64) (Page.len_holds 0)
              [Page.text] (Page.compressed 2097152)
              (Page.compressed 2097152) 1)) = 1 + 1.
Proof.
  assert (Hnatts : natts [Page.text] <= 32767) by (vm_compute; discriminate).
  exact (proj1 (proj2 (check_index_tuples_summary (build := pg_x86_64)
           (Page.len_holds 0) [Page.text] (Page.compressed 2097152)
           (Page.compressed 2097152) 1 Hnatts))).
Defined.

(** ** Varlena attributes *)

(* as [loads], for goals [warnings_in q t = true] *)
Ltac reports :=
  repeat first
    [ progress run
    | rewrite warnings_in_app
    | apply andb_true_intro; split
    | reflexivity
    | apply warnings_in_only_loads;
      first [ reflexivity
            | apply VARSIZE_ANY_reads
            | apply VARATT_IS_COMPRESSED_reads
            | apply VARRAWSIZE_4B_C_reads ]
    | match goal with
      | |- warnings_in _ (trace (if ?c then _ else _)) = true =>
          destruct c eqn:?
      end ].

Section Varlena_attributes.

Context {build : Build}.
Variable len_indeterminate : Z -> Z -> Z.

Lemma attribute_length_never_negative block offnum buffer linp j attr off
    nerrs :
  pg_varlena build ->
  warnings_in not_negative_length
    (trace (attribute_length len_indeterminate block offnum buffer linp j
                             attr off nerrs)) = true.
Proof.
  intros [Hsize _]. unfold attribute_length.
  destruct (negb (PG.attbyval attr) && (PG.attlen attr =? -1)).
  - run. rewrite Hsize.
    assert (Hrange := varlena_size_range buffer off).
    rewrite (int_small (value _)) by lia.
    replace (value (Varlena.VARSIZE_ANY buffer off) <? 0) with false
      by (symmetry; apply Z.ltb_ge; lia).
    rewrite <- Hsize. reports.
  - unfold strnlen. reports.
Qed.

(** X10.  With PostgreSQL's varlena macros the decoded length is one of a
    7-bit, an 8-bit or a 30-bit field, never negative: no page makes
    check_index_tuples report a negative attribute length. *)
Theorem negative_length_never_reported (rel : Relation)
    (header buffer : mem) (block : Z) :
  pg_varlena build ->
  count_warnings is_negative_length_error
    (trace (check_index_tuples len_indeterminate rel header buffer block))
  = 0.
Proof.
  intros Hpg.
  apply (count_warnings_outside _ not_negative_length);
    [|intros m; unfold not_negative_length;
      destruct (is_negative_length_error m); simpl; congruence].
  assert (Hbody : forall offnum dlen linp tuple bitmap j attr off nerrs,
    warnings_in not_negative_length
      (trace (attribute_body len_indeterminate block offnum buffer dlen linp
                             tuple bitmap j attr off nerrs)) = true).
  { intros. unfold attribute_body, PG.IndexTupleHasNulls, PG.att_isnull,
      PG.att_align_pointer, PG.VARATT_NOT_PAD_BYTE, PG.t_info.
    repeat (warnings_in_step
            || (apply attribute_length_never_negative; assumption));
      reflexivity. }
  assert (Hloop : forall offnum dlen linp tuple bitmap attrs j off nerrs,
    warnings_in not_negative_length
      (trace (attributes_loop len_indeterminate block offnum buffer dlen linp
                              tuple bitmap attrs j off nerrs)) = true).
  { intros offnum dlen linp tuple bitmap attrs.
    induction attrs as [|attr rest IH]; intros j off nerrs;
      cbn [attributes_loop]; [reflexivity|].
    apply warnings_in_bind; [apply Hbody|].
    intros [off' nerrs'|off' nerrs']; [apply IH | reflexivity]. }
  assert (Hattrs : forall offnum dlen,
    warnings_in not_negative_length
      (trace (check_index_tuple_attributes len_indeterminate rel header block
                                           offnum buffer dlen)) = true).
  { intros. unfold check_index_tuple_attributes, PG.pd_linp, PG.pd_special,
      PG.t_info, PG.P_ISLEAF, PG.P_FIRSTDATAKEY, PG.P_RIGHTMOST,
      PG.btpo_flags, PG.btpo_next.
    repeat (warnings_in_step || apply Hloop); reflexivity. }
  assert (Hinter : forall i a b count j nerrs,
    warnings_in not_negative_length
      (trace (intersection_loop header block i a b count j nerrs)) = true).
  { intros i a b count. induction count as [|count IH]; intros j nerrs;
      cbn [intersection_loop]; [reflexivity|].
    unfold PG.pd_linp, load32.
    repeat (warnings_in_step || apply IH); reflexivity. }
  assert (Htuple : forall i,
    warnings_in not_negative_length
      (trace (check_index_tuple len_indeterminate rel header block i buffer))
    = true).
  { intros. unfold check_index_tuple, tuple_dlen, PG.pd_linp,
      PG.IndexTupleSize, PG.t_info, load16, load32.
    repeat (warnings_in_step || apply Hinter || apply Hattrs);
      reflexivity. }
  assert (Htuples : forall count i nerrs,
    warnings_in not_negative_length
      (trace (tuples_loop len_indeterminate rel header block buffer count i
                          nerrs)) = true).
  { induction count as [|count IH]; intros i nerrs; cbn [tuples_loop];
      [reflexivity|].
    apply warnings_in_bind; [apply Htuple | intros; apply IH]. }
  unfold check_index_tuples, PG.PageGetMaxOffsetNumber, PG.pd_lower, load16.
  repeat (warnings_in_step || apply Htuples); reflexivity.
Qed.

(** X11.  A varlena whose decoded length is not negative always yields
    that length to the bounds check, whatever its header says about
    compression: the raw size of a compressed value is reported, and
    counted once, exactly when it is below 0 or above 1024*1024, and the
    report does not end the loop. *)
Theorem raw_size_error_does_not_end_the_loop (block offnum : Z)
    (buffer : mem) (linp : PG.ItemIdData) (j : Z)
    (attr : PG.FormData_pg_attribute) (off nerrs : Z) :
  PG.attbyval attr = false -> PG.attlen attr = -1 ->
  0 <= C.int (value (VARSIZE_ANY buffer off)) ->
  let rawsize := value (VARRAWSIZE_4B_C buffer off) in
  let rejected :=
    value (VARATT_IS_COMPRESSED buffer off)
    && ((rawsize <? 0) || (rawsize >? 1024 * 1024)) in
  let measure :=
    attribute_length len_indeterminate block offnum buffer linp j attr off
                     nerrs in
  value measure
  = inl (C.int (value (VARSIZE_ANY buffer off)),
         if rejected then C.uint32 (nerrs + 1) else nerrs)
  /\ count_warnings is_raw_length_error (trace measure)
     = (if rejected then 1 else 0)
  /\ W (trace measure) = (if rejected then 1 else 0).
Proof.
  intros Hbyval Hlen Hsize. cbv zeta. unfold attribute_length.
  rewrite Hbyval, Hlen. cbn [negb andb Z.eqb Pos.eqb]. run.
  replace (C.int (value (VARSIZE_ANY buffer off)) <? 0) with false
    by (symmetry; apply Z.ltb_ge; lia).
  run.
  destruct (value (VARATT_IS_COMPRESSED buffer off)); cbn [andb]; run;
    [destruct ((value (VARRAWSIZE_4B_C buffer off) <? 0)
               || (value (VARRAWSIZE_4B_C buffer off) >? 1024 * 1024));
     run|];
    quiet; repeat split.
Qed.

(** X12.  An attribute marked as NULL takes no room and is not looked at:
    when every attribute from j on is NULL, the attribute loop ends with
    the offset and the error count it began with and reports no error. *)
Theorem null_attributes_are_skipped (block offnum : Z) (buffer : mem)
    (dlen : Z) (linp : PG.ItemIdData) (tuple bitmap : Z)
    (attrs : list PG.FormData_pg_attribute) : forall (j off nerrs : Z),
  (forall k, j <= k < j + Z.of_nat (List.length attrs) ->
             attribute_is_null buffer tuple bitmap k = true) ->
  let loop :=
    attributes_loop len_indeterminate block offnum buffer dlen linp tuple
                    bitmap attrs j off nerrs in
  value loop = (off, nerrs) /\ W (trace loop) = 0.
Proof.
  induction attrs as [|attr rest IH]; intros j off nerrs Hnull; cbv zeta.
  - split; reflexivity.
  - cbn [attributes_loop List.length] in *. run.
    assert (Hj := Hnull j ltac:(lia)).
    assert (Hisnull :
      value (if value (PG.IndexTupleHasNulls Buffer buffer tuple)
             then PG.att_isnull Buffer buffer j bitmap else ret false)
      = true).
    { unfold attribute_is_null in Hj.
      destruct (value (PG.IndexTupleHasNulls Buffer buffer tuple));
        [exact Hj | discriminate]. }
    assert (Hbody :
      value (attribute_body len_indeterminate block offnum buffer dlen linp
                            tuple bitmap j attr off nerrs) = Next off nerrs
      /\ W (trace (attribute_body len_indeterminate block offnum buffer dlen
                                  linp tuple bitmap j attr off nerrs)) = 0).
    { unfold attribute_body. run. rewrite Hisnull. run. quiet.
      split; reflexivity. }
    destruct Hbody as [Hv Hw]. rewrite Hv, count_warnings_app, Hw.
    destruct (IH (j + 1) off nerrs) as [Hv' Hw'];
      [intros k Hk; apply Hnull; lia|].
    rewrite Hv', Hw'. split; reflexivity.
Qed.

End Varlena_attributes.

Lemma negative_length_never_reported_witness :
  count_warnings is_negative_length_error
    (trace (check_index_tuples (build := pg_x86_64) (Page.len_holds 0)
              [Page.text] Page.all_ones Page.all_ones 1)) = 0.
Proof.
  apply (negative_length_never_reported (build := pg_x86_64)
           (Page.len_holds 0) [Page.text] Page.all_ones Page.all_ones 1).
  repeat split; reflexivity.
Defined.

Lemma raw_size_error_does_not_end_the_loop_witness :
  value (attribute_length (build := pg_x86_64) (Page.len_holds 0) 1 1
           (Page.compressed 2097152) (ItemId (Page.compressed 2097152) 0)
           0 Page.text 8008 0) = inl (16, 1).
Proof.
  apply (proj1 (raw_size_error_does_not_end_the_loop (build := pg_x86_64)
           (Page.len_holds 0) 1 1 (Page.compressed 2097152)
           (ItemId (Page.compressed 2097152) 0) 0 Page.text 8008 0
           eq_refl eq_refl ltac:(vm_compute; discriminate))).
Defined.

Lemma null_attributes_are_skipped_witness :
  value (attributes_loop (build := pg_x86_64) (Page.len_holds 0) 1 1
           Page.all_null 0 (ItemId Page.all_null 0) 8000 8008
           [Page.int4; Page.text] 0 8016 0) = (8016, 0).
Proof.
  assert (Hnull : forall k,
            0 <= k < 0 + Z.of_nat (List.length [Page.int4; Page.text]) ->
            attribute_is_null Page.all_null 8000 8008 k = true).
  { intros k Hk. cbn [List.length] in Hk.
    assert (Hcases : k = 0 \/ k = 1) by lia.
    destruct Hcases as [-> | ->]; reflexivity. }
  exact (proj1 (null_attributes_are_skipped (build := pg_x86_64)
           (Page.len_holds 0) 1 1 Page.all_null 0 (ItemId Page.all_null 0)
           8000 8008 [Page.int4; Page.text] 0 8016 0 Hnull)).
Defined.

(** ** C strings *)

Lemma strnlen_scan_bounds m s fuel : forall k,
  k <= strnlen_scan m s fuel k <= k + Z.of_nat fuel.
Proof.
  induction fuel as [|fuel IH]; intros k; cbn [strnlen_scan]; [lia|].
  destruct (u8_at m (s + k) =? 0); [lia|].
  specialize (IH (k + 1)). lia.
Qed.

Lemma strnlen_scan_nonzero_prefix m s fuel : forall k r,
  0 <= r <= Z.of_nat fuel ->
  (forall x, k <= x < k + r -> u8_at m (s + x) <> 0) ->
  k + r <= strnlen_scan m s fuel k.
Proof.
  induction fuel as [|fuel IH]; intros k r Hr Hnz; cbn [strnlen_scan];
    [lia|].
  destruct (Z.eq_dec r 0) as [->|Hpos].
  - destruct (u8_at m (s + k) =? 0); [lia|].
    assert (H := strnlen_scan_bounds m s fuel (k + 1)). lia.
  - assert (Hk : u8_at m (s + k) <> 0) by (apply Hnz; lia).
    apply Z.eqb_neq in Hk. rewrite Hk.
    specialize (IH (k + 1) (r - 1)).
    replace (k + 1 + (r - 1)) with (k + r) in IH by lia.
    apply IH; [lia|]. intros x Hx. apply Hnz. lia.
Qed.

Lemma strnlen_scan_terminator m s fuel : forall k n,
  0 <= n < Z.of_nat fuel ->
  u8_at m (s + (k + n)) = 0 ->
  (forall x, k <= x < k + n -> u8_at m (s + x) <> 0) ->
  strnlen_scan m s fuel k = k + n.
Proof.
  induction fuel as [|fuel IH]; intros k n Hn Hzero Hnz; [simpl in Hn; lia|].
  cbn [strnlen_scan].
  destruct (Z.eq_dec n 0) as [->|Hpos].
  - rewrite Z.add_0_r in *. rewrite Hzero. reflexivity.
  - assert (Hk : u8_at m (s + k) <> 0) by (apply Hnz; lia).
    apply Z.eqb_neq in Hk. rewrite Hk.
    rewrite (IH (k + 1) (n - 1)); [lia | lia | |].
    + replace (k + 1 + (n - 1)) with (k + n) by lia. exact Hzero.
    + intros x Hx. apply Hnz. lia.
Qed.

Section C_strings.

Context {build : Build}.
Variable len_indeterminate : Z -> Z -> Z.

Variables (block offnum : Z) (buffer : mem) (dlen : Z) (linp : PG.ItemIdData)
          (tuple bitmap j : Z) (attr : PG.FormData_pg_attribute)
          (off nerrs : Z).

Let off' := aligned_offset buffer attr off.
Let tuple_end := PG.lp_off linp + PG.lp_len linp.
Let body :=
  attribute_body len_indeterminate block offnum buffer dlen linp tuple bitmap
                 j attr off nerrs.
Let measure :=
  attribute_length len_indeterminate block offnum buffer linp j attr off'
                   nerrs.

Hypothesis Hnull : attribute_is_null buffer tuple bitmap j = false.
Hypothesis Hbyval : PG.attbyval attr = false.
Hypothesis Hattlen : PG.attlen attr < -1.
Hypothesis Hdlen : dlen > 0.
Hypothesis Hlen : 0 <= len_indeterminate offnum j < 2 ^ 30.
Hypothesis Hoff : 0 <= off' <= tuple_end.
Hypothesis Hend : tuple_end < 2 ^ 30.

Lemma cstring_length :
  measure
  = (n <- strnlen Buffer buffer off'
            (tuple_end - off' + len_indeterminate offnum j) ;;
     ret (inl (C.int (n + 1), nerrs))).
Proof.
  unfold measure, attribute_length. rewrite Hbyval.
  replace (PG.attlen attr =? -1) with false
    by (symmetry; apply Z.eqb_neq; lia).
  replace (PG.attlen attr <? 0) with true
    by (symmetry; apply Z.ltb_lt; lia).
  cbn [negb andb]. unfold C.size_t, C.uint64. fold tuple_end.
  replace (PG.lp_off linp + len_indeterminate offnum j + PG.lp_len linp
           - off')
    with (tuple_end - off' + len_indeterminate offnum j)
    by (unfold tuple_end; lia).
  rewrite int_small, Z.mod_small by lia. reflexivity.
Qed.

Lemma unterminated_string :
  (forall x, off' <= x < tuple_end -> u8_at buffer x <> 0) ->
  value body = Break off' (C.uint32 (nerrs + 1))
  /\ count_warnings is_overflow_error (trace body) = 1
  /\ W (trace body) = 1.
Proof.
  intros Hnz.
  destruct (attribute_body_not_null len_indeterminate block offnum buffer
              dlen linp tuple bitmap j attr off nerrs Hnull) as [Hv Hc].
  fold off' in Hv, Hc. fold measure in Hv, Hc. fold tuple_end in Hv, Hc.
  fold body in Hv, Hc.
  rewrite cstring_length in Hv, Hc. unfold strnlen in Hv, Hc.
  revert Hv Hc. run. cbn [value fst trace snd]. intros Hv Hc.
  set (bound := tuple_end - off' + len_indeterminate offnum j) in *.
  set (n := strnlen_scan buffer off' (Z.to_nat bound) 0) in *.
  assert (Hn : tuple_end - off' <= n <= bound).
  { assert (H1 := strnlen_scan_bounds buffer off' (Z.to_nat bound) 0).
    assert (H2 := strnlen_scan_nonzero_prefix buffer off' (Z.to_nat bound) 0
                    (tuple_end - off')).
    fold n in H1, H2. split; [|lia].
    apply H2; [lia|]. intros x Hx. apply Hnz. lia. }
  assert (Htest : (dlen >? 0)
                  && (C.int (off' + C.int (n + 1)) >? tuple_end) = true).
  { rewrite !int_small by (try rewrite int_small; lia).
    rewrite !Z.gtb_ltb.
    apply andb_true_intro. split; apply Z.ltb_lt; lia. }
  rewrite Htest in Hv, Hc.
  split; [exact Hv|]. split; rewrite Hc; reflexivity.
Qed.

Lemma terminated_string k :
  0 <= k -> off' + k < tuple_end ->
  u8_at buffer (off' + k) = 0 ->
  (forall x, off' <= x < off' + k -> u8_at buffer x <> 0) ->
  measure = (inl (k + 1, nerrs), [Load Buffer off' (k + 1)])
  /\ value body = Next (off' + (k + 1)) nerrs
  /\ W (trace body) = 0.
Proof.
  intros Hk Hin Hzero Hnz.
  set (bound := tuple_end - off' + len_indeterminate offnum j).
  assert (Hn : strnlen_scan buffer off' (Z.to_nat bound) 0 = k).
  { rewrite (strnlen_scan_terminator buffer off' (Z.to_nat bound) 0 k);
      [lia | unfold bound; lia | exact Hzero |].
    intros x Hx. apply Hnz. lia. }
  assert (Hmeasure :
    measure = (inl (k + 1, nerrs), [Load Buffer off' (k + 1)])).
  { rewrite cstring_length. unfold strnlen. fold bound. rewrite Hn.
    unfold bind, ret. rewrite int_small by lia.
    rewrite Z.min_r by (unfold bound; lia). reflexivity. }
  split; [exact Hmeasure|].
  destruct (attribute_body_not_null len_indeterminate block offnum buffer
              dlen linp tuple bitmap j attr off nerrs Hnull) as [Hv Hc].
  fold off' in Hv, Hc. fold measure in Hv, Hc. fold tuple_end in Hv, Hc.
  fold body in Hv, Hc.
  rewrite Hmeasure in Hv, Hc. cbn [value fst trace snd] in Hv, Hc.
  assert (Htest : (dlen >? 0) && (C.int (off' + (k + 1)) >? tuple_end)
                  = false).
  { rewrite int_small by lia. apply andb_false_intro2.
    rewrite Z.gtb_ltb. apply Z.ltb_ge. lia. }
  rewrite Htest in Hv, Hc.
  replace (dlen >? 0) with true in Hv
    by (symmetry; rewrite Z.gtb_ltb; apply Z.ltb_lt; lia).
  rewrite int_small in Hv by lia.
  split; [exact Hv|]. rewrite Hc. reflexivity.
Qed.

End C_strings.

(** X13.  A C string with no zero byte between its start and the end of
    its tuple is always found out when dlen > 0, whatever value (from 0 to
    2^30) the uninitialised len holds: the computed length reaches beyond
    the end of the tuple, the overflow is reported once and the loop
    ends. *)
Theorem unterminated_string_is_reported {build : Build}
    (len_indeterminate : Z -> Z -> Z) (block offnum : Z) (buffer : mem)
    (dlen : Z) (linp : PG.ItemIdData) (tuple bitmap j : Z)
    (attr : PG.FormData_pg_attribute) (off nerrs : Z) :
  let off' := aligned_offset buffer attr off in
  let tuple_end := PG.lp_off linp + PG.lp_len linp in
  let body :=
    attribute_body len_indeterminate block offnum buffer dlen linp tuple
                   bitmap j attr off nerrs in
  attribute_is_null buffer tuple bitmap j = false ->
  PG.attbyval attr = false -> PG.attlen attr < -1 ->
  dlen > 0 ->
  0 <= len_indeterminate offnum j < 2 ^ 30 ->
  0 <= off' <= tuple_end -> tuple_end < 2 ^ 30 ->
  (forall x, off' <= x < tuple_end -> u8_at buffer x <> 0) ->
  value body = Break off' (C.uint32 (nerrs + 1))
  /\ count_warnings is_overflow_error (trace body) = 1
  /\ W (trace body) = 1.
Proof.
  cbv zeta. intros. apply unterminated_string; assumption.
Qed.

(** X14.  A C string whose first zero byte lies inside its tuple, k bytes
    from its start, is measured as k + 1 bytes whatever value (from 0 to
    2^30) the uninitialised len holds: exactly those k + 1 bytes are read,
    no error is reported and, with dlen > 0, the next attribute starts
    right behind the zero byte. *)
Theorem terminated_string_is_measured {build : Build}
    (len_indeterminate : Z -> Z -> Z) (block offnum : Z) (buffer : mem)
    (dlen : Z) (linp : PG.ItemIdData) (tuple bitmap j : Z)
    (attr : PG.FormData_pg_attribute) (off nerrs k : Z) :
  let off' := aligned_offset buffer attr off in
  let tuple_end := PG.lp_off linp + PG.lp_len linp in
  let body :=
    attribute_body len_indeterminate block offnum buffer dlen linp tuple
                   bitmap j attr off nerrs in
  attribute_is_null buffer tuple bitmap j = false ->
  PG.attbyval attr = false -> PG.attlen attr < -1 ->
  dlen > 0 ->
  0 <= len_indeterminate offnum j < 2 ^ 30 ->
  0 <= off' <= tuple_end -> tuple_end < 2 ^ 30 ->
  0 <= k -> off' + k < tuple_end ->
  u8_at buffer (off' + k) = 0 ->
  (forall x, off' <= x < off' + k -> u8_at buffer x <> 0) ->
  attribute_length len_indeterminate block offnum buffer linp j attr off'
                   nerrs
  = (inl (k + 1, nerrs), [Load Buffer off' (k + 1)])
  /\ value body = Next (off' + (k + 1)) nerrs
  /\ W (trace body) = 0.
Proof.
  cbv zeta. intros. apply terminated_string; assumption.
Qed.

Lemma unterminated_string_is_reported_witness :
  value (attribute_body (build := pg_x86_64) (Page.len_holds 100) 1 1
           Page.unterminated 8 (ItemId Page.unterminated 0) 8000 8008 0
           Page.cstring 8008 0) = Break 8008 1.
Proof.
  assert (Hnz : forall x, 8008 <= x < 8016 -> u8_at Page.unterminated x <> 0).
  { intros x Hx.
    assert (Hcases : x = 8008 \/ x = 8009 \/ x = 8010 \/ x = 8011
                     \/ x = 8012 \/ x = 8013 \/ x = 8014 \/ x = 8015)
      by lia.
    repeat (destruct Hcases as [->|Hcases]; [vm_compute; discriminate|]).
    subst x. vm_compute. discriminate. }
  apply (proj1 (unterminated_string_is_reported (build := pg_x86_64)
           (Page.len_holds 100) 1 1 Page.unterminated 8
           (ItemId Page.unterminated 0) 8000 8008 0 Page.cstring 8008 0
           eq_refl eq_refl ltac:(vm_compute; reflexivity)
           ltac:(lia) ltac:(vm_compute; split; [discriminate | reflexivity])
           ltac:(vm_compute; split; discriminate)
           ltac:(vm_compute; reflexivity) Hnz)).
Defined.

Lemma terminated_string_is_measured_witness :
  value (attribute_body (build := pg_x86_64) (Page.len_holds 100) 1 1
           Page.terminated 8 (ItemId Page.terminated 0) 8000 8008 0
           Page.cstring 8008 0) = Next 8012 0.
Proof.
  assert (Hnz : forall x, 8008 <= x < 8008 + 3 ->
                          u8_at Page.terminated x <> 0).
  { intros x Hx.
    assert (Hcases : x = 8008 \/ x = 8009 \/ x = 8010) by lia.
    repeat (destruct Hcases as [->|Hcases]; [vm_compute; discriminate|]).
    subst x. vm_compute. discriminate. }
  apply (proj1 (proj2 (terminated_string_is_measured (build := pg_x86_64)
           (Page.len_holds 100) 1 1 Page.terminated 8
           (ItemId Page.terminated 0) 8000 8008 0 Page.cstring 8008 0 3
           eq_refl eq_refl ltac:(vm_compute; reflexivity)
           ltac:(lia) ltac:(vm_compute; split; [discriminate | reflexivity])
           ltac:(vm_compute; split; discriminate)
           ltac:(vm_compute; reflexivity) ltac:(lia)
           ltac:(vm_compute; reflexivity) eq_refl Hnz))).
Defined.

(** ** Attributes of fixed width *)

Lemma att_align_nominal_align_up x c :
  0 <= x < 2 ^ 62 ->
  PG.att_align_nominal x c = align_up (alignment_of c) x.
Proof.
  intros Hx. unfold PG.att_align_nominal, alignment_of, align_up,
    PG.INTALIGN, PG.DOUBLEALIGN, PG.SHORTALIGN.
  destruct (Ascii.eqb c "i"); [apply (TYPEALIGN_div 2); lia|].
  destruct (Ascii.eqb c "c").
  - unfold C.uintptr_t, C.uint64. rewrite Z.mod_small by lia.
    rewrite Z.sub_diag, Z.add_0_r, Z.div_1_r. lia.
  - destruct (Ascii.eqb c "d");
      [apply (TYPEALIGN_div 3) | apply (TYPEALIGN_div 1)]; lia.
Qed.

Lemma align_up_bounds a x :
  0 < a <= 8 -> x <= align_up a x <= x + 7.
Proof.
  intros Ha. unfold align_up. Z.div_mod_to_equations. nia.
Qed.

Lemma alignment_of_range c : 0 < alignment_of c <= 8.
Proof.
  unfold alignment_of.
  destruct (Ascii.eqb c "i"); [lia|].
  destruct (Ascii.eqb c "c"); [lia|].
  destruct (Ascii.eqb c "d"); lia.
Qed.

Section Fixed_width.

Context {build : Build}.
Variable len_indeterminate : Z -> Z -> Z.

Variables (block offnum : Z) (buffer : mem) (dlen : Z) (linp : PG.ItemIdData)
          (tuple bitmap : Z).

Let tuple_end := PG.lp_off linp + PG.lp_len linp.

Hypothesis Hnonulls : value (PG.IndexTupleHasNulls Buffer buffer tuple) = false.
Hypothesis Hdlen : dlen > 0.
Hypothesis Hend : 0 <= tuple_end < 2 ^ 30.

Lemma fixed_attribute_body j attr off nerrs :
  0 <= PG.attlen attr < 2 ^ 15 ->
  0 <= off < 2 ^ 30 ->
  let start := align_up (alignment_of (PG.attalign attr)) off in
  let body :=
    attribute_body len_indeterminate block offnum buffer dlen linp tuple
                   bitmap j attr off nerrs in
  if start + PG.attlen attr >? tuple_end
  then value body = Break start (C.uint32 (nerrs + 1))
       /\ W (trace body) = 1
       /\ count_warnings is_overflow_error (trace body) = 1
  else value body = Next (start + PG.attlen attr) nerrs
       /\ W (trace body) = 0
       /\ count_warnings is_overflow_error (trace body) = 0.
Proof.
  intros Hattlen Hoff. cbv zeta.
  assert (Hrange := alignment_of_range (PG.attalign attr)).
  assert (Hup := align_up_bounds (alignment_of (PG.attalign attr)) off
                   Hrange).
  assert (Hnull : attribute_is_null buffer tuple bitmap j = false)
    by (unfold attribute_is_null; rewrite Hnonulls; reflexivity).
  destruct (attribute_body_not_null len_indeterminate block offnum buffer
              dlen linp tuple bitmap j attr off nerrs Hnull) as [Hv Hc].
  assert (Hstart : aligned_offset buffer attr off
                   = align_up (alignment_of (PG.attalign attr)) off).
  { unfold aligned_offset, PG.att_align_pointer.
    replace (PG.attlen attr =? -1) with false
      by (symmetry; apply Z.eqb_neq; lia).
    run. rewrite att_align_nominal_align_up by lia. apply int_small. lia. }
  rewrite Hstart in Hv, Hc.
  set (start := align_up (alignment_of (PG.attalign attr)) off) in *.
  assert (Hmeasure :
    attribute_length len_indeterminate block offnum buffer linp j attr start
                     nerrs = ret (inl (PG.attlen attr, nerrs))).
  { unfold attribute_length.
    replace (PG.attlen attr =? -1) with false
      by (symmetry; apply Z.eqb_neq; lia).
    replace (PG.attlen attr <? 0) with false
      by (symmetry; apply Z.ltb_ge; lia).
    rewrite !andb_false_r. reflexivity. }
  rewrite Hmeasure in Hv, Hc. cbn [value fst trace snd ret] in Hv, Hc.
  fold tuple_end in Hv, Hc.
  rewrite int_small in Hv, Hc by lia.
  replace (dlen >? 0) with true in Hv, Hc
    by (symmetry; rewrite Z.gtb_ltb; apply Z.ltb_lt; lia).
  cbn [andb] in Hv, Hc.
  destruct (start + PG.attlen attr >? tuple_end) eqn:Hover.
  - split; [exact Hv|]. split; rewrite Hc; reflexivity.
  - rewrite int_small in Hv by lia.
    split; [exact Hv|]. split; rewrite Hc; reflexivity.
Qed.

Lemma fixed_attributes_loop attrs : forall j off nerrs,
  Forall (fun attr => 0 <= PG.attlen attr < 2 ^ 15) attrs ->
  0 <= off < 2 ^ 30 ->
  let loop :=
    attributes_loop len_indeterminate block offnum buffer dlen linp tuple
                    bitmap attrs j off nerrs in
  match fixed_layout tuple_end off attrs with
  | inl last =>
      value loop = (last, nerrs) /\ W (trace loop) = 0
      /\ 0 <= last < 2 ^ 31
  | inr start =>
      value loop = (start, C.uint32 (nerrs + 1))
      /\ W (trace loop) = 1
      /\ count_warnings is_overflow_error (trace loop) = 1
      /\ 0 <= start < 2 ^ 31
  end.
Proof.
  induction attrs as [|attr rest IH]; intros j off nerrs Hall Hoff; cbv zeta.
  - repeat split; try reflexivity; lia.
  - inversion Hall as [|? ? Hattr Hrest]; subst.
    cbn [fixed_layout attributes_loop]. run.
    assert (Hbody := fixed_attribute_body j attr off nerrs Hattr Hoff).
    cbv zeta in Hbody.
    assert (Hrange := alignment_of_range (PG.attalign attr)).
    assert (Hup := align_up_bounds (alignment_of (PG.attalign attr)) off
                     Hrange).
    rewrite !count_warnings_app.
    destruct (align_up (alignment_of (PG.attalign attr)) off
              + PG.attlen attr >? tuple_end) eqn:Hover.
    + destruct Hbody as [Hv [Hw Ho]]. rewrite Hv, Hw, Ho. run.
      repeat split; try reflexivity; lia.
    + destruct Hbody as [Hv [Hw Ho]]. rewrite Hv, Hw, Ho.
      rewrite Z.gtb_ltb in Hover. apply Z.ltb_ge in Hover.
      specialize (IH (j + 1)
                     (align_up (alignment_of (PG.attalign attr)) off
                      + PG.attlen attr) nerrs Hrest).
      cbv zeta in IH.
      destruct (fixed_layout tuple_end _ rest).
      * destruct IH as [Hv' [Hw' Hr]]; [lia|]. rewrite Hv', Hw'.
        repeat split; try reflexivity; lia.
      * destruct IH as [Hv' [Hw' [Ho' Hr]]]; [lia|]. rewrite Hv', Hw', Ho'.
        repeat split; try reflexivity; lia.
Qed.

End Fixed_width.

(** X15.  For a relation of attributes of fixed width and a LP_NORMAL tuple
    without null bitmap and with dlen > 0, check_index_tuple_attributes
    returns 0 exactly when the attributes, laid out from the end of the
    tuple header each at its alignment, all end inside the line pointer's
    range and the MAXALIGNed end of the last one does too.  Otherwise it
    returns 1 for the first attribute that does not fit, or for the final
    offset, and 2 when the offset the scan stopped at, once MAXALIGNed,
    lies beyond the end as well. *)
Theorem fixed_width_tuple {build : Build} (len_indeterminate : Z -> Z -> Z)
    (rel : Relation) (header : mem) (block offnum : Z) (buffer : mem)
    (dlen : Z) :
  let linp := ItemId header (offnum - 1) in
  let tuple_end := PG.lp_off linp + PG.lp_len linp in
  let beyond off := if align_up 8 off >? tuple_end then 1 else 0 in
  Forall (fun attr => 0 <= PG.attlen attr < 2 ^ 15) rel ->
  value (PG.IndexTupleHasNulls Buffer buffer (PG.lp_off linp)) = false ->
  dlen > 0 ->
  value (check_index_tuple_attributes len_indeterminate rel header block
                                      offnum buffer dlen)
  = match fixed_layout tuple_end
                       (PG.lp_off linp + PG.sizeof_IndexTupleData) rel with
    | inl last => beyond last
    | inr start => 1 + beyond start
    end.
Proof.
  cbv zeta. intros Hrel Hnonulls Hdlen.
  destruct (ItemId_range header (offnum - 1)) as [Hlo Hlen].
  unfold check_index_tuple_attributes. run.
  fold (ItemId header (offnum - 1)).
  set (linp := ItemId header (offnum - 1)) in *.
  set (info := value (PG.t_info Buffer buffer (PG.lp_off linp))).
  assert (Hinfo : (Z.land info PG.INDEX_NULL_MASK =? 0) = true).
  { unfold PG.IndexTupleHasNulls in Hnonulls. revert Hnonulls. run.
    fold info. destruct (Z.land info PG.INDEX_NULL_MASK =? 0);
      [reflexivity | discriminate]. }
  assert (Hoff : C.int (C.size_t (PG.lp_off linp
                                  + PG.IndexInfoFindDataOffset info))
                 = PG.lp_off linp + PG.sizeof_IndexTupleData).
  { unfold PG.IndexInfoFindDataOffset. rewrite Hinfo.
    change (C.size_t (PG.MAXALIGN PG.sizeof_IndexTupleData)) with 8.
    unfold C.size_t, C.uint64, PG.sizeof_IndexTupleData.
    rewrite Z.mod_small, int_small; lia. }
  rewrite Hoff.
  assert (Hnodata :
    value (if negb (value (PG.P_ISLEAF Buffer buffer
                             (value (PG.pd_special Header header))))
           then first <- PG.P_FIRSTDATAKEY Buffer buffer
                           (value (PG.pd_special Header header)) ;;
                ret ((offnum =? first) && (dlen =? 0))
           else ret false) = false).
  { replace (dlen =? 0) with false by (symmetry; apply Z.eqb_neq; lia).
    destruct (negb _); run; [apply andb_false_r | reflexivity]. }
  rewrite Hnodata.
  assert (Hloop := fixed_attributes_loop len_indeterminate block offnum
                     buffer dlen linp (PG.lp_off linp)
                     (PG.lp_off linp + PG.sizeof_IndexTupleData)
                     Hnonulls Hdlen ltac:(lia) rel 0
                     (PG.lp_off linp + PG.sizeof_IndexTupleData) 0 Hrel).
  cbv zeta in Hloop. unfold PG.sizeof_IndexTupleData in *.
  assert (Hmax : forall off, 0 <= off < 2 ^ 31 ->
            (PG.MAXALIGN off
             >? C.uintptr_t (PG.lp_off linp + PG.lp_len linp))
            = (align_up 8 off >? PG.lp_off linp + PG.lp_len linp)).
  { intros off Hr. rewrite MAXALIGN_div by lia.
    unfold C.uintptr_t, C.uint64. rewrite Z.mod_small by lia.
    reflexivity. }
  destruct (fixed_layout _ _ rel) as [last|start].
  - destruct Hloop as [Hv [_ Hr]]; [lia|]. run.
    match goal with
    | |- context [let (_, _) := ?x in _] =>
        change x with (value (attributes_loop len_indeterminate block offnum
          buffer dlen linp (PG.lp_off linp) (PG.lp_off linp + 8) rel 0
          (PG.lp_off linp + 8) 0))
    end.
    rewrite Hv. run. rewrite Hmax by lia.
    destruct (align_up 8 last >? _); reflexivity.
  - destruct Hloop as [Hv [_ [_ Hr]]]; [lia|]. run.
    match goal with
    | |- context [let (_, _) := ?x in _] =>
        change x with (value (attributes_loop len_indeterminate block offnum
          buffer dlen linp (PG.lp_off linp) (PG.lp_off linp + 8) rel 0
          (PG.lp_off linp + 8) 0))
    end.
    rewrite Hv. run. rewrite Hmax by lia.
    destruct (align_up 8 start >? _); reflexivity.
Qed.

Lemma fixed_width_tuple_witness :
  value (check_index_tuple_attributes (build := pg_x86_64)
           (Page.len_holds 0) [Page.int4; Page.int8] Page.two_columns 1 1
           Page.two_columns 16) = 0.
Proof.
  apply (fixed_width_tuple (build := pg_x86_64) (Page.len_holds 0)
           [Page.int4; Page.int8] Page.two_columns 1 1 Page.two_columns 16).
  - repeat constructor; vm_compute; discriminate.
  - vm_compute. reflexivity.
  - lia.
Defined.

(** ** Reads of the line pointer array *)

Section Header_reads.

Context {build : Build}.
Variable len_indeterminate : Z -> Z -> Z.
Hypothesis Hpg : pg_varlena build.

Lemma attribute_length_header_loads size block offnum buffer linp j attr
    off nerrs :
  loads_within Header size
    (trace (attribute_length len_indeterminate block offnum buffer linp j
                             attr off nerrs)) = true.
Proof.
  destruct Hpg as [Hsize [Hcompressed Hraw]].
  unfold attribute_length.
  destruct (negb (PG.attbyval attr) && (PG.attlen attr =? -1)).
  - run. rewrite Hsize, Hcompressed, Hraw.
    unfold Varlena.VARSIZE_ANY, Varlena.VARATT_IS_1B_E,
      Varlena.VARATT_IS_1B, Varlena.VARSIZE_1B_E, Varlena.VARSIZE_1B,
      Varlena.VARSIZE_4B, Varlena.VARATT_IS_COMPRESSED,
      Varlena.VARATT_IS_4B_C, Varlena.VARRAWSIZE_4B_C.
    loads.
  - destruct (negb (PG.attbyval attr) && (PG.attlen attr <? 0));
      reflexivity.
Qed.

Lemma attribute_body_header_loads size block offnum buffer dlen linp tuple
    bitmap j attr off nerrs :
  loads_within Header size
    (trace (attribute_body len_indeterminate block offnum buffer dlen linp
                           tuple bitmap j attr off nerrs)) = true.
Proof.
  unfold attribute_body, PG.IndexTupleHasNulls, PG.att_isnull,
    PG.att_align_pointer, PG.VARATT_NOT_PAD_BYTE, PG.t_info.
  repeat first
    [ progress run
    | rewrite loads_within_app
    | apply andb_true_intro; split
    | reflexivity
    | apply attribute_length_header_loads
    | match goal with
      | |- loads_within _ _ (trace (if ?c then _ else _)) = true =>
          destruct c eqn:?
      | |- loads_within _ _
             (trace (match ?x with inl _ => _ | inr _ => _ end)) = true =>
          destruct x as [[? ?]|?]
      end ].
Qed.

Lemma attributes_loop_header_loads size block offnum buffer dlen linp tuple
    bitmap attrs : forall j off nerrs,
  loads_within Header size
    (trace (attributes_loop len_indeterminate block offnum buffer dlen linp
                            tuple bitmap attrs j off nerrs)) = true.
Proof.
  induction attrs as [|attr rest IH]; intros j off nerrs;
    cbn [attributes_loop]; [reflexivity|].
  run. rewrite loads_within_app, attribute_body_header_loads. cbn [andb].
  destruct (value (attribute_body _ _ _ _ _ _ _ _ _ _ _ _))
    as [off' nerrs'|off' nerrs']; [apply IH | reflexivity].
Qed.

Lemma intersection_loop_header_loads header block i a b size count :
  forall j nerrs,
    0 <= j ->
    PG.SizeOfPageHeaderData + PG.sizeof_ItemIdData * (j + Z.of_nat count)
    <= size ->
    loads_within Header size
      (trace (intersection_loop header block i a b count j nerrs)) = true.
Proof.
  unfold PG.SizeOfPageHeaderData, PG.sizeof_ItemIdData.
  induction count as [|count IH]; intros j nerrs Hj Hsize;
    cbn [intersection_loop]; [reflexivity|].
  rewrite Nat2Z.inj_succ in Hsize.
  unfold PG.pd_linp, PG.SizeOfPageHeaderData, PG.sizeof_ItemIdData.
  loads; try lia; apply IH; lia.
Qed.

Lemma check_index_tuple_attributes_header_loads rel header block offnum
    buffer dlen size :
  1 <= offnum ->
  PG.SizeOfPageHeaderData + PG.sizeof_ItemIdData * offnum <= size ->
  loads_within Header size
    (trace (check_index_tuple_attributes len_indeterminate rel header block
                                         offnum buffer dlen)) = true.
Proof.
  unfold PG.SizeOfPageHeaderData, PG.sizeof_ItemIdData.
  intros Hoffnum Hsize.
  unfold check_index_tuple_attributes, PG.pd_linp, PG.pd_special, PG.t_info,
    PG.P_ISLEAF, PG.P_FIRSTDATAKEY, PG.P_RIGHTMOST, PG.btpo_flags,
    PG.btpo_next, PG.SizeOfPageHeaderData, PG.sizeof_ItemIdData.
  repeat first
    [ progress run
    | rewrite loads_within_app
    | apply andb_true_intro; split
    | reflexivity
    | apply attributes_loop_header_loads
    | match goal with
      | |- loads_within _ _ (trace (if ?c then _ else _)) = true =>
          destruct c eqn:?
      | |- loads_within _ _ (trace (let (_, _) := ?x in _)) = true =>
          destruct x
      | |- loads_within _ _ (trace (load16 Header _ _)) = true =>
          apply loads_within_one; lia
      | |- loads_within _ _ (trace (load32 Header _ _)) = true =>
          apply loads_within_one; lia
      end ];
    apply Z.leb_le; lia.
Qed.

Lemma check_index_tuple_header_loads rel header block i buffer size :
  0 <= i < 65535 ->
  PG.SizeOfPageHeaderData + PG.sizeof_ItemIdData * (i + 1) <= size ->
  loads_within Header size
    (trace (check_index_tuple len_indeterminate rel header block i buffer))
  = true.
Proof.
  intros Hi Hsize.
  assert (Hattrs := check_index_tuple_attributes_header_loads rel header
                      block (C.uint16 (i + 1)) buffer).
  assert (Hoffnum : C.uint16 (i + 1) = i + 1).
  { unfold C.uint16. rewrite Z.mod_small; lia. }
  rewrite Hoffnum in Hattrs.
  assert (Hloop := intersection_loop_header_loads header block i).
  unfold PG.SizeOfPageHeaderData, PG.sizeof_ItemIdData in *.
  unfold check_index_tuple, tuple_dlen, PG.pd_linp, PG.IndexTupleSize,
    PG.t_info, PG.SizeOfPageHeaderData, PG.sizeof_ItemIdData.
  rewrite Hoffnum.
  repeat first
    [ progress run
    | rewrite loads_within_app
    | apply andb_true_intro; split
    | reflexivity
    | apply Hattrs; lia
    | apply Hloop; lia
    | match goal with
      | |- loads_within _ _ (trace (if ?c then _ else _)) = true =>
          destruct c eqn:?
      | |- loads_within _ _ (trace (load32 Header _ _)) = true =>
          apply loads_within_one; lia
      end ];
    try (apply Z.leb_le; lia).
Qed.

Lemma tuples_loop_header_loads rel header block buffer size count :
  forall i nerrs,
    0 <= i -> i + Z.of_nat count <= 65535 ->
    PG.SizeOfPageHeaderData + PG.sizeof_ItemIdData * (i + Z.of_nat count)
    <= size ->
    loads_within Header size
      (trace (tuples_loop len_indeterminate rel header block buffer count i
                          nerrs)) = true.
Proof.
  unfold PG.SizeOfPageHeaderData, PG.sizeof_ItemIdData.
  induction count as [|count IH]; intros i nerrs Hi Hmax Hsize;
    cbn [tuples_loop]; [reflexivity|].
  rewrite Nat2Z.inj_succ in Hsize, Hmax.
  run. rewrite loads_within_app.
  rewrite check_index_tuple_header_loads
    by (unfold PG.SizeOfPageHeaderData, PG.sizeof_ItemIdData; lia).
  apply IH; lia.
Qed.

(** X16.  With PostgreSQL's varlena macros, check_index_tuples reads
    through the header pointer only pd_special and the line pointers of
    the slots below the tuple count it took from pd_lower: every such read
    ends at or before pd_lower (or inside the 24 bytes of the page header
    when pd_lower is less). *)
Theorem line_pointer_reads_below_pd_lower (rel : Relation)
    (header buffer : mem) (block : Z) :
  loads_within Header
    (Z.max PG.SizeOfPageHeaderData (value (PG.pd_lower Buffer buffer)))
    (trace (check_index_tuples len_indeterminate rel header buffer block))
  = true.
Proof.
  unfold check_index_tuples. run. rewrite !loads_within_app.
  assert (Hrange := PageGetMaxOffsetNumber_range Buffer buffer).
  rewrite int_small by lia.
  replace (loads_within Header _ (trace (PG.PageGetMaxOffsetNumber Buffer
                                           buffer))) with true
    by reflexivity.
  cbn [andb].
  rewrite tuples_loop_header_loads.
  - cbn [andb].
    match goal with
    | |- context [if ?c then _ else _] => destruct c
    end; reflexivity.
  - lia.
  - lia.
  - rewrite Z2Nat.id by lia.
    unfold PG.PageGetMaxOffsetNumber, PG.SizeOfPageHeaderData,
      PG.sizeof_ItemIdData. run.
    destruct (value (PG.pd_lower Buffer buffer) <=? 24) eqn:E.
    + lia.
    + apply Z.leb_gt in E. Z.div_mod_to_equations. lia.
Qed.

End Header_reads.

Lemma line_pointer_reads_below_pd_lower_witness :
  loads_within Header 32
    (trace (check_index_tuples (build := pg_x86_64) (Page.len_holds 0)
              [Page.int4] Page.dead_over_normal Page.dead_over_normal 1))
  = true.
Proof.
  apply (line_pointer_reads_below_pd_lower (build := pg_x86_64)
           (Page.len_holds 0) ltac:(repeat split; reflexivity) [Page.int4]
           Page.dead_over_normal Page.dead_over_normal 1).
Defined.

Lemma intersection_test_empty_and_touching_witness :
  intersects 8000 8024 8024 8040 = false.
Proof.
  apply (proj1 (proj2 (intersection_test_empty_and_touching 8000 8024 8040)));
    lia.
Defined.

(** ** dlen *)

Lemma int_of_size_t x : - 2 ^ 31 <= x < 2 ^ 31 -> C.int (C.size_t x) = x.
Proof.
  intros Hx. unfold C.size_t, C.uint64.
  destruct (Z_lt_le_dec x 0).
  - assert (Hmod : x mod 2 ^ 64 = x + 2 ^ 64)
      by (symmetry; apply Z.mod_unique_pos with (q := -1); lia).
    rewrite Hmod. unfold C.int.
    replace (x + 2 ^ 64 + 2 ^ 31) with (x + 2 ^ 31 + 2 ^ 32 * 2 ^ 32) by lia.
    rewrite Z.mod_add by lia. rewrite Z.mod_small; lia.
  - rewrite Z.mod_small by lia. apply int_small. lia.
Qed.

(** X17.  The conversions of line 154 (size_t operands, int result) leave
    dlen the plain difference between the 13-bit size in t_info and the
    offset of the data, 8 bytes without a null bitmap and 16 with one: it
    lies between -16 and 8183 and is negative exactly when the size is
    less than the data offset. *)
Theorem tuple_dlen_value (buffer : mem) (itup : Z) :
  let info := u16_at buffer (itup + 6) in
  let size := Z.land info PG.INDEX_SIZE_MASK in
  let data := if Z.land info PG.INDEX_NULL_MASK =? 0 then 8 else 16 in
  value (tuple_dlen buffer itup) = size - data
  /\ -16 <= value (tuple_dlen buffer itup) <= 8183.
Proof.
  cbv zeta. unfold tuple_dlen, PG.IndexTupleSize, PG.t_info. run.
  change (value (load16 Buffer buffer (itup + 6)))
    with (u16_at buffer (itup + 6)).
  set (info := u16_at buffer (itup + 6)).
  assert (Hsize : 0 <= Z.land info PG.INDEX_SIZE_MASK < 2 ^ 13).
  { change PG.INDEX_SIZE_MASK with (Z.ones 13). apply land_ones_range. lia. }
  assert (Hdata : PG.IndexInfoFindDataOffset info
                  = if Z.land info PG.INDEX_NULL_MASK =? 0 then 8 else 16).
  { unfold PG.IndexInfoFindDataOffset.
    destruct (Z.land info PG.INDEX_NULL_MASK =? 0); reflexivity. }
  rewrite Hdata.
  assert (Hs : C.size_t (Z.land info PG.INDEX_SIZE_MASK)
               = Z.land info PG.INDEX_SIZE_MASK)
    by (unfold C.size_t, C.uint64; apply Z.mod_small; lia).
  rewrite Hs.
  rewrite int_of_size_t
    by (destruct (Z.land info PG.INDEX_NULL_MASK =? 0); lia).
  destruct (Z.land info PG.INDEX_NULL_MASK =? 0); lia.
Qed.

(** ** Reads and the bounds of the page, both pointers *)

Section Page_reads.

Context {build : Build}.
Variable check_page_header : mem -> Z -> Z * list (elevel * string).
Variable len_indeterminate : Z -> Z -> Z.

(* the reads check_index_tuple makes in the tuple header: t_info for dlen
   and t_tid for the report of lines 156-160 *)
Lemma tuple_header_loads buffer itup size :
  0 <= itup -> itup + PG.sizeof_IndexTupleData <= size ->
  loads_within Buffer size (trace (tuple_dlen buffer itup)) = true
  /\ loads_within Buffer size
       (trace (PG.ItemPointerGetBlockNumber Buffer buffer itup)) = true
  /\ loads_within Buffer size
       (trace (PG.ItemPointerGetOffsetNumber Buffer buffer itup)) = true.
Proof.
  unfold PG.sizeof_IndexTupleData. intros Hlo Hroom.
  unfold tuple_dlen, PG.IndexTupleSize, PG.t_info,
    PG.ItemPointerGetBlockNumber, PG.BlockIdGetBlockNumber,
    PG.ItemPointerGetOffsetNumber.
  repeat split; loads; lia.
Qed.

(** C1, as amended.  The checks read the page, through the header pointer
    and through the buffer pointer, at offsets taken from the page without
    testing them against its size.  The reads index.c makes itself (those
    of check_page_header are in common.c) stay inside the BLCKSZ bytes of
    the page under these conditions.  (1) check_index_page: the page header
    fits the page and, on the meta page, so do btm_magic and btm_version
    and, on a regular page, pd_special + sizeof(BTPageOpaqueData) is at
    most BLCKSZ.  (2) check_index_tuple for a slot i that is not LP_NORMAL
    (line pointers 0 to i, the tuple header for dlen and for the report of
    t_tid): line pointer i lies inside the page and lp_off +
    sizeof(IndexTupleData) is at most BLCKSZ.  (3) check_index_tuple for
    any slot i, and check_index_tuple_attributes for that slot and any
    dlen, with PostgreSQL's varlena macros and a relation of at most 32
    attributes none of which is a C string: line pointer i lies inside the
    page, the trailer fits behind pd_special, and the page extends 15 bytes
    beyond the end of the tuple and 31 bytes beyond its start (the
    attribute loop reads a varlena header at an aligned offset that may lie
    up to 7 bytes beyond the end of the tuple). *)
Theorem reads_within_page (rel : Relation) (header buffer : mem)
    (block i : Z) :
  let special := value (PG.pd_special Header header) in
  let lp := ItemId header i in
  let page := check_index_page check_page_header header buffer block in
  let tuple :=
    check_index_tuple len_indeterminate rel header block i buffer in
  (PG.SizeOfPageHeaderData <= BLCKSZ ->
   (if block =? PG.BTREE_METAPAGE
    then PG.BTPageGetMeta + 8 <= BLCKSZ
    else special + PG.sizeof_BTPageOpaqueData <= BLCKSZ) ->
   forall r, loads_within r BLCKSZ (trace page) = true)
  /\ (PG.lp_flags lp <> PG.LP_NORMAL ->
      0 <= i ->
      PG.SizeOfPageHeaderData + PG.sizeof_ItemIdData * (i + 1) <= BLCKSZ ->
      PG.lp_off lp + PG.sizeof_IndexTupleData <= BLCKSZ ->
      forall r, loads_within r BLCKSZ (trace tuple) = true)
  /\ (pg_varlena build ->
      Forall varlena_or_fixed rel ->
      natts rel <= 32 ->
      0 <= i < 65535 ->
      PG.SizeOfPageHeaderData + PG.sizeof_ItemIdData * (i + 1) <= BLCKSZ ->
      special + PG.sizeof_BTPageOpaqueData <= BLCKSZ ->
      PG.lp_off lp + PG.lp_len lp + 15 <= BLCKSZ ->
      PG.lp_off lp + 31 <= BLCKSZ ->
      (forall r, loads_within r BLCKSZ (trace tuple) = true)
      /\ (forall dlen r,
            loads_within r BLCKSZ
              (trace (check_index_tuple_attributes len_indeterminate rel
                        header block (i + 1) buffer dlen)) = true)).
Proof.
  cbv zeta. split; [|split].
  - unfold check_index_page, PG.btm_magic, PG.btm_version, PG.pd_special,
      PG.P_ISDELETED, PG.P_ISLEAF, PG.btpo_level, PG.btpo_flags.
    assert (Hs := u16_at_range header 16).
    change (value (load16 Header header 16)) with (u16_at header 16).
    unfold PG.sizeof_BTPageOpaqueData, PG.SizeOfPageHeaderData.
    change PG.BTPageGetMeta with 24.
    intros Hheader Hroom r. run. rewrite loads_within_app.
    rewrite call_check_page_header_loads. cbn [andb].
    destruct (block =? PG.BTREE_METAPAGE);
      loads; change (value (load16 Header header 16)) with (u16_at header 16);
      first [lia | apply load_within_one; lia].
  - intros Hflag Hi Hslot Hoff r.
    destruct (ItemId_range header i) as [Hlo _].
    destruct (tuple_header_loads buffer (PG.lp_off (ItemId header i)) BLCKSZ)
      as (Hdlen & Htid1 & Htid2); [lia | assumption |].
    apply Z.eqb_neq in Hflag.
    unfold check_index_tuple. run. fold (ItemId header i). rewrite Hflag.
    rewrite !loads_within_app.
    destruct r.
    + rewrite intersection_loop_header_loads
        by (unfold PG.SizeOfPageHeaderData, PG.sizeof_ItemIdData in *;
            rewrite ?Z2Nat.id by lia; lia).
      unfold PG.pd_linp, PG.SizeOfPageHeaderData, PG.sizeof_ItemIdData in *.
      loads; first [lia | apply Z.leb_le; lia].
    + rewrite intersection_loop_loads, Hdlen, Htid1, Htid2. reflexivity.
  - intros Hpg Hrel Hnatts Hi Hslot Hspecial Hend Hstart.
    assert (Hattributes : forall dlen r,
      loads_within r BLCKSZ
        (trace (check_index_tuple_attributes len_indeterminate rel header
                  block (i + 1) buffer dlen)) = true).
    { intros dlen r.
      destruct r;
        [apply check_index_tuple_attributes_header_loads;
         [assumption | lia | assumption]|].
      apply check_index_tuple_attributes_reads; try assumption;
        replace (i + 1 - 1) with i by lia; assumption. }
    split; [|exact Hattributes].
    intros r.
    destruct r;
      [apply check_index_tuple_header_loads; assumption|].
    destruct (ItemId_range header i) as [Hlo Hlen].
    destruct (tuple_header_loads buffer (PG.lp_off (ItemId header i)) BLCKSZ)
      as (Hdlen & Htid1 & Htid2);
      [lia | unfold PG.sizeof_IndexTupleData; lia |].
    assert (Hoffnum : C.uint16 (i + 1) - 1 = i).
    { unfold C.uint16. rewrite Z.mod_small; lia. }
    assert (Hattrs := check_index_tuple_attributes_reads len_indeterminate rel
                        header block (C.uint16 (i + 1)) buffer).
    cbv zeta in Hattrs. rewrite Hoffnum in Hattrs.
    unfold check_index_tuple. run. fold (ItemId header i).
    rewrite !loads_within_app, intersection_loop_loads, Hdlen, Htid1, Htid2.
    replace (loads_within Buffer BLCKSZ (trace (PG.pd_linp Header header i)))
      with true by reflexivity.
    cbn [andb].
    destruct (PG.lp_flags (ItemId header i) =? PG.LP_NORMAL); run;
      [|reflexivity].
    rewrite loads_within_app, Hattrs by assumption. reflexivity.
Qed.

End Page_reads.

Lemma reads_within_page_witness :
  (forall r,
     loads_within r 8192
       (trace (check_index_page (build := pg_x86_64) Page.header_ok
                 (Page.leaf 8176 0) (Page.leaf 8176 0) 1)) = true)
  /\ (forall r,
        loads_within r 8192
          (trace (check_index_tuple (build := pg_x86_64) (Page.len_holds 0)
                    [Page.int4] (Page.one_item 8000 PG.LP_DEAD 16 16) 1 0
                    (Page.one_item 8000 PG.LP_DEAD 16 16))) = true)
  /\ (forall r,
        loads_within r 8192
          (trace (check_index_tuple (build := pg_x86_64) (Page.len_holds 0)
                    [Page.text; Page.int4] (Page.compressed 64) 1 0
                    (Page.compressed 64))) = true)
  /\ (forall r,
        loads_within r 8192
          (trace (check_index_tuple (build := pg_x86_64) (Page.len_holds 0)
                    [Page.int4; Page.int4]
                    (Page.one_item 8160 PG.LP_NORMAL 16 16) 1 0
                    (Page.one_item 8160 PG.LP_NORMAL 16 16))) = true).
Proof.
  split; [|split; [|split]].
  - apply (proj1 (reads_within_page (build := pg_x86_64) Page.header_ok
                    (Page.len_holds 0) [] (Page.leaf 8176 0)
                    (Page.leaf 8176 0) 1 0));
      vm_compute; discriminate.
  - apply (proj1 (proj2 (reads_within_page (build := pg_x86_64)
                    Page.header_ok (Page.len_holds 0) [Page.int4]
                    (Page.one_item 8000 PG.LP_DEAD 16 16)
                    (Page.one_item 8000 PG.LP_DEAD 16 16) 1 0)));
      vm_compute; discriminate.
  - apply (fun H1 H2 H3 H4 H5 H6 H7 H8 =>
             proj1 (proj2 (proj2 (reads_within_page (build := pg_x86_64)
                    Page.header_ok (Page.len_holds 0) [Page.text; Page.int4]
                    (Page.compressed 64) (Page.compressed 64) 1 0))
                    H1 H2 H3 H4 H5 H6 H7 H8)).
    + repeat split; reflexivity.
    + repeat constructor; vm_compute; intuition discriminate.
    + vm_compute. discriminate.
    + lia.
    + vm_compute. discriminate.
    + vm_compute. discriminate.
    + vm_compute. discriminate.
    + vm_compute. discriminate.
  - apply (fun H1 H2 H3 H4 H5 H6 H7 H8 =>
             proj1 (proj2 (proj2 (reads_within_page (build := pg_x86_64)
                    Page.header_ok (Page.len_holds 0) [Page.int4; Page.int4]
                    (Page.one_item 8160 PG.LP_NORMAL 16 16)
                    (Page.one_item 8160 PG.LP_NORMAL 16 16) 1 0))
                    H1 H2 H3 H4 H5 H6 H7 H8)).
    + repeat split; reflexivity.
    + repeat constructor; vm_compute; intuition discriminate.
    + vm_compute. discriminate.
    + lia.
    + vm_compute. discriminate.
    + vm_compute. discriminate.
    + vm_compute. discriminate.
    + vm_compute. discriminate.
Defined.
